(** * The Enron-to-Gmail corpus transformer, embedded and verified

    Shallow embedding of [transformer/enron_transformer.go]: the record
    parser's date fallback, the persona assigner, the per-record
    transformer, the thread resolver, the snippet generator and the
    metadata part of the serializer.

    Conventions.  A Go [string] is a byte sequence and is modelled by
    Rocq's [string] (a list of 8-bit [ascii]); [len] is [String.length].
    Go maps are [gmap]s; where the source ranges over a map, the
    (unspecified) iteration order is an explicit argument.  A slice index
    out of range, which panics in Go, is an explicit [None]. *)

From Stdlib Require Import ZArith Lia Ascii String.
From stdpp Require Import gmap strings list fin_maps sorting.

Local Open Scope Z_scope.

(** ** Go's [strings] package, on byte strings

    The functions below follow the Go standard library on ASCII input.
    [ToLower], [Title] and [TrimSpace] additionally consult Unicode tables
    in Go when the input holds multi-byte runes; those tables are outside
    the model, which treats every byte above 0x7F as an ordinary
    character. *)
Module strings.

Definition byte_of (c : ascii) : N := N_of_ascii c.

Definition in_range (lo hi : ascii) (c : ascii) : bool :=
  ((byte_of lo <=? byte_of c) && (byte_of c <=? byte_of hi))%N.

Definition is_upper (c : ascii) : bool := in_range "A" "Z" c.
Definition is_lower (c : ascii) : bool := in_range "a" "z" c.
Definition is_digit (c : ascii) : bool := in_range "0" "9" c.

(** [asciiSpace] of package strings: tab, newline, vertical tab, form
    feed, carriage return, space. *)
Definition is_space (c : ascii) : bool :=
  match byte_of c with
  | 9%N | 10%N | 11%N | 12%N | 13%N | 32%N => true
  | _ => false
  end.

Definition to_lower_byte (c : ascii) : ascii :=
  if is_upper c then ascii_of_N (byte_of c + 32) else c.

Definition to_upper_byte (c : ascii) : ascii :=
  if is_lower c then ascii_of_N (byte_of c - 32) else c.

Fixpoint ToLower (s : string) : string :=
  match s with
  | EmptyString => EmptyString
  | String c r => String (to_lower_byte c) (ToLower r)
  end.

Definition HasPrefix (s p : string) : bool := String.prefix p s.

Fixpoint Contains (s sub : string) : bool :=
  if String.prefix sub s then true
  else match s with
       | EmptyString => false
       | String _ r => Contains r sub
       end.

(** [Index] returns the position of the first occurrence, Go's [-1]
    being [None]. *)
Fixpoint Index (s sub : string) : option nat :=
  if String.prefix sub s then Some 0%nat
  else match s with
       | EmptyString => None
       | String _ r => S <$> Index r sub
       end.

Fixpoint TrimLeft (s : string) : string :=
  match s with
  | EmptyString => EmptyString
  | String c r => if is_space c then TrimLeft r else s
  end.

Fixpoint TrimRight (s : string) : string :=
  match s with
  | EmptyString => EmptyString
  | String c r =>
      match TrimRight r with
      | EmptyString => if is_space c then EmptyString else String c EmptyString
      | r' => String c r'
      end
  end.

Definition TrimSpace (s : string) : string := TrimRight (TrimLeft s).

(** [ReplaceAll s old new] for a non-empty [old]: non-overlapping
    occurrences, scanned left to right.  [skip] counts the bytes of a
    matched occurrence still to be passed over. *)
Fixpoint ReplaceAll_go (old new : string) (skip : nat) (s : string) : string :=
  match s with
  | EmptyString => EmptyString
  | String c r =>
      match skip with
      | S k => ReplaceAll_go old new k r
      | O =>
          if String.prefix old s
          then new +:+ ReplaceAll_go old new (String.length old - 1) r
          else String c (ReplaceAll_go old new 0 r)
      end
  end.

Definition ReplaceAll (s old new : string) : string :=
  match old with
  | EmptyString => s
  | _ => ReplaceAll_go old new 0 s
  end.

(** [Split s sep] for a non-empty [sep]; the result is never empty. *)
Fixpoint Split_go (sep : string) (skip : nat) (s : string) : string * list string :=
  match s with
  | EmptyString => (EmptyString, [])
  | String c r =>
      match skip with
      | S k => Split_go sep k r
      | O =>
          if String.prefix sep s
          then let '(h, t) := Split_go sep (String.length sep - 1) r in
               (EmptyString, h :: t)
          else let '(h, t) := Split_go sep 0 r in
               (String c h, t)
      end
  end.

Definition Split (s sep : string) : list string :=
  let '(h, t) := Split_go sep 0 s in h :: t.

Fixpoint Join (elems : list string) (sep : string) : string :=
  match elems with
  | [] => EmptyString
  | [x] => x
  | x :: rest => x +:+ sep +:+ Join rest sep
  end.

(** [isSeparator] of package strings, on ASCII: letters, digits and the
    underscore are not separators. *)
Definition isSeparator (c : ascii) : bool :=
  if (byte_of c <=? 127)%N
  then negb (is_upper c || is_lower c || is_digit c || Ascii.eqb c "_")
  else false.

Fixpoint Title_go (prev : ascii) (s : string) : string :=
  match s with
  | EmptyString => EmptyString
  | String c r =>
      String (if isSeparator prev then to_upper_byte c else c) (Title_go c r)
  end.

Definition Title (s : string) : string := Title_go " " s.

(** Go's [s[:n]] and [s[n:]] for [n <= len(s)]. *)
Definition take (n : nat) (s : string) : string := String.substring 0 n s.
Definition drop (n : nat) (s : string) : string :=
  String.substring n (String.length s - n) s.

End strings.

(** ** Package [regexp]

  A backtracking matcher with Go's leftmost-first preference: an
  alternation prefers its left branch, a star prefers one more
  iteration.  The patterns of the source only use byte classes below
  0x80, so matching bytes and matching runes agree. *)
Module regexp.

Inductive re : Type :=
| Eps                              (* the empty pattern *)
| Chr (c : ascii)                  (* a literal byte *)
| Class (f : ascii -> bool)        (* [...] , \s *)
| Cat (r1 r2 : re)
| Alt (r1 r2 : re)
| Star (r : re)                    (* r*, greedy *)
| BeginText                        (* ^ without the m flag *)
| WordBoundary.                    (* \b, ASCII *)

Definition Plus (r : re) : re := Cat r (Star r).
Definition AtLeast2 (r : re) : re := Cat r (Cat r (Star r)).

Fixpoint Lit (s : string) : re :=
  match s with
  | EmptyString => Eps
  | String c EmptyString => Chr c
  | String c r => Cat (Chr c) (Lit r)
  end.

(** A position in the subject: the byte before it (none at offset 0),
    the text from it on, and the bytes consumed since the match began. *)
Record pos : Type := Pos { before : option ascii; rest : string; off : nat }.

Definition advance (c : ascii) (s : string) (p : pos) : pos :=
  Pos (Some c) s (S (off p)).

(** [\w] is [0-9A-Za-z_]. *)
Definition is_word (c : ascii) : bool :=
  strings.is_digit c || strings.is_upper c || strings.is_lower c || Ascii.eqb c "_".

Definition word_before (p : pos) : bool :=
  match before p with Some c => is_word c | None => false end.

Definition word_after (p : pos) : bool :=
  match rest p with String c _ => is_word c | EmptyString => false end.

Definition step_if (f : ascii -> bool) (k : pos -> option nat) (p : pos) : option nat :=
  match rest p with
  | String c s => if f c then k (advance c s p) else None
  | EmptyString => None
  end.

(** Greedy iteration; an iteration that consumes nothing is refused. *)
Fixpoint star (body : (pos -> option nat) -> pos -> option nat)
    (k : pos -> option nat) (fuel : nat) (p : pos) : option nat :=
  match fuel with
  | O => k p
  | S n =>
      match body (fun p' => if (off p <? off p')%nat then star body k n p' else None) p with
      | Some x => Some x
      | None => k p
      end
  end.

Fixpoint run (r : re) (k : pos -> option nat) (p : pos) : option nat :=
  match r with
  | Eps => k p
  | Chr c => step_if (Ascii.eqb c) k p
  | Class f => step_if f k p
  | Cat r1 r2 => run r1 (run r2 k) p
  | Alt r1 r2 =>
      match run r1 k p with
      | Some x => Some x
      | None => run r2 k p
      end
  | Star r1 => star (run r1) k (S (String.length (rest p))) p
  | BeginText => match before p with None => k p | Some _ => None end
  | WordBoundary => if xorb (word_before p) (word_after p) then k p else None
  end.

(** Length of the preferred match that starts exactly here. *)
Definition match_here (r : re) (prev : option ascii) (s : string) : option nat :=
  run r (fun p => Some (off p)) (Pos prev s 0).

(** The scan of [Regexp.replaceAll]: matches are taken left to right and
    do not overlap.  [skip] counts the bytes of the current match still
    to be passed over; [fresh] is false exactly when a match has just
    ended at this offset, where Go does not replace an empty match. *)
Fixpoint replace_go (r : re) (repl : string -> string)
    (skip : nat) (fresh : bool) (prev : option ascii) (s : string) : string :=
  match s with
  | EmptyString =>
      match skip, match_here r prev EmptyString with
      | O, Some _ => if fresh then repl EmptyString else EmptyString
      | _, _ => EmptyString
      end
  | String c s' =>
      match skip with
      | S (S k) => replace_go r repl (S k) true (Some c) s'
      | S O => replace_go r repl 0 false (Some c) s'
      | O =>
          match match_here r prev s with
          | Some (S (S n)) => repl (strings.take (S (S n)) s) +:+ replace_go r repl (S n) true (Some c) s'
          | Some (S O) => repl (strings.take 1 s) +:+ replace_go r repl 0 false (Some c) s'
          | Some O =>
              (if fresh then repl EmptyString else EmptyString)
                +:+ String c (replace_go r repl 0 true (Some c) s')
          | None => String c (replace_go r repl 0 true (Some c) s')
          end
      end
  end.

Definition ReplaceAllStringFunc (r : re) (src : string) (repl : string -> string) : string :=
  replace_go r repl 0 true None src.

(** [ReplaceAllString] with a replacement text free of [$]. *)
Definition ReplaceAllString (r : re) (src repl : string) : string :=
  ReplaceAllStringFunc r src (fun _ => repl).

(** [\s] is [\t\n\f\r ]. *)
Definition is_s (c : ascii) : bool :=
  match strings.byte_of c with
  | 9%N | 10%N | 12%N | 13%N | 32%N => true
  | _ => false
  end.

End regexp.

(** ** [crypto/md5] *)
Module md5.

Definition mask32 : Z := 0xFFFFFFFF.
Definition add32 (a b : Z) : Z := Z.land (a + b) mask32.
Definition not32 (a : Z) : Z := Z.lxor a mask32.
Definition rotl32 (x c : Z) : Z :=
  Z.lor (Z.land (Z.shiftl x c) mask32) (Z.shiftr x (32 - c)).

Definition K : list Z :=
  [ 0xd76aa478; 0xe8c7b756; 0x242070db; 0xc1bdceee; 0xf57c0faf; 0x4787c62a; 0xa8304613; 0xfd469501;
    0x698098d8; 0x8b44f7af; 0xffff5bb1; 0x895cd7be; 0x6b901122; 0xfd987193; 0xa679438e; 0x49b40821;
    0xf61e2562; 0xc040b340; 0x265e5a51; 0xe9b6c7aa; 0xd62f105d; 0x02441453; 0xd8a1e681; 0xe7d3fbc8;
    0x21e1cde6; 0xc33707d6; 0xf4d50d87; 0x455a14ed; 0xa9e3e905; 0xfcefa3f8; 0x676f02d9; 0x8d2a4c8a;
    0xfffa3942; 0x8771f681; 0x6d9d6122; 0xfde5380c; 0xa4beea44; 0x4bdecfa9; 0xf6bb4b60; 0xbebfbc70;
    0x289b7ec6; 0xeaa127fa; 0xd4ef3085; 0x04881d05; 0xd9d4d039; 0xe6db99e5; 0x1fa27cf8; 0xc4ac5665;
    0xf4292244; 0x432aff97; 0xab9423a7; 0xfc93a039; 0x655b59c3; 0x8f0ccc92; 0xffeff47d; 0x85845dd1;
    0x6fa87e4f; 0xfe2ce6e0; 0xa3014314; 0x4e0811a1; 0xf7537e82; 0xbd3af235; 0x2ad7d2bb; 0xeb86d391 ].

Definition shifts : list Z :=
  [ 7; 12; 17; 22; 7; 12; 17; 22; 7; 12; 17; 22; 7; 12; 17; 22;
    5; 9; 14; 20; 5; 9; 14; 20; 5; 9; 14; 20; 5; 9; 14; 20;
    4; 11; 16; 23; 4; 11; 16; 23; 4; 11; 16; 23; 4; 11; 16; 23;
    6; 10; 15; 21; 6; 10; 15; 21; 6; 10; 15; 21; 6; 10; 15; 21 ].

Definition state : Type := Z * Z * Z * Z.

Definition step (M : list Z) (st : state) (i : nat) : state :=
  let '(a, b, c, d) := st in
  let '(f, g) :=
    if (i <? 16)%nat then (Z.lor (Z.land b c) (Z.land (not32 b) d), i)
    else if (i <? 32)%nat then (Z.lor (Z.land d b) (Z.land (not32 d) c), (5 * i + 1) mod 16)%nat
    else if (i <? 48)%nat then (Z.lxor b (Z.lxor c d), (3 * i + 5) mod 16)%nat
    else (Z.lxor c (Z.lor b (not32 d)), (7 * i) mod 16)%nat in
  let f' := add32 (add32 (add32 f a) (nth i K 0)) (nth g M 0) in
  (d, add32 b (rotl32 f' (nth i shifts 0)), b, c).

Definition block (st : state) (M : list Z) : state :=
  let '(a0, b0, c0, d0) := st in
  let '(a, b, c, d) := fold_left (step M) (seq 0 64) st in
  (add32 a0 a, add32 b0 b, add32 c0 c, add32 d0 d).

(** Little-endian bytes of a word, and back. *)
Fixpoint le_bytes (n : nat) (x : Z) : list Z :=
  match n with
  | O => []
  | S k => Z.land x 0xFF :: le_bytes k (Z.shiftr x 8)
  end.

Fixpoint le_word (bs : list Z) : Z :=
  match bs with
  | [] => 0
  | b :: r => Z.lor b (Z.shiftl (le_word r) 8)
  end.

Definition pad (msg : list Z) : list Z :=
  let len := length msg in
  let zeros := ((55 + 64 - len mod 64) mod 64)%nat in
  msg ++ [0x80] ++ repeat 0 zeros ++ le_bytes 8 (8 * Z.of_nat len).

Fixpoint words (n : nat) (bs : list Z) : list Z :=
  match n with
  | O => []
  | S k => le_word (firstn 4 bs) :: words k (skipn 4 bs)
  end.

Fixpoint blocks (n : nat) (bs : list Z) : list (list Z) :=
  match n with
  | O => []
  | S k => words 16 (firstn 64 bs) :: blocks k (skipn 64 bs)
  end.

Definition init : state := (0x67452301, 0xefcdab89, 0x98badcfe, 0x10325476).

(** [md5.Sum]: the 16 digest bytes. *)
Definition Sum (msg : list Z) : list Z :=
  let p := pad msg in
  let '(a, b, c, d) := fold_left block (blocks (length p / 64) p) init in
  le_bytes 4 a ++ le_bytes 4 b ++ le_bytes 4 c ++ le_bytes 4 d.

Definition bytes_of_string (s : string) : list Z :=
  map (fun c => Z.of_N (N_of_ascii c)) (list_ascii_of_string s).

Definition hex_digit (x : Z) : ascii :=
  if x <? 10 then ascii_of_N (Z.to_N (48 + x)) else ascii_of_N (Z.to_N (87 + x)).

(** [fmt.Sprintf("%x", bytes)]. *)
Fixpoint hex (bs : list Z) : string :=
  match bs with
  | [] => EmptyString
  | b :: r => String (hex_digit (Z.shiftr b 4)) (String (hex_digit (Z.land b 0xF)) (hex r))
  end.

Definition SumHex (s : string) : string := hex (Sum (bytes_of_string s)).

End md5.

(** ** [fmt] verbs and [encoding/base64] *)
Module fmt.

Fixpoint digits (fuel : nat) (n : N) (acc : string) : string :=
  match fuel with
  | O => acc
  | S k =>
      let acc' := String (ascii_of_N (48 + n mod 10)) acc in
      if (n <? 10)%N then acc' else digits k (n / 10)%N acc'
  end.

(** [%d] of a non-negative number. *)
Definition utoa (n : N) : string := digits (S (N.to_nat (N.log2 n))) n EmptyString.

(** [%d]. *)
Definition itoa (z : Z) : string :=
  if z <? 0 then String "-" (utoa (Z.to_N (- z))) else utoa (Z.to_N z).

(** Decimal of [0 <= z], left-padded with zeros to [width]. *)
Definition pad0 (width : nat) (z : Z) : string :=
  let s := utoa (Z.to_N z) in
  string_of_list_ascii (repeat "0"%char (width - String.length s)) +:+ s.

End fmt.

Module base64.

Definition alphabet : string :=
  "ABCDEFGHIJKLMNOPQRSTUVWXYZabcdefghijklmnopqrstuvwxyz0123456789+/".

Definition enc (x : Z) : ascii :=
  match String.get (Z.to_nat (Z.land x 63)) alphabet with
  | Some c => c
  | None => "="%char
  end.

(** [StdEncoding.EncodeToString]: three bytes to four symbols, padded
    with [=]. *)
Fixpoint encode (fuel : nat) (bs : list Z) : string :=
  match fuel with
  | O => EmptyString
  | S k =>
      match bs with
      | [] => EmptyString
      | [a] =>
          String (enc (Z.shiftr a 2)) (String (enc (Z.shiftl a 4)) "==")
      | [a; b] =>
          String (enc (Z.shiftr a 2))
            (String (enc (Z.lor (Z.shiftl a 4) (Z.shiftr b 4)))
               (String (enc (Z.shiftl b 2)) "="))
      | a :: b :: c :: r =>
          String (enc (Z.shiftr a 2))
            (String (enc (Z.lor (Z.shiftl a 4) (Z.shiftr b 4)))
               (String (enc (Z.lor (Z.shiftl b 2) (Z.shiftr c 6)))
                  (String (enc c) (encode k r))))
      end
  end.

Definition EncodeToString (s : string) : string :=
  encode (S (String.length s)) (md5.bytes_of_string s).

End base64.

(** ** Package [time]

  A [Time] is an instant, counted in nanoseconds from the Unix epoch,
  together with the zone it is displayed in.  Zones are fixed offsets
  (seconds east of UTC), which is what [time.Parse] records for a
  numeric zone when the process runs with a UTC local zone.  The years
  the parser can produce (0 to 9999) and a shift of a few decades stay
  far inside the range of Go's 64-bit second counter, so instants are
  unbounded integers here; a [Duration] is a 64-bit nanosecond count and
  [Sub] saturates as in Go. *)
Module time.

Record Time : Type := mkTime { unixNano : Z; zone : Z }.

Definition Duration : Type := Z.

Definition Second : Z := 1000000000.
Definition minDuration : Z := - 2 ^ 63.
Definition maxDuration : Z := 2 ^ 63 - 1.

Definition Add (t : Time) (d : Duration) : Time :=
  mkTime (unixNano t + d) (zone t).

Definition Before (t u : Time) : bool := unixNano t <? unixNano u.

Definition Sub (t u : Time) : Duration :=
  let d := unixNano t - unixNano u in
  if d <? minDuration then minDuration
  else if maxDuration <? d then maxDuration
  else d.

Definition Unix (t : Time) : Z := unixNano t / Second.
Definition UnixMilli (t : Time) : Z := unixNano t / 1000000.

(** Days since 1970-01-01 to a civil date and back (proleptic
    Gregorian calendar). *)
Definition civil_of_days (z0 : Z) : Z * Z * Z :=
  let z := z0 + 719468 in
  let era := z / 146097 in
  let doe := z - era * 146097 in
  let yoe := (doe - doe / 1460 + doe / 36524 - doe / 146096) / 365 in
  let doy := doe - (365 * yoe + yoe / 4 - yoe / 100) in
  let mp := (5 * doy + 2) / 153 in
  let d := doy - (153 * mp + 2) / 5 + 1 in
  let m := if mp <? 10 then mp + 3 else mp - 9 in
  let y := yoe + era * 400 + (if m <=? 2 then 1 else 0) in
  (y, m, d).

Definition days_of_civil (y0 m d : Z) : Z :=
  let y := if m <=? 2 then y0 - 1 else y0 in
  let era := y / 400 in
  let yoe := y - era * 400 in
  let doy := (153 * (if 2 <? m then m - 3 else m + 9) + 2) / 5 + d - 1 in
  let doe := yoe * 365 + yoe / 4 - yoe / 100 + doy in
  era * 146097 + doe - 719468.

(** Seconds on the wall clock of the time's own zone. *)
Definition local_seconds (t : Time) : Z := Unix t + zone t.

(** [Date(y, m, d, 0, 0, 0, 0, UTC)]. *)
Definition DateUTC (y m d : Z) : Time :=
  mkTime (days_of_civil y m d * 86400 * Second) 0.

(** [t.AddDate(years, 0, 0)]: same wall clock, [years] later, the day
    normalised by the calendar. *)
Definition AddYears (t : Time) (years : Z) : Time :=
  let ls := local_seconds t in
  let '(y, m, d) := civil_of_days (ls / 86400) in
  let secs := days_of_civil (y + years) m d * 86400 + ls mod 86400 - zone t in
  mkTime (secs * Second + unixNano t mod Second) (zone t).

Definition weekdays : list string := ["Sun"; "Mon"; "Tue"; "Wed"; "Thu"; "Fri"; "Sat"].
Definition months : list string :=
  ["Jan"; "Feb"; "Mar"; "Apr"; "May"; "Jun"; "Jul"; "Aug"; "Sep"; "Oct"; "Nov"; "Dec"].

(** The layouts named in the source. *)
Definition RFC1123 : string := "Mon, 02 Jan 2006 15:04:05 MST".
Definition RFC1123Z : string := "Mon, 02 Jan 2006 15:04:05 -0700".

(** [t.Format(time.RFC1123Z)], for years 0 to 9999. *)
Definition FormatRFC1123Z (t : Time) : string :=
  let ls := local_seconds t in
  let days := ls / 86400 in
  let sod := ls mod 86400 in
  let '(y, m, d) := civil_of_days days in
  let zmin := Z.quot (zone t) 60 in
  nth (Z.to_nat ((days + 4) mod 7)) weekdays EmptyString +:+ ", " +:+
  fmt.pad0 2 d +:+ " " +:+
  nth (Z.to_nat (m - 1)) months EmptyString +:+ " " +:+
  fmt.pad0 4 y +:+ " " +:+
  fmt.pad0 2 (sod / 3600) +:+ ":" +:+
  fmt.pad0 2 (sod mod 3600 / 60) +:+ ":" +:+
  fmt.pad0 2 (sod mod 60) +:+ " " +:+
  (if zmin <? 0 then "-" else "+") +:+
  fmt.pad0 2 (Z.abs zmin / 60) +:+ fmt.pad0 2 (Z.abs zmin mod 60).

End time.

(** ** Package [sort]

  [sort.Slice] and [sort.Strings] run an insertion sort on slices of at
  most twelve elements: element [i] moves left while it is [less] than
  its left neighbour.  Longer slices are sorted by a pattern-defeating
  quicksort, which may order elements that compare equal differently. *)
Module sort.

Section Insertion.
Context {A : Type} (less : A -> A -> bool).

  (** [sorted] holds the prefix already in order, last element first. *)
Fixpoint insert (x : A) (sorted : list A) : list A :=
    match sorted with
    | [] => [x]
    | y :: r => if less x y then y :: insert x r else x :: sorted
    end.

Definition Slice (data : list A) : list A :=
    rev (fold_left (fun sorted x => insert x sorted) data []).
End Insertion.

Definition Strings (data : list string) : list string := Slice String.ltb data.

End sort.

(** ** The data model of [enron_transformer.go] *)

Module EnronEmail.
Record t : Type := mk {
    MessageID : string;
    Date : time.Time;
    From : string;
    To : list string;
    CC : list string;
    BCC : list string;
    Subject : string;
    Body : string;
    XFrom : string;
    XTo : string;
    XCC : string;
    XBCC : string;
    XFolder : string;
    XOrigin : string;
    XFileName : string;
    FilePath : string;
    UserFolder : string
  }.
End EnronEmail.

Module Header.
Record t : Type := mk { Name : string; Value : string }.
End Header.

Module MessageBody.
Record t : Type := mk { Size : nat; Data : string }.
End MessageBody.

(** The source builds single-part messages only: [Parts] stays empty and
    [Body] is always set. *)
Module MessagePart.
Record t : Type := mk {
    PartId : string;
    MimeType : string;
    Filename : string;
    Headers : list Header.t;
    Body : MessageBody.t
  }.
End MessagePart.

Module GmailMessage.
Record t : Type := mk {
    Id : string;
    ThreadId : string;
    LabelIds : list string;
    Snippet : string;
    HistoryId : string;
    InternalDate : string;
    SizeEstimate : nat;
    Payload : MessagePart.t
  }.
End GmailMessage.

(** [FirstContact] is never written by the source and is left out. *)
Module TestPersona.
Record t : Type := mk {
    Name : string;
    Email : string;
    Role : string;
    Company : string
  }.
End TestPersona.

Module TransformStats.
Record t : Type := mk {
    TotalProcessed : nat;
    TotalTransformed : nat;
    Errors : list string;
    PersonaMap : gmap string TestPersona.t;
    ThreadCount : nat
  }.
End TransformStats.

Module contact.
Record t : Type := mk { email : string; count : nat }.
End contact.

Module GmailTransformer.
Record t : Type := mk {
    baseDate : time.Time;
    timeShift : time.Duration;
    threadCache : gmap string string;
    personaMap : gmap string TestPersona.t;
    messageIDMap : gmap string string;
    userEmail : string;
    enronUserName : string;
    stats : TransformStats.t
  }.

Definition set_threadCache (c : gmap string string) (g : t) : t :=
    mk (baseDate g) (timeShift g) c (personaMap g) (messageIDMap g)
       (userEmail g) (enronUserName g) (stats g).

Definition set_personaMap (m : gmap string TestPersona.t) (g : t) : t :=
    mk (baseDate g) (timeShift g) (threadCache g) m (messageIDMap g)
       (userEmail g) (enronUserName g) (stats g).

Definition set_messageIDMap (m : gmap string string) (g : t) : t :=
    mk (baseDate g) (timeShift g) (threadCache g) (personaMap g) m
       (userEmail g) (enronUserName g) (stats g).

Definition set_stats (s : TransformStats.t) (g : t) : t :=
    mk (baseDate g) (timeShift g) (threadCache g) (personaMap g) (messageIDMap g)
       (userEmail g) (enronUserName g) s.
End GmailTransformer.

Module MessageRef.
Record t : Type := mk { Id : string; ThreadId : string }.
End MessageRef.

Module ListMessagesResponse.
Record t : Type := mk {
    Messages : list MessageRef.t;
    NextPageToken : string;
    ResultSizeEstimate : nat
  }.
End ListMessagesResponse.

(** The untyped [metadata] map of [GenerateTestData], one field per key. *)
Module Metadata.
Record t : Type := mk {
    totalMessages : nat;
    dateRange_start : string;
    dateRange_end : string;
    labelDistribution : gmap string nat;
    threadCount : nat
  }.
End Metadata.

(** ** What the Go runtime decides

    The order in which [range] visits a map is not specified and changes
    from one execution to the next.  The source ranges over two maps: the
    frequency table in [buildPersonaMap] and the replacement table in
    [fixEncoding]. *)
Module runtime.

Record t : Type := mk {
    range_contactFreq : gmap string nat -> list (string * nat);
    range_replacements : string -> list (string * string)
  }.

  (** The map literal of [fixEncoding]. *)
Definition replacements : list (string * string) :=
    [ ("=20", " "); ("=09", String "009" EmptyString); ("=0A", String "010" EmptyString);
      ("=0D", String "013" EmptyString); ("=3D", "="); ("&amp;", "&");
      ("&lt;", "<"); ("&gt;", ">") ].

  (** A runtime visits every entry of the map exactly once. *)
Definition valid (rt : t) : Prop :=
    (forall m, range_contactFreq rt m ≡ₚ map_to_list m) /\
    (forall text, range_replacements rt text ≡ₚ replacements).

  (** Two admissible runtimes. *)
Definition forward : t := mk map_to_list (fun _ => replacements).
Definition backward : t := mk (fun m => rev (map_to_list m)) (fun _ => rev replacements).

End runtime.

(** ** The record parser's date fallback *)

Section ParseDate.

(** [time.Parse] and the wall clock are the environment's. *)
Variable time_Parse : string -> string -> option time.Time.
Variable time_Now : time.Time.

Definition formats : list string :=
  [ time.RFC1123Z;
    time.RFC1123;
    "Mon, 2 Jan 2006 15:04:05 -0700 (MST)";
    "Mon, 2 Jan 2006 15:04:05 -0700";
    "2 Jan 2006 15:04:05 -0700" ].

Fixpoint parseEnronDate_loop (fs : list string) (dateStr : string) : time.Time :=
  match fs with
  | [] => time_Now
  | format :: rest =>
      match time_Parse format dateStr with
      | Some t => t
      | None => parseEnronDate_loop rest dateStr
      end
  end.

Definition parseEnronDate (dateStr : string) : time.Time :=
  parseEnronDate_loop formats dateStr.

End ParseDate.

(** ** The transformer *)

Definition enronStart : time.Time := time.DateUTC 2000 1 1.

Definition NewGmailTransformer (time_Now : time.Time)
    (enronUserName testUserEmail : string) : GmailTransformer.t :=
  let baseDate := time.AddYears time_Now (-3) in
  GmailTransformer.mk baseDate (time.Sub baseDate enronStart) ∅ ∅ ∅
    testUserEmail enronUserName
    (TransformStats.mk 0 0 [] ∅ 0).

Definition extractEmail (address : string) : string :=
  let bracketed :=
    match strings.Index address "<" with
    | Some idx =>
        match strings.Index (strings.drop idx address) ">" with
        | Some (S e) => Some (strings.ToLower (String.substring (S idx) e address))
        | _ => None
        end
    | None => None
    end in
  match bracketed with
  | Some a => a
  | None =>
      if strings.Contains address "@"
      then strings.ToLower (strings.TrimSpace address)
      else EmptyString
  end.

(** [strings.Split] never returns an empty slice, so the source's
    ["Unknown"] branch is dead and [parts[0]] is in range. *)
Definition generateNameFromEmail (email : string) : string :=
  let parts := strings.Split email "@" in
  let name := hd EmptyString parts in
  let name := strings.ReplaceAll name "." " " in
  let name := strings.ReplaceAll name "_" " " in
  let name := strings.ReplaceAll name "-" " " in
  strings.Title name.

(** [Split(email, "@")[1]] panics without an [@]; the only callers pass
    the four literals of [serviceEmails]. *)
Definition extractServiceName (email : string) : option string :=
  domain ← strings.Split email "@" !! 1%nat;
  name ← strings.Split domain "." !! 0%nat;
  Some (strings.Title name).

Definition generateGmailID (enronMessageID : string) : string :=
  strings.take 16 (md5.SumHex enronMessageID).

Definition generateThreadID (key : string) : string :=
  strings.take 16 (md5.SumHex ("thread:" +:+ key)).

(** *** Persona assignment *)

Definition personas : list TestPersona.t :=
  [ TestPersona.mk "Sarah Chen" "sarah.chen@gmail.com" "sister" EmptyString;
    TestPersona.mk "David Kumar" "david.kumar@techcorp.com" "manager" "TechCorp";
    TestPersona.mk "Alex Rivera" "alex.r@gmail.com" "best friend" EmptyString;
    TestPersona.mk "Lisa Thompson" "lisa.t@techcorp.com" "colleague" "TechCorp";
    TestPersona.mk "Mom" "mom.wilson@yahoo.com" "family" EmptyString;
    TestPersona.mk "Jamie Park" "jamiepark92@gmail.com" "friend" EmptyString;
    TestPersona.mk "Michael Chen" "m.chen@techcorp.com" "colleague" "TechCorp";
    TestPersona.mk "Emma Davis" "emma.davis@gmail.com" "friend" EmptyString;
    TestPersona.mk "Robert Johnson" "rjohnson@partnerco.com" "client" "PartnerCo";
    TestPersona.mk "Jessica Lee" "jlee@techcorp.com" "colleague" "TechCorp" ].

Definition serviceEmails : list string :=
  [ "notifications@github.com"; "no-reply@linkedin.com";
    "united@united.com"; "alerts@mint.com" ].

(** The loop over [contacts], [i] being the index of the head. *)
Fixpoint assignContacts (i : nat) (contacts : list contact.t)
    (pm : gmap string TestPersona.t) : gmap string TestPersona.t :=
  match contacts with
  | [] => pm
  | c :: rest =>
      let p :=
        match personas !! i with
        | None =>
            TestPersona.mk (generateNameFromEmail (contact.email c))
              ("contact" +:+ fmt.utoa (N.of_nat i) +:+ "@example.com")
              "acquaintance" EmptyString
        | Some p => p
        end in
      assignContacts (S i) rest (<[contact.email c := p]> pm)
  end.

Definition assignService (pm : gmap string TestPersona.t) (email : string)
    : gmap string TestPersona.t :=
  <[email := TestPersona.mk (default EmptyString (extractServiceName email)) email "service" EmptyString]> pm.

Definition assignPersonas (contacts : list contact.t) (g : GmailTransformer.t)
    : GmailTransformer.t :=
  let pm := assignContacts 0 contacts (GmailTransformer.personaMap g) in
  GmailTransformer.set_personaMap (fold_left assignService serviceEmails pm) g.

(** [contactFreq[k]++]. *)
Definition incr (freq : gmap string nat) (k : string) : gmap string nat :=
  <[k := S (default 0%nat (freq !! k))]> freq.

(** The guarded increment applied to the sender and to each [To] entry. *)
Definition countAddress (g : GmailTransformer.t) (freq : gmap string nat)
    (address : string) : gmap string nat :=
  let addr := extractEmail address in
  if negb (String.eqb addr EmptyString)
     && negb (strings.Contains addr (GmailTransformer.enronUserName g))
  then incr freq addr
  else freq.

Definition countEmail (g : GmailTransformer.t) (freq : gmap string nat)
    (email : EnronEmail.t) : gmap string nat :=
  fold_left (countAddress g) (EnronEmail.To email)
    (countAddress g freq (EnronEmail.From email)).

Definition contactFreq (g : GmailTransformer.t) (emails : list EnronEmail.t)
    : gmap string nat :=
  fold_left (countEmail g) emails ∅.

Definition byCountDesc (a b : contact.t) : bool :=
  (contact.count b <? contact.count a)%nat.

Definition buildPersonaMap (rt : runtime.t) (emails : list EnronEmail.t)
    (g : GmailTransformer.t) : GmailTransformer.t :=
  let freq := contactFreq g emails in
  let contacts :=
    map (fun kv => contact.mk kv.1 kv.2) (runtime.range_contactFreq rt freq) in
  assignPersonas (sort.Slice byCountDesc contacts) g.

(** *** Addresses and headers *)

Definition transformEmailAddress (g : GmailTransformer.t) (enronEmail : string) : string :=
  let cleaned := extractEmail enronEmail in
  if strings.Contains cleaned (GmailTransformer.enronUserName g)
  then "You" +:+ " <" +:+ GmailTransformer.userEmail g +:+ ">"
  else
    match GmailTransformer.personaMap g !! cleaned with
    | Some persona =>
        TestPersona.Name persona +:+ " <" +:+ TestPersona.Email persona +:+ ">"
    | None =>
        let name := generateNameFromEmail cleaned in
        let domain :=
          if strings.Contains cleaned "@"
          then
            (* parts[1] exists, since cleaned holds an [@] *)
            let part1 := nth 1 (strings.Split cleaned "@") EmptyString in
            if String.eqb part1 "enron.com" then "example.com" else part1
          else "example.com" in
        name +:+ " <" +:+ strings.ToLower name +:+ "@" +:+ domain +:+ ">"
    end.

Definition transformEmailList (g : GmailTransformer.t) (emails : list string) : string :=
  strings.Join (map (transformEmailAddress g) emails) ", ".

(** [enron.Date.Add(t.timeShift)], computed once for the headers and once
    for the message. *)
Definition shiftedDate (g : GmailTransformer.t) (enron : EnronEmail.t) : time.Time :=
  time.Add (EnronEmail.Date enron) (GmailTransformer.timeShift g).

Definition transformHeaders (g : GmailTransformer.t) (enron : EnronEmail.t) : list Header.t :=
  let headers := [Header.mk "From" (transformEmailAddress g (EnronEmail.From enron))] in
  let headers :=
    if (0 <? length (EnronEmail.To enron))%nat
    then headers ++ [Header.mk "To" (transformEmailList g (EnronEmail.To enron))]
    else headers in
  let headers :=
    if (0 <? length (EnronEmail.CC enron))%nat
    then headers ++ [Header.mk "Cc" (transformEmailList g (EnronEmail.CC enron))]
    else headers in
  headers ++
    [ Header.mk "Subject" (EnronEmail.Subject enron);
      Header.mk "Date" (time.FormatRFC1123Z (shiftedDate g enron));
      Header.mk "Message-ID"
        ("<" +:+ generateGmailID (EnronEmail.MessageID enron) +:+ "@mail.gmail.com>") ].

(** *** Threads *)

(** [^(Re:|RE:|Fwd:|FW:|Fw:)\s*] *)
Definition prefixes : regexp.re :=
  regexp.Cat regexp.BeginText
    (regexp.Cat
       (regexp.Alt (regexp.Lit "Re:")
          (regexp.Alt (regexp.Lit "RE:")
             (regexp.Alt (regexp.Lit "Fwd:")
                (regexp.Alt (regexp.Lit "FW:") (regexp.Lit "Fw:")))))
       (regexp.Star (regexp.Class regexp.is_s))).

Definition cleanSubjectForThreading (subject : string) : string :=
  let cleaned := regexp.ReplaceAllString prefixes subject EmptyString in
  let cleaned := strings.TrimSpace cleaned in
  strings.ToLower cleaned.

Definition threadKey (enron : EnronEmail.t) : string :=
  let subject := cleanSubjectForThreading (EnronEmail.Subject enron) in
  let participants := sort.Strings (EnronEmail.From enron :: EnronEmail.To enron) in
  let participants :=
    if (3 <? length participants)%nat then firstn 3 participants else participants in
  subject +:+ "|" +:+ strings.Join participants ",".

Definition getOrCreateThreadID (g : GmailTransformer.t) (enron : EnronEmail.t)
    : GmailTransformer.t * string :=
  let key := threadKey enron in
  match GmailTransformer.threadCache g !! key with
  | Some threadID => (g, threadID)
  | None =>
      let threadID := generateThreadID key in
      (GmailTransformer.set_threadCache (<[key := threadID]> (GmailTransformer.threadCache g)) g,
       threadID)
  end.

(** *** Labels *)

Definition contains_any (text : string) (patterns : list string) : bool :=
  existsb (strings.Contains text) patterns.

Definition importantPatterns : list string :=
  [ "urgent"; "asap"; "important"; "critical"; "action required"; "deadline";
    "immediate"; "confidential"; "board meeting"; "executive" ].

Definition isImportant (enron : EnronEmail.t) : bool :=
  let subject := strings.ToLower (EnronEmail.Subject enron) in
  let body := strings.ToLower (EnronEmail.Body enron) in
  let head := strings.take (Nat.min 200 (String.length body)) body in
  existsb (fun pattern => strings.Contains subject pattern || strings.Contains head pattern)
    importantPatterns
  || strings.Contains (EnronEmail.From enron) "gibner"
  || strings.Contains (EnronEmail.From enron) "buy"
  || strings.Contains (EnronEmail.From enron) "lay".

Definition isPromotional (enron : EnronEmail.t) : bool :=
  contains_any
    (strings.ToLower (EnronEmail.Subject enron +:+ " " +:+ EnronEmail.Body enron))
    [ "unsubscribe"; "click here"; "special offer"; "deal"; "discount"; "sale";
      "free shipping"; "act now"; "limited time" ].

Definition isAutomated (enron : EnronEmail.t) : bool :=
  contains_any (strings.ToLower (EnronEmail.From enron))
    [ "no-reply"; "noreply"; "donotreply"; "notification"; "alert"; "system";
      "automated"; "mailman"; "listserv" ].

Definition inferLabels (g : GmailTransformer.t) (enron : EnronEmail.t) : list string :=
  let labels := ["UNREAD"] in
  let labels :=
    labels ++
      [if strings.Contains (EnronEmail.From enron) (GmailTransformer.enronUserName g)
       then "SENT" else "INBOX"] in
  let folder := strings.ToLower (EnronEmail.UserFolder enron) in
  let labels :=
    if strings.Contains folder "trash" || strings.Contains folder "deleted"
    then labels ++ ["TRASH"]
    else if strings.Contains folder "personal" then labels ++ ["CATEGORY_PERSONAL"]
    else if strings.Contains folder "travel" then labels ++ ["Label_Travel"]
    else if strings.Contains folder "conferences" || strings.Contains folder "meetings"
    then labels ++ ["Label_Meetings"]
    else labels in
  let labels := if isImportant enron then labels ++ ["IMPORTANT"] else labels in
  if isPromotional enron then labels ++ ["CATEGORY_PROMOTIONS"]
  else if isAutomated enron then labels ++ ["CATEGORY_UPDATES"]
  else labels.

(** *** Snippet *)

(** [\s+] *)
Definition whitespace : regexp.re := regexp.Plus (regexp.Class regexp.is_s).

Definition newline : string := String "010" EmptyString.
Definition originalMessage : string := "-----Original Message-----".

(** The loop over [lines]; both [break]s leave with the snippet built so
    far. *)
Fixpoint snippetLoop (lines : list string) (snippet : string) : string :=
  match lines with
  | [] => snippet
  | line :: rest =>
      if strings.HasPrefix line ">" || strings.Contains line originalMessage
      then snippet
      else
        let snippet := snippet +:+ line +:+ " " in
        if (100 <? String.length snippet)%nat then snippet
        else snippetLoop rest snippet
  end.

Definition generateSnippet (body : string) : string :=
  let cleaned := strings.TrimSpace body in
  let cleaned := regexp.ReplaceAllString whitespace cleaned " " in
  let lines := strings.Split cleaned newline in
  let snippet := snippetLoop lines EmptyString in
  let snippet :=
    if (100 <? String.length snippet)%nat
    then strings.take 97 snippet +:+ "..."
    else snippet in
  strings.TrimSpace snippet.

(** *** Body *)

Definition fixEncoding (rt : runtime.t) (text : string) : string :=
  fold_left (fun text kv => strings.ReplaceAll text kv.1 kv.2)
    (runtime.range_replacements rt text) text.

Definition alnum (c : ascii) : bool :=
  strings.is_upper c || strings.is_lower c || strings.is_digit c.

Definition one_of (cs : string) (c : ascii) : bool :=
  existsb (Ascii.eqb c) (list_ascii_of_string cs).

(** [\b[A-Za-z0-9._%+-]+@[A-Za-z0-9.-]+\.[A-Z|a-z]{2,}\b] *)
Definition emailRegex : regexp.re :=
  regexp.Cat regexp.WordBoundary
    (regexp.Cat (regexp.Plus (regexp.Class (fun c => alnum c || one_of "._%+-" c)))
       (regexp.Cat (regexp.Chr "@")
          (regexp.Cat (regexp.Plus (regexp.Class (fun c => alnum c || one_of ".-" c)))
             (regexp.Cat (regexp.Chr ".")
                (regexp.Cat
                   (regexp.AtLeast2
                      (regexp.Class (fun c => strings.is_upper c || one_of "|" c || strings.is_lower c)))
                   regexp.WordBoundary))))).

(** The function literal handed to [ReplaceAllStringFunc]. *)
Definition replaceAddress (g : GmailTransformer.t) (email : string) : string :=
  let cleaned := strings.ToLower email in
  if strings.Contains cleaned (GmailTransformer.enronUserName g)
  then GmailTransformer.userEmail g
  else
    match GmailTransformer.personaMap g !! cleaned with
    | Some persona => TestPersona.Email persona
    | None => email
    end.

Definition transformBody (rt : runtime.t) (g : GmailTransformer.t) (body : string) : string :=
  let body := fixEncoding rt body in
  let body := regexp.ReplaceAllStringFunc emailRegex body (replaceAddress g) in
  let body := strings.ReplaceAll body "Enron" "TechCorp" in
  strings.ReplaceAll body "ENRON" "TECHCORP".

(** *** One record, then the data set *)

(** The [error] result of the source is [nil] on every path, so only the
    message is returned here and the error branch of [TransformDataset]
    is dead. *)
Definition transformEmail (rt : runtime.t) (g : GmailTransformer.t) (enron : EnronEmail.t)
    : GmailTransformer.t * GmailMessage.t :=
  let gmailID := generateGmailID (EnronEmail.MessageID enron) in
  let g :=
    GmailTransformer.set_messageIDMap
      (<[EnronEmail.MessageID enron := gmailID]> (GmailTransformer.messageIDMap g)) g in
  let headers := transformHeaders g enron in
  let '(g, threadID) := getOrCreateThreadID g enron in
  let body := transformBody rt g (EnronEmail.Body enron) in
  let payload :=
    MessagePart.mk EmptyString "text/plain" EmptyString headers
      (MessageBody.mk (String.length body) (base64.EncodeToString body)) in
  let labels := inferLabels g enron in
  let shifted := shiftedDate g enron in
  (g,
   GmailMessage.mk gmailID threadID labels (generateSnippet body)
     (fmt.itoa (time.Unix shifted)) (fmt.itoa (time.UnixMilli shifted))
     (String.length (EnronEmail.Body enron) + 512) payload).

Definition byDate (a b : EnronEmail.t) : bool :=
  time.Before (EnronEmail.Date a) (EnronEmail.Date b).

Definition count_processed (g : GmailTransformer.t) : GmailTransformer.t :=
  let s := GmailTransformer.stats g in
  GmailTransformer.set_stats
    (TransformStats.mk (S (TransformStats.TotalProcessed s)) (TransformStats.TotalTransformed s)
       (TransformStats.Errors s) (TransformStats.PersonaMap s) (TransformStats.ThreadCount s)) g.

Definition count_transformed (g : GmailTransformer.t) : GmailTransformer.t :=
  let s := GmailTransformer.stats g in
  GmailTransformer.set_stats
    (TransformStats.mk (TransformStats.TotalProcessed s) (S (TransformStats.TotalTransformed s))
       (TransformStats.Errors s) (TransformStats.PersonaMap s) (TransformStats.ThreadCount s)) g.

Definition transformStep (rt : runtime.t)
    (acc : GmailTransformer.t * list GmailMessage.t) (enron : EnronEmail.t)
    : GmailTransformer.t * list GmailMessage.t :=
  let '(g, gmail) := transformEmail rt (count_processed acc.1) enron in
  (count_transformed g, acc.2 ++ [gmail]).

Definition finish_stats (g : GmailTransformer.t) : GmailTransformer.t :=
  let s := GmailTransformer.stats g in
  GmailTransformer.set_stats
    (TransformStats.mk (TransformStats.TotalProcessed s) (TransformStats.TotalTransformed s)
       (TransformStats.Errors s) (GmailTransformer.personaMap g)
       (size (GmailTransformer.threadCache g))) g.

Definition TransformDataset (rt : runtime.t) (g : GmailTransformer.t)
    (emails : list EnronEmail.t) : GmailTransformer.t * list GmailMessage.t :=
  let emails := sort.Slice byDate emails in
  let g := buildPersonaMap rt emails g in
  let '(g, gmailMessages) := fold_left (transformStep rt) emails (g, []) in
  (finish_stats g, gmailMessages).

(** ** The serializer *)

Definition getLabelDistribution (messages : list GmailMessage.t) : gmap string nat :=
  fold_left (fun dist msg => fold_left incr (GmailMessage.LabelIds msg) dist) messages ∅.

Definition getThreadCount (messages : list GmailMessage.t) : nat :=
  size (fold_left (fun (threads : gmap string bool) msg =>
                     <[GmailMessage.ThreadId msg := true]> threads) messages ∅).

(** [messages[i].Payload.Headers[4].Value]; [None] is the run-time panic
    of an index out of range. *)
Definition header4 (messages : list GmailMessage.t) (i : nat) : option string :=
  msg ← messages !! i;
  h ← MessagePart.Headers (GmailMessage.Payload msg) !! 4%nat;
  Some (Header.Value h).

Definition testMetadata (messages : list GmailMessage.t) : option Metadata.t :=
  start ← header4 messages 0;
  end_ ← header4 messages (length messages - 1);
  Some (Metadata.mk (length messages) start end_
          (getLabelDistribution messages) (getThreadCount messages)).

Definition listResponse (messages : list GmailMessage.t) : ListMessagesResponse.t :=
  ListMessagesResponse.mk
    (map (fun msg => MessageRef.mk (GmailMessage.Id msg) (GmailMessage.ThreadId msg)) messages)
    EmptyString (length messages).

(** The file system answers each call with success or failure.  The
    artifacts are kept as values; their JSON text is not modelled
    ([json.MarshalIndent] cannot fail on these types). *)
Module os.
Record t : Type := mk { MkdirAll : string -> bool; WriteFile : string -> bool }.
End os.

Inductive artifact : Type :=
| MessagesFile (messages : list GmailMessage.t)
| ListFile (response : ListMessagesResponse.t)
| MetadataFile (metadata : Metadata.t).

(** How a call of [GenerateTestData] ends, with the files written by then. *)
Inductive outcome : Type :=
| Returned (err : option string) (written : list (string * artifact))
| Panicked (written : list (string * artifact)).

Definition GenerateTestData (fs : os.t) (messages : list GmailMessage.t)
    (outputDir : string) : outcome :=
  if negb (os.MkdirAll fs outputDir) then Returned (Some "create output dir") []
  else if negb (os.WriteFile fs "gmail_messages.json")
  then Returned (Some "write messages") []
  else
    let written := [("gmail_messages.json", MessagesFile messages)] in
    if negb (os.WriteFile fs "list_messages_response.json")
    then Returned (Some "write list response") written
    else
      let written :=
        written ++ [("list_messages_response.json", ListFile (listResponse messages))] in
      match testMetadata messages with
      | None => Panicked written
      | Some metadata =>
          if negb (os.WriteFile fs "test_metadata.json")
          then Returned (Some "write metadata") written
          else Returned None (written ++ [("test_metadata.json", MetadataFile metadata)])
      end.

(** ** Predicates used in the statements *)

(** The parts of the transformer that no step of a run writes after the persona map is built. *)
Definition same_config (g g' : GmailTransformer.t) : Prop :=
  GmailTransformer.timeShift g' = GmailTransformer.timeShift g /\
  GmailTransformer.personaMap g' = GmailTransformer.personaMap g /\
  GmailTransformer.userEmail g' = GmailTransformer.userEmail g /\
  GmailTransformer.enronUserName g' = GmailTransformer.enronUserName g.

Definition cache_ok (g : GmailTransformer.t) : Prop :=
  forall k v, GmailTransformer.threadCache g !! k = Some v -> v = generateThreadID k.

(** What one record becomes, as a function of the record and of the
    configuration alone: the message [transformEmail] returns when the
    thread cache is consistent. *)
Definition message_of (rt : runtime.t) (g : GmailTransformer.t) (enron : EnronEmail.t)
    : GmailMessage.t :=
  let body := transformBody rt g (EnronEmail.Body enron) in
  let shifted := shiftedDate g enron in
  GmailMessage.mk (generateGmailID (EnronEmail.MessageID enron))
    (generateThreadID (threadKey enron)) (inferLabels g enron) (generateSnippet body)
    (fmt.itoa (time.Unix shifted)) (fmt.itoa (time.UnixMilli shifted))
    (String.length (EnronEmail.Body enron) + 512)
    (MessagePart.mk EmptyString "text/plain" EmptyString (transformHeaders g enron)
       (MessageBody.mk (String.length body) (base64.EncodeToString body))).

Definition short_headers (m : GmailMessage.t) : Prop :=
  (length (MessagePart.Headers (GmailMessage.Payload m)) < 5)%nat.

Definition io_succeeds (fs : os.t) (outputDir : string) : Prop :=
  os.MkdirAll fs outputDir = true /\
  os.WriteFile fs "gmail_messages.json" = true /\
  os.WriteFile fs "list_messages_response.json" = true.

(** ** The run of [main], and the inputs of the examples *)

(** [main] hands the loaded records to a fresh transformer whose owner
    fragment is the user folder's name up to its first dash. *)
Definition main_transform (rt : runtime.t) (time_Now : time.Time)
    (user testEmail : string) (emails : list EnronEmail.t)
    : GmailTransformer.t * list GmailMessage.t :=
  TransformDataset rt
    (NewGmailTransformer time_Now (hd EmptyString (strings.Split user "-")) testEmail)
    emails.

(** A record as the parser leaves it, dated [unixSeconds] UTC, from the
    inbox folder. *)
Definition record (id : string) (unixSeconds : Z) (from : string)
    (to cc : list string) (subject body : string) : EnronEmail.t :=
  EnronEmail.mk id (time.mkTime (unixSeconds * time.Second) 0) from to cc []
    subject body EmptyString EmptyString EmptyString EmptyString EmptyString EmptyString EmptyString EmptyString "inbox".

Definition clock : time.Time := time.mkTime (1793404800 * time.Second) 0.

Definition X : string := "vince.kaminski@enron.com".
Definition A : string := "alice@enron.com".
Definition B : string := "bob@enron.com".
Definition C : string := "carol@enron.com".

(** The three records of the end-to-end scenario, owner [X]. *)
Definition budget : EnronEmail.t :=
  record "<1.JavaMail.evans@thyme>" 978307200 X [A; B] [] "Budget"
    "Please review the budget.".
Definition budget_reply : EnronEmail.t :=
  record "<2.JavaMail.evans@thyme>" 978310800 A [X] [] "Re: Budget" "Looks fine.".
Definition meeting_notes : EnronEmail.t :=
  record "<3.JavaMail.evans@thyme>" 978314400 C [X] [] "Meeting notes" "Notes attached.".

Definition scenario : list EnronEmail.t := [budget; budget_reply; meeting_notes].

Definition scenario_run (rt : runtime.t) : GmailTransformer.t * list GmailMessage.t :=
  main_transform rt clock "kaminski-v" "test@example.com" scenario.

(** The scenario as the specification words it: two threads, the first
    two records sharing one; three distinct ids; personas for exactly
    [A], [B] and [C]. *)
Definition scenario_as_specified (r : GmailTransformer.t * list GmailMessage.t) : Prop :=
  getThreadCount r.2 = 2%nat /\
  GmailMessage.ThreadId <$> r.2 !! 0%nat = GmailMessage.ThreadId <$> r.2 !! 1%nat /\
  length r.2 = 3%nat /\
  NoDup (GmailMessage.Id <$> r.2) /\
  dom (TransformStats.PersonaMap (GmailTransformer.stats r.1)) = ({[A; B; C]} : gset string).

(** The value of the first header of a given name. *)
Definition headerValue (name : string) (m : GmailMessage.t) : option string :=
  Header.Value <$>
    find (fun h => String.eqb (Header.Name h) name)
      (MessagePart.Headers (GmailMessage.Payload m)).

(** A record without any recipient. *)
Definition note_to_self : EnronEmail.t :=
  record "<4.JavaMail.evans@thyme>" 978318000 C [] [] "FYI" "See below.".

Definition run_of (rt : runtime.t) (emails : list EnronEmail.t)
    : GmailTransformer.t * list GmailMessage.t :=
  main_transform rt clock "kaminski-v" "test@example.com" emails.

(** A file system on which every call succeeds. *)
Definition fs_ok : os.t := os.mk (fun _ => true) (fun _ => true).

(** The persona a run gave to an address. *)
Definition personaOf (r : GmailTransformer.t * list GmailMessage.t) (address : string)
    : option string :=
  TestPersona.Name <$> TransformStats.PersonaMap (GmailTransformer.stats r.1) !! address.

(** ** Frequency counting, as specified and as coded *)

(** The address strings of a record that the specification has counted:
    the sender and every entry of To, Cc and Bcc. *)
Definition mentioned (email : EnronEmail.t) : list string :=
  EnronEmail.From email :: EnronEmail.To email ++ EnronEmail.CC email ++ EnronEmail.BCC email.

(** The address strings of a record that [buildPersonaMap] reads. *)
Definition counted (email : EnronEmail.t) : list string :=
  EnronEmail.From email :: EnronEmail.To email.

(** The guard of the increment: a non-empty address of somebody else. *)
Definition countable (g : GmailTransformer.t) (addr : string) : bool :=
  negb (String.eqb addr EmptyString)
  && negb (strings.Contains addr (GmailTransformer.enronUserName g)).

(** How often [addr] is the extracted address of an entry. *)
Definition occurrences (addresses : list string) (addr : string) : nat :=
  length (filter (fun x => extractEmail x = addr) addresses).

(** The specification's counting rule for one run. *)
Definition counts_every_recipient (g : GmailTransformer.t) (emails : list EnronEmail.t) : Prop :=
  forall addr, countable g addr = true ->
    default 0%nat (contactFreq g emails !! addr) = occurrences (emails ≫= mentioned) addr.

(** A record with a Cc and a Bcc recipient. *)
Definition copied : EnronEmail.t :=
  EnronEmail.mk "<5.JavaMail.evans@thyme>" (time.mkTime (978321600 * time.Second) 0)
    A ["Vince Kaminski <vince.kaminski@enron.com>"] [C] ["dave@enron.com"]
    "Status" "Carol (carol@enron.com) has the numbers."
    EmptyString EmptyString EmptyString EmptyString EmptyString EmptyString EmptyString EmptyString "inbox".

(** ** Persona stability, as specified *)

(** How a persona is written into a header. *)
Definition rendered (p : TestPersona.t) : string :=
  TestPersona.Name p +:+ " <" +:+ TestPersona.Email p +:+ ">".

(** The specification's rule: the output address that stands for an
    original address in a header is the one that replaces its literals in
    a body. *)
Definition persona_stable (g : GmailTransformer.t) : Prop :=
  forall header literal,
    extractEmail header = strings.ToLower literal ->
    extractEmail (transformEmailAddress g header)
    = strings.ToLower (replaceAddress g literal).

(** ** Subject prefixes, as specified *)

(** A reply or forward prefix in any casing. *)
Definition reply_prefix (p : string) : Prop :=
  strings.ToLower p ∈ ["re:"; "fwd:"; "fw:"].

(** The specification's rule for the threading subject. *)
Definition strips_any_casing : Prop :=
  forall p s, reply_prefix p ->
    cleanSubjectForThreading (p +:+ s) = cleanSubjectForThreading s.

(** The spellings the pattern of [cleanSubjectForThreading] lists. *)
Definition listed_prefixes : list string := ["Re:"; "RE:"; "Fwd:"; "FW:"; "Fw:"].

(** ** Runs of bytes of one class *)

Fixpoint take_while (f : ascii -> bool) (s : string) : string :=
  match s with
  | EmptyString => EmptyString
  | String c r => if f c then String c (take_while f r) else EmptyString
  end.

Fixpoint skip_while (f : ascii -> bool) (s : string) : string :=
  match s with
  | EmptyString => EmptyString
  | String c r => if f c then skip_while f r else s
  end.

Fixpoint all_chars (f : ascii -> bool) (s : string) : bool :=
  match s with
  | EmptyString => true
  | String c r => f c && all_chars f r
  end.

Definition last_char (prev : option ascii) (s : string) : option ascii :=
  fold_left (fun _ c => Some c) (list_ascii_of_string s) prev.

(** ** Snippets, as specified *)

(** The text [generateSnippet] works on: trimmed, every run of
    whitespace collapsed to one space. *)
Definition collapsed (body : string) : string :=
  regexp.ReplaceAllString whitespace (strings.TrimSpace body) " ".

(** A body without any quoted-reply marker: no [>] at all and no
    original-message banner. *)
Definition free_of_markers (body : string) : Prop :=
  strings.Contains body ">" = false /\ strings.Contains body originalMessage = false.

(** The specification's truncation rule. *)
Definition truncates_to_100 : Prop :=
  forall body,
    String.length body = 250%nat -> free_of_markers body ->
    String.length (generateSnippet body) = 100%nat /\
    exists text, generateSnippet body = text +:+ "...".

Definition spaces (n : nat) : string := string_of_list_ascii (repeat " "%char n).

(** 250 characters: a short line, then padding. *)
Definition padded_note : string := "Thanks, see you then." +:+ spaces 229.

(** 250 characters of running text. *)
Definition long_note : string :=
  "Vince, the revised budget figures for the research group are attached. " +:+
  "Please look at the headcount numbers before the Thursday meeting and " +:+
  "let me know whether the travel line should be split between London and " +:+
  "Houston.  Thanks, Shirley " +:+ spaces 13.

(** Bytes that survive the collapse: anything outside [\s], and the
    space. *)
Definition kept (c : ascii) : bool := negb (regexp.is_s c) || Ascii.eqb c " ".

(** * The record loader and parser *)

(** [strings.SplitN(s, sep, 2)] and [strings.TrimSuffix]. *)
Definition SplitN2 (s sep : string) : list string :=
  match strings.Index s sep with
  | Some i => [strings.take i s; strings.drop (i + String.length sep) s]
  | None => [s]
  end.

Fixpoint TrimSuffix (s suffix : string) : string :=
  if String.eqb s suffix then EmptyString
  else match s with
       | EmptyString => EmptyString
       | String c r => String c (TrimSuffix r suffix)
       end.

(** [strconv.Atoi] succeeds on an optional sign followed by one or more
    decimal digits whose value fits in 64 bits. *)
Definition digits_value (s : string) : option N :=
  match s with
  | EmptyString => None
  | _ =>
      fold_left
        (fun acc c =>
           n ← acc;
           if strings.is_digit c then Some (10 * n + (strings.byte_of c - 48))%N else None)
        (list_ascii_of_string s) (Some 0%N)
  end.

Definition Atoi_ok (s : string) : bool :=
  match s with
  | String "-" r =>
      match digits_value r with Some n => (n <=? 2 ^ 63)%N | None => false end
  | String "+" r =>
      match digits_value r with Some n => (n <? 2 ^ 63)%N | None => false end
  | _ =>
      match digits_value s with Some n => (n <? 2 ^ 63)%N | None => false end
  end.

(** [filepath.Join] of two clean, non-empty components. *)
Definition filepath_Join (dir name : string) : string := dir +:+ "/" +:+ name.

Module DirEntry.
Record t : Type := mk { Name : string; IsDir : bool }.
End DirEntry.

(** What the loader sees of the disk: the entries of a directory
    ([None] when [ioutil.ReadDir] fails) and the lines [bufio.Scanner]
    delivers for a file ([None] when [os.Open] fails). *)
Module disk.
Record t : Type := mk {
  ReadDir : string -> option (list DirEntry.t);
  Open : string -> option (list string)
}.
End disk.

Definition emptyEmail (path : string) : EnronEmail.t :=
  EnronEmail.mk EmptyString (time.mkTime (-62135596800 * time.Second) 0) EmptyString [] [] [] EmptyString EmptyString
    EmptyString EmptyString EmptyString EmptyString EmptyString EmptyString EmptyString path EmptyString.

Definition set_MessageID (v : string) (e : EnronEmail.t) : EnronEmail.t :=
  EnronEmail.mk v (EnronEmail.Date e) (EnronEmail.From e) (EnronEmail.To e) (EnronEmail.CC e)
    (EnronEmail.BCC e) (EnronEmail.Subject e) (EnronEmail.Body e) (EnronEmail.XFrom e)
    (EnronEmail.XTo e) (EnronEmail.XCC e) (EnronEmail.XBCC e) (EnronEmail.XFolder e)
    (EnronEmail.XOrigin e) (EnronEmail.XFileName e) (EnronEmail.FilePath e)
    (EnronEmail.UserFolder e).

Definition set_Date (v : time.Time) (e : EnronEmail.t) : EnronEmail.t :=
  EnronEmail.mk (EnronEmail.MessageID e) v (EnronEmail.From e) (EnronEmail.To e)
    (EnronEmail.CC e) (EnronEmail.BCC e) (EnronEmail.Subject e) (EnronEmail.Body e)
    (EnronEmail.XFrom e) (EnronEmail.XTo e) (EnronEmail.XCC e) (EnronEmail.XBCC e)
    (EnronEmail.XFolder e) (EnronEmail.XOrigin e) (EnronEmail.XFileName e)
    (EnronEmail.FilePath e) (EnronEmail.UserFolder e).

Definition set_From (v : string) (e : EnronEmail.t) : EnronEmail.t :=
  EnronEmail.mk (EnronEmail.MessageID e) (EnronEmail.Date e) v (EnronEmail.To e)
    (EnronEmail.CC e) (EnronEmail.BCC e) (EnronEmail.Subject e) (EnronEmail.Body e)
    (EnronEmail.XFrom e) (EnronEmail.XTo e) (EnronEmail.XCC e) (EnronEmail.XBCC e)
    (EnronEmail.XFolder e) (EnronEmail.XOrigin e) (EnronEmail.XFileName e)
    (EnronEmail.FilePath e) (EnronEmail.UserFolder e).

Definition set_To (v : list string) (e : EnronEmail.t) : EnronEmail.t :=
  EnronEmail.mk (EnronEmail.MessageID e) (EnronEmail.Date e) (EnronEmail.From e) v
    (EnronEmail.CC e) (EnronEmail.BCC e) (EnronEmail.Subject e) (EnronEmail.Body e)
    (EnronEmail.XFrom e) (EnronEmail.XTo e) (EnronEmail.XCC e) (EnronEmail.XBCC e)
    (EnronEmail.XFolder e) (EnronEmail.XOrigin e) (EnronEmail.XFileName e)
    (EnronEmail.FilePath e) (EnronEmail.UserFolder e).

Definition set_CC (v : list string) (e : EnronEmail.t) : EnronEmail.t :=
  EnronEmail.mk (EnronEmail.MessageID e) (EnronEmail.Date e) (EnronEmail.From e)
    (EnronEmail.To e) v (EnronEmail.BCC e) (EnronEmail.Subject e) (EnronEmail.Body e)
    (EnronEmail.XFrom e) (EnronEmail.XTo e) (EnronEmail.XCC e) (EnronEmail.XBCC e)
    (EnronEmail.XFolder e) (EnronEmail.XOrigin e) (EnronEmail.XFileName e)
    (EnronEmail.FilePath e) (EnronEmail.UserFolder e).

Definition set_BCC (v : list string) (e : EnronEmail.t) : EnronEmail.t :=
  EnronEmail.mk (EnronEmail.MessageID e) (EnronEmail.Date e) (EnronEmail.From e)
    (EnronEmail.To e) (EnronEmail.CC e) v (EnronEmail.Subject e) (EnronEmail.Body e)
    (EnronEmail.XFrom e) (EnronEmail.XTo e) (EnronEmail.XCC e) (EnronEmail.XBCC e)
    (EnronEmail.XFolder e) (EnronEmail.XOrigin e) (EnronEmail.XFileName e)
    (EnronEmail.FilePath e) (EnronEmail.UserFolder e).

Definition set_Subject (v : string) (e : EnronEmail.t) : EnronEmail.t :=
  EnronEmail.mk (EnronEmail.MessageID e) (EnronEmail.Date e) (EnronEmail.From e)
    (EnronEmail.To e) (EnronEmail.CC e) (EnronEmail.BCC e) v (EnronEmail.Body e)
    (EnronEmail.XFrom e) (EnronEmail.XTo e) (EnronEmail.XCC e) (EnronEmail.XBCC e)
    (EnronEmail.XFolder e) (EnronEmail.XOrigin e) (EnronEmail.XFileName e)
    (EnronEmail.FilePath e) (EnronEmail.UserFolder e).

Definition set_Body (v : string) (e : EnronEmail.t) : EnronEmail.t :=
  EnronEmail.mk (EnronEmail.MessageID e) (EnronEmail.Date e) (EnronEmail.From e)
    (EnronEmail.To e) (EnronEmail.CC e) (EnronEmail.BCC e) (EnronEmail.Subject e) v
    (EnronEmail.XFrom e) (EnronEmail.XTo e) (EnronEmail.XCC e) (EnronEmail.XBCC e)
    (EnronEmail.XFolder e) (EnronEmail.XOrigin e) (EnronEmail.XFileName e)
    (EnronEmail.FilePath e) (EnronEmail.UserFolder e).

(** The seven X- fields, by position: X-From, X-To, X-cc, X-bcc,
    X-Folder, X-Origin, X-FileName. *)
Definition set_X (i : nat) (v : string) (e : EnronEmail.t) : EnronEmail.t :=
  let x := [EnronEmail.XFrom e; EnronEmail.XTo e; EnronEmail.XCC e; EnronEmail.XBCC e;
            EnronEmail.XFolder e; EnronEmail.XOrigin e; EnronEmail.XFileName e] in
  let x := <[i := v]> x in
  EnronEmail.mk (EnronEmail.MessageID e) (EnronEmail.Date e) (EnronEmail.From e)
    (EnronEmail.To e) (EnronEmail.CC e) (EnronEmail.BCC e) (EnronEmail.Subject e)
    (EnronEmail.Body e)
    (nth 0 x EmptyString) (nth 1 x EmptyString) (nth 2 x EmptyString) (nth 3 x EmptyString) (nth 4 x EmptyString) (nth 5 x EmptyString)
    (nth 6 x EmptyString) (EnronEmail.FilePath e) (EnronEmail.UserFolder e).

Definition set_UserFolder (v : string) (e : EnronEmail.t) : EnronEmail.t :=
  EnronEmail.mk (EnronEmail.MessageID e) (EnronEmail.Date e) (EnronEmail.From e)
    (EnronEmail.To e) (EnronEmail.CC e) (EnronEmail.BCC e) (EnronEmail.Subject e)
    (EnronEmail.Body e) (EnronEmail.XFrom e) (EnronEmail.XTo e) (EnronEmail.XCC e)
    (EnronEmail.XBCC e) (EnronEmail.XFolder e) (EnronEmail.XOrigin e)
    (EnronEmail.XFileName e) (EnronEmail.FilePath e) v.

Definition cleanEnronAddress (addr : string) : string :=
  match strings.Index addr "</O=" with
  | Some (S idx) => strings.TrimSpace (strings.take (S idx) addr)
  | _ => addr
  end.

Definition parseRecipientList (value : string) : list string :=
  fold_left
    (fun recipients part =>
       let cleaned := strings.TrimSpace part in
       if String.eqb cleaned EmptyString then recipients else recipients ++ [cleaned])
    (strings.Split value ",") [].

Section Parser.

Variable time_Parse : string -> string -> option time.Time.
Variable time_Now : time.Time.

Definition processHeader (email : EnronEmail.t) (header value : string) : EnronEmail.t :=
  if String.eqb header "Message-ID" then set_MessageID value email
  else if String.eqb header "Date"
  then set_Date (parseEnronDate time_Parse time_Now value) email
  else if String.eqb header "From" then set_From value email
  else if String.eqb header "To" then set_To (parseRecipientList value) email
  else if String.eqb header "Cc" then set_CC (parseRecipientList value) email
  else if String.eqb header "Bcc" then set_BCC (parseRecipientList value) email
  else if String.eqb header "Subject" then set_Subject value email
  else if String.eqb header "X-From" then set_X 0 (cleanEnronAddress value) email
  else if String.eqb header "X-To" then set_X 1 value email
  else if String.eqb header "X-cc" then set_X 2 value email
  else if String.eqb header "X-bcc" then set_X 3 value email
  else if String.eqb header "X-Folder" then set_X 4 value email
  else if String.eqb header "X-Origin" then set_X 5 value email
  else if String.eqb header "X-FileName" then set_X 6 value email
  else email.

(** The local variables of [parseEnronFile]'s scan loop. *)
Record scan : Type := Scan {
  email : EnronEmail.t;
  inHeaders : bool;
  body : string;
  currentHeader : string;
  currentValue : string
}.

(** [if currentHeader != EmptyString { processHeader(...) }] *)
Definition commit (s : scan) : EnronEmail.t :=
  if String.eqb (currentHeader s) EmptyString then email s
  else processHeader (email s) (currentHeader s) (currentValue s).

Definition scanLine (s : scan) (line : string) : scan :=
  if inHeaders s then
    if String.eqb line EmptyString then
      Scan (commit s) false (body s) (currentHeader s) (currentValue s)
    else if strings.HasPrefix line " " || strings.HasPrefix line (String "009" EmptyString)
    then Scan (email s) true (body s) (currentHeader s)
           (currentValue s +:+ " " +:+ strings.TrimSpace line)
    else
      match SplitN2 line ":" with
      | [name; value] =>
          Scan (commit s) true (body s) (strings.TrimSpace name) (strings.TrimSpace value)
      | _ => Scan (commit s) true (body s) (currentHeader s) (currentValue s)
      end
  else Scan (email s) false (body s +:+ line +:+ newline) (currentHeader s) (currentValue s).

(** The record built from the lines of an opened file. *)
Definition parseLines (path : string) (lines : list string) : EnronEmail.t :=
  let s := fold_left scanLine lines (Scan (emptyEmail path) true EmptyString EmptyString EmptyString) in
  set_Body (body s) (email s).

Definition parseEnronFile (d : disk.t) (path : string) : option EnronEmail.t :=
  parseLines path <$> disk.Open d path.

(** The local variables of [LoadEnronEmails]. *)
Record loaded : Type := Loaded {
  emails : list EnronEmail.t;
  emailsSeen : gmap string bool
}.

Definition seen (l : loaded) (id : string) : bool := default false (emailsSeen l !! id).

(** [emailsSeen[id] = true; email.UserFolder = folder; emails = append(emails, email)] *)
Definition keep (l : loaded) (folder : string) (email : EnronEmail.t) : loaded :=
  Loaded (emails l ++ [set_UserFolder folder email])
    (<[EnronEmail.MessageID email := true]> (emailsSeen l)).

Definition full (limit : Z) (l : loaded) : bool := limit <=? Z.of_nat (length (emails l)).

(** The loop over the files of one priority folder; the flag tells
    whether the function returned from inside it. *)
Fixpoint loadFolder (d : disk.t) (limit : Z) (folder folderPath : string)
    (files : list DirEntry.t) (l : loaded) : loaded * bool :=
  match files with
  | [] => (l, false)
  | file :: rest =>
      if full limit l then (l, true)
      else if DirEntry.IsDir file then loadFolder d limit folder folderPath rest l
      else
        match parseEnronFile d (filepath_Join folderPath (DirEntry.Name file)) with
        | None => loadFolder d limit folder folderPath rest l
        | Some email =>
            if seen l (EnronEmail.MessageID email)
            then loadFolder d limit folder folderPath rest l
            else loadFolder d limit folder folderPath rest (keep l folder email)
        end
  end.

Definition priorityFolders : list string :=
  ["sent_items"; "inbox"; "discussion_threads"; "personal"].

Fixpoint loadPriority (d : disk.t) (limit : Z) (userPath : string)
    (folders : list string) (l : loaded) : loaded * bool :=
  match folders with
  | [] => (l, false)
  | folder :: rest =>
      match disk.ReadDir d (filepath_Join userPath folder) with
      | None => loadPriority d limit userPath rest l
      | Some files =>
          let '(l, returned) :=
            loadFolder d limit folder (filepath_Join userPath folder) files l in
          if returned then (l, true) else loadPriority d limit userPath rest l
      end
  end.

(** The loop over [all_documents]: only names that are numbers, a
    trailing dot apart, are opened. *)
Fixpoint loadAllDocuments (d : disk.t) (limit : Z) (allDocsPath : string)
    (files : list DirEntry.t) (l : loaded) : loaded :=
  match files with
  | [] => l
  | file :: rest =>
      if full limit l then l
      else if Atoi_ok (TrimSuffix (DirEntry.Name file) ".") then
        match parseEnronFile d (filepath_Join allDocsPath (DirEntry.Name file)) with
        | Some email =>
            if seen l (EnronEmail.MessageID email)
            then loadAllDocuments d limit allDocsPath rest l
            else loadAllDocuments d limit allDocsPath rest (keep l "all_documents" email)
        | None => loadAllDocuments d limit allDocsPath rest l
        end
      else loadAllDocuments d limit allDocsPath rest l
  end.

(** The [error] result of the source is always [nil]. *)
Definition LoadEnronEmails (d : disk.t) (rootPath username : string) (limit : Z)
    : list EnronEmail.t :=
  let userPath := filepath_Join rootPath username in
  let '(l, returned) := loadPriority d limit userPath priorityFolders (Loaded [] ∅) in
  if returned then emails l
  else if full limit l then emails l
  else
    let allDocsPath := filepath_Join userPath "all_documents" in
    emails (loadAllDocuments d limit allDocsPath
              (default [] (disk.ReadDir d allDocsPath)) l).

End Parser.

(** ** Predicates and helpers for the parser's statements *)

Definition tab : string := String "009" EmptyString.

(** Lines, each followed by a newline. *)
Fixpoint unlines (ls : list string) : string :=
  match ls with
  | [] => EmptyString
  | l :: r => l +:+ newline +:+ unlines r
  end.

(** A line that opens a header: not blank, not a continuation. *)
Definition opens_header (line : string) : Prop :=
  line <> EmptyString /\ strings.HasPrefix line " " = false /\ strings.HasPrefix line tab = false.

(** A continuation line begins with a space or a tab. *)
Definition continues (line : string) : Prop :=
  strings.HasPrefix line " " || strings.HasPrefix line tab = true.

(** The value of a header whose first line carries [v] and which is
    continued by [conts]. *)
Definition folded (v : string) (conts : list string) : string :=
  fold_left (fun acc c => acc +:+ " " +:+ strings.TrimSpace c) conts (strings.TrimSpace v).

(** ** Predicates for the loader's statements *)

Definition sourceFolders : list string := priorityFolders ++ ["all_documents"].

(** A record that is the parse of a file listed in one of the source
    folders of [userPath], tagged with that folder: a plain file of a
    priority folder, or an entry of [all_documents] whose name is a
    number. *)
Definition from_disk (time_Parse : string -> string -> option time.Time)
    (time_Now : time.Time) (d : disk.t) (userPath : string) (e : EnronEmail.t) : Prop :=
  exists folder files file lines,
    folder ∈ sourceFolders /\
    disk.ReadDir d (filepath_Join userPath folder) = Some files /\
    file ∈ files /\
    (if decide (folder = "all_documents")
     then Atoi_ok (TrimSuffix (DirEntry.Name file) ".") = true
     else DirEntry.IsDir file = false) /\
    disk.Open d (filepath_Join (filepath_Join userPath folder) (DirEntry.Name file))
      = Some lines /\
    e = set_UserFolder folder
          (parseLines time_Parse time_Now
             (filepath_Join (filepath_Join userPath folder) (DirEntry.Name file)) lines).

(** What the loader's loops keep true of their variables. *)
Definition loaded_ok (time_Parse : string -> string -> option time.Time)
    (time_Now : time.Time) (d : disk.t) (userPath : string) (limit : Z) (l : loaded) : Prop :=
  NoDup (EnronEmail.MessageID <$> emails l) /\
  (forall e, e ∈ emails l -> seen l (EnronEmail.MessageID e) = true) /\
  Z.of_nat (length (emails l)) <= Z.max 0 limit /\
  Forall (from_disk time_Parse time_Now d userPath) (emails l).

(** ** Predicates for the persona statements *)

(** The persona of the contact ranked [i]: the roster entry, or past
    the roster a generated one. *)
Definition personaAt (i : nat) (address : string) : TestPersona.t :=
  match personas !! i with
  | Some p => p
  | None =>
      TestPersona.mk (generateNameFromEmail address)
        ("contact" +:+ fmt.utoa (N.of_nat i) +:+ "@example.com") "acquaintance" EmptyString
  end.

Definition servicePersona (address : string) : TestPersona.t :=
  TestPersona.mk (default EmptyString (extractServiceName address)) address "service" EmptyString.

(** ** Label families *)

Definition folderLabels : list string :=
  ["TRASH"; "CATEGORY_PERSONAL"; "Label_Travel"; "Label_Meetings"].

Definition categoryLabels : list string := ["CATEGORY_PROMOTIONS"; "CATEGORY_UPDATES"].

(** How many labels of a family a message carries. *)
Definition count_in (family labels : list string) : nat :=
  length (filter (fun l => l ∈ family) labels).

(** ** Letter case *)

(** Bytes that lower-casing neither changes nor produces. *)
Definition caseless (c : ascii) : Prop :=
  forall a, strings.to_lower_byte a = c <-> a = c.

(** ** Text that trimming and collapsing leave alone *)

(** Every byte is black, or one blank followed by a black byte. *)
Fixpoint tight (s : string) : bool :=
  match s with
  | EmptyString => true
  | String c r =>
      (if Ascii.eqb c " "
       then match r with
            | String d _ => negb (strings.is_space d)
            | EmptyString => false
            end
       else negb (strings.is_space c))
      && tight r
  end.

(** Non-empty tight text that starts with a black byte. *)
Definition solid (sub : string) : Prop := tight (String " " sub) = true.

(** ** Identifiers *)

Definition lower_hex (c : ascii) : bool := one_of "0123456789abcdef" c.

(** ** Bodies without encoded bytes or entities *)

Definition plain (c : ascii) : bool := negb (Ascii.eqb c "=") && negb (Ascii.eqb c "&").

(** ** The metadata file *)

(** How many label entries of the messages are [label]. *)
Definition carried (messages : list GmailMessage.t) (label : string) : nat :=
  length (filter (fun l => l = label) (messages ≫= GmailMessage.LabelIds)).

(** A record with both recipient headers. *)
Definition has_To_and_Cc (e : EnronEmail.t) : Prop :=
  EnronEmail.To e <> [] /\ EnronEmail.CC e <> [].

Definition io_all_succeed (fs : os.t) (outputDir : string) : Prop :=
  os.MkdirAll fs outputDir = true /\ forall name, os.WriteFile fs name = true.

(** An entry of the replacement table: its key starts with [=] or [&]. *)
Definition encoded (kv : string * string) : Prop :=
  exists a r, kv.1 = String a r /\ plain a = false.

(** ** Renaming the company *)

(** No position of [s] at which [ReplaceAll s old _] copies a byte
    starts an occurrence of [q]. *)
Fixpoint copies_clear (old q s : string) : Prop :=
  match s with
  | EmptyString => True
  | String c r =>
      (String.prefix old s = false -> String.prefix q s = false) /\ copies_clear old q r
  end.

(** ** One persona per address, over a run *)

(** [addr] is the extracted address of the sender or of a To entry of
    some record. *)
Definition corresponds (emails : list EnronEmail.t) (addr : string) : Prop :=
  exists e h, e ∈ emails /\ h ∈ counted e /\ extractEmail h = addr.

(** Whom an address stands for under [g]: the test user when it holds
    the owner fragment, else its entry in the persona map. *)
Definition identity_of (g : GmailTransformer.t) (addr : string) : option TestPersona.t :=
  if strings.Contains addr (GmailTransformer.enronUserName g)
  then Some (TestPersona.mk "You" (GmailTransformer.userEmail g) EmptyString EmptyString)
  else GmailTransformer.personaMap g !! addr.

(** A header entry, written as [p] when its address is [addr]. *)
Definition entry_as (g : GmailTransformer.t) (addr : string) (p : TestPersona.t)
    (entry : string) : string :=
  if decide (extractEmail entry = addr) then rendered p else transformEmailAddress g entry.

(** A body in which every literal matched by the address pattern that
    spells [addr] is replaced by the address of [p], the other literals
    by the callback of [transformBody]; the organisation's name is
    substituted afterwards, as in [transformBody]. *)
Definition body_as (rt : runtime.t) (g : GmailTransformer.t) (addr : string)
    (p : TestPersona.t) (body : string) : string :=
  strings.ReplaceAll
    (strings.ReplaceAll
       (regexp.ReplaceAllStringFunc emailRegex (fixEncoding rt body)
          (fun literal =>
             if decide (strings.ToLower literal = addr) then TestPersona.Email p
             else replaceAddress g literal))
       "Enron" "TechCorp")
    "ENRON" "TECHCORP".

(** The message [m] of the record [e] writes [addr] as [p] at every
    place: sender, To and Cc entries, and the literals of the body (the
    payload and the snippet are made from that body). *)
Definition written_as (rt : runtime.t) (g : GmailTransformer.t) (addr : string)
    (p : TestPersona.t) (e : EnronEmail.t) (m : GmailMessage.t) : Prop :=
  headerValue "From" m = Some (entry_as g addr p (EnronEmail.From e)) /\
  (EnronEmail.To e <> [] ->
   headerValue "To" m = Some (strings.Join (map (entry_as g addr p) (EnronEmail.To e)) ", ")) /\
  (EnronEmail.CC e <> [] ->
   headerValue "Cc" m = Some (strings.Join (map (entry_as g addr p) (EnronEmail.CC e)) ", ")) /\
  MessageBody.Data (MessagePart.Body (GmailMessage.Payload m))
  = base64.EncodeToString (body_as rt g addr p (EnronEmail.Body e)) /\
  GmailMessage.Snippet m = generateSnippet (body_as rt g addr p (EnronEmail.Body e)).

(** A record that names [A] in Cc and in its body. *)
Definition mention : EnronEmail.t :=
  record "<8.JavaMail.evans@thyme>" 978325200 C [X] ["Alice Doe <Alice@Enron.com>"]
    "Figures" "Ask Alice@Enron.com about the figures.".

(** ** Dates at the ends of a corpus *)

(** A record of the corpus before which no record is dated, and one
    after which none is. *)
Definition earliest (emails : list EnronEmail.t) (e : EnronEmail.t) : Prop :=
  e ∈ emails /\
  forall e', e' ∈ emails ->
    time.unixNano (EnronEmail.Date e) <= time.unixNano (EnronEmail.Date e').

Definition latest (emails : list EnronEmail.t) (e : EnronEmail.t) : Prop :=
  e ∈ emails /\
  forall e', e' ∈ emails ->
    time.unixNano (EnronEmail.Date e') <= time.unixNano (EnronEmail.Date e).

(** An arrangement of the records in non-decreasing order of date;
    records of equal date may come in any order. *)
Definition date_sorted (sorted emails : list EnronEmail.t) : Prop :=
  sorted ≡ₚ emails /\
  StronglySorted
    (fun a b => time.unixNano (EnronEmail.Date a) <= time.unixNano (EnronEmail.Date b))
    sorted.

(** A record dated as [copied] is. *)
Definition copied_twin : EnronEmail.t :=
  EnronEmail.mk "<9.JavaMail.evans@thyme>" (time.mkTime (978321600 * time.Second) 0)
    B ["Vince Kaminski <vince.kaminski@enron.com>"] [A] []
    "Status" "Bob has them too."
    EmptyString EmptyString EmptyString EmptyString EmptyString EmptyString EmptyString EmptyString "inbox".

(** ** Disks of the loader's examples *)

Definition sample_file (id : string) : list string :=
  ["Message-ID: " +:+ id; "From: alice@enron.com"; EmptyString; "Hello"].

(** An inbox with a file and a directory, and an archive that repeats
    the inbox's message, adds one and holds a file whose name is no
    number. *)
Definition archive_disk : disk.t :=
  disk.mk
    (fun path =>
       if String.eqb path "maildir/kaminski-v/inbox"
       then Some [DirEntry.mk "1." false; DirEntry.mk "old" true]
       else if String.eqb path "maildir/kaminski-v/all_documents"
       then Some [DirEntry.mk "1." false; DirEntry.mk "2." false;
                  DirEntry.mk "notes.txt" false]
       else None)
    (fun path =>
       if String.eqb path "maildir/kaminski-v/inbox/1." then Some (sample_file "<1>")
       else if String.eqb path "maildir/kaminski-v/all_documents/1."
       then Some (sample_file "<1>")
       else if String.eqb path "maildir/kaminski-v/all_documents/2."
       then Some (sample_file "<2>")
       else if String.eqb path "maildir/kaminski-v/all_documents/notes.txt"
       then Some (sample_file "<3>")
       else None).

(** A user whose mail lies in folders the loader does not read. *)
Definition unlisted_disk : disk.t :=
  disk.mk
    (fun path =>
       if String.eqb path "maildir/kaminski-v/sent" then Some [DirEntry.mk "1." false]
       else if String.eqb path "maildir/kaminski-v/_sent_mail"
       then Some [DirEntry.mk "2." false]
       else None)
    (fun path =>
       if String.eqb path "maildir/kaminski-v/sent/1." then Some (sample_file "<1>")
       else if String.eqb path "maildir/kaminski-v/_sent_mail/2."
       then Some (sample_file "<2>")
       else None).

(** ** ASCII text *)

Definition ascii_only (s : string) : bool :=
  all_chars (fun c => (strings.byte_of c <? 128)%N) s.

(** * Proofs *)

Example md5_empty : md5.SumHex EmptyString = "d41d8cd98f00b204e9800998ecf8427e".
Proof. vm_compute. reflexivity. Qed.

Example md5_abc : md5.SumHex "abc" = "900150983cd24fb0d6963f7d28e17f72".
Proof. vm_compute. reflexivity. Qed.

Example md5_two_blocks :
  md5.SumHex "aaaaaaaaaaaaaaaaaaaaaaaaaaaaaaaaaaaaaaaaaaaaaaaaaaaaaaaaaaaaaaaa"
  = "014842d480b571495a4a0363793f7367".
Proof. vm_compute. reflexivity. Qed.

(** ** Facts about the library models *)

Lemma insert_Permutation {A} (less : A -> A -> bool) (x : A) (l : list A) :
  sort.insert less x l ≡ₚ x :: l.
Proof.
  induction l as [|y r IH]; simpl; [done|].
  destruct (less x y); [|done].
  rewrite IH. apply Permutation_swap.
Qed.

Lemma Slice_Permutation {A} (less : A -> A -> bool) (l : list A) :
  sort.Slice less l ≡ₚ l.
Proof.
  unfold sort.Slice. rewrite <- Permutation_rev.
  assert (H : forall acc, fold_left (fun sorted x => sort.insert less x sorted) l acc ≡ₚ acc ++ l).
  { induction l as [|x r IH]; intros acc; simpl.
    - by rewrite app_nil_r.
    - rewrite IH, insert_Permutation. simpl. apply Permutation_middle. }
  apply (H []).
Qed.

(** ** C9 *)
Lemma parseEnronDate_loop_spec (parse : string -> string -> option time.Time)
    (now : time.Time) (s : string) (fs : list string) :
  (exists tried f rest t,
      fs = tried ++ f :: rest /\
      Forall (fun f' => parse f' s = None) tried /\
      parse f s = Some t /\
      parseEnronDate_loop parse now fs s = t)
  \/ (Forall (fun f => parse f s = None) fs /\ parseEnronDate_loop parse now fs s = now).
Proof.
  induction fs as [|f fs IH]; simpl.
  - right. by split.
  - destruct (parse f s) as [t|] eqn:Hf.
    + left. exists [], f, fs, t. by repeat split.
    + destruct IH as [(tried & f' & rest & t & -> & Hall & Hok & Hres)|[Hall Hres]].
      * left. exists (f :: tried), f', rest, t. repeat split; auto.
      * right. split; auto.
Qed.

(** C9: [parseEnronDate] tries the five layouts in their listed order.
    Either some layout parses the string, every layout before it fails,
    and the result is that first success; or every layout fails and the
    result is the wall clock's reading.  The function returns a time in
    both cases: it has no error result. *)
Theorem parseEnronDate_first_match_or_now
    (parse : string -> string -> option time.Time) (now : time.Time) (dateStr : string) :
  (exists tried f rest t,
      formats = tried ++ f :: rest /\
      Forall (fun f' => parse f' dateStr = None) tried /\
      parse f dateStr = Some t /\
      parseEnronDate parse now dateStr = t)
  \/ (Forall (fun f => parse f dateStr = None) formats /\
      parseEnronDate parse now dateStr = now).
Proof. apply parseEnronDate_loop_spec. Qed.

(** ** Invariants of a run *)

Lemma same_config_refl g : same_config g g.
Proof. by repeat split. Qed.

Lemma same_config_trans g1 g2 g3 :
  same_config g1 g2 -> same_config g2 g3 -> same_config g1 g3.
Proof. unfold same_config. intros (?&?&?&?) (?&?&?&?). repeat split; congruence. Qed.

Lemma getOrCreateThreadID_spec g enron :
  cache_ok g ->
  let r := getOrCreateThreadID g enron in
  r.2 = generateThreadID (threadKey enron) /\ cache_ok r.1 /\ same_config g r.1.
Proof.
  intros Hok. unfold getOrCreateThreadID.
  destruct (GmailTransformer.threadCache g !! threadKey enron) as [v|] eqn:Hc; simpl.
  - split; [by apply Hok|]. split; [done|apply same_config_refl].
  - split; [done|]. split; [|by repeat split].
    intros k v. unfold cache_ok in Hok. simpl.
    rewrite lookup_insert. case_decide; [naive_solver|by apply Hok].
Qed.

Lemma transformHeaders_config g g' enron :
  same_config g g' -> transformHeaders g' enron = transformHeaders g enron.
Proof.
  intros (Hs & Hp & Hu & Hn).
  unfold transformHeaders, transformEmailList, shiftedDate, transformEmailAddress.
  by rewrite Hs, Hp, Hu, Hn.
Qed.

Lemma message_of_config rt g g' enron :
  same_config g g' -> message_of rt g' enron = message_of rt g enron.
Proof.
  intros (Hs & Hp & Hu & Hn).
  unfold message_of, transformBody, replaceAddress, inferLabels, transformHeaders,
    transformEmailList, shiftedDate, transformEmailAddress.
  by rewrite Hs, Hp, Hu, Hn.
Qed.

Lemma transformEmail_spec rt g enron :
  cache_ok g ->
  let r := transformEmail rt g enron in
  r.2 = message_of rt g enron /\ cache_ok r.1 /\ same_config g r.1.
Proof.
  intros Hok. unfold transformEmail.
  set (g1 := GmailTransformer.set_messageIDMap _ g).
  assert (Hok1 : cache_ok g1) by exact Hok.
  assert (Hc1 : same_config g g1) by (by repeat split).
  destruct (getOrCreateThreadID_spec g1 enron Hok1) as (Hid & Hok2 & Hc2).
  destruct (getOrCreateThreadID g1 enron) as [g2 threadID].
  cbn [fst snd] in *. subst threadID.
  split; [|split; [done|by eapply same_config_trans]].
  rewrite <- (message_of_config rt g g2 enron) by (by eapply same_config_trans).
  unfold message_of. do 2 f_equal.
  symmetry. by apply transformHeaders_config.
Qed.

Lemma transformStep_fold rt emails : forall g out,
  cache_ok g ->
  let r := fold_left (transformStep rt) emails (g, out) in
  r.2 = out ++ map (message_of rt g) emails /\ cache_ok r.1 /\ same_config g r.1.
Proof.
  induction emails as [|e es IH]; intros g out Hok; cbn [fold_left map].
  - rewrite app_nil_r. repeat split; auto.
  - assert (Hokp : cache_ok (count_processed g)) by exact Hok.
    pose proof (transformEmail_spec rt (count_processed g) e Hokp) as Hspec.
    destruct (transformEmail rt (count_processed g) e) as [g1 m] eqn:Hte.
    destruct Hspec as (Ht & Hok1 & Hc1); cbn [fst snd] in Ht, Hok1, Hc1.
    assert (Hstep : transformStep rt (g, out) e = (count_transformed g1, out ++ [m])).
    { unfold transformStep; cbn [fst snd]. by rewrite Hte. }
    rewrite Hstep.
    assert (Hok2 : cache_ok (count_transformed g1)) by exact Hok1.
    destruct (IH (count_transformed g1) (out ++ [m]) Hok2) as (Hout & Hok3 & Hc3).
    assert (Hgc : same_config g (count_transformed g1)).
    { destruct Hc1 as (?&?&?&?). by repeat split. }
    split; [|split; [done|by eapply same_config_trans]].
    rewrite Hout, <- app_assoc. cbn [app]. do 2 f_equal.
    + rewrite Ht. apply (message_of_config rt g (count_processed g)). by repeat split.
    + apply map_ext. intros e'. by apply message_of_config.
Qed.

Lemma buildPersonaMap_config rt emails g :
  GmailTransformer.timeShift (buildPersonaMap rt emails g) = GmailTransformer.timeShift g /\
  GmailTransformer.threadCache (buildPersonaMap rt emails g) = GmailTransformer.threadCache g /\
  GmailTransformer.userEmail (buildPersonaMap rt emails g) = GmailTransformer.userEmail g /\
  GmailTransformer.enronUserName (buildPersonaMap rt emails g) = GmailTransformer.enronUserName g.
Proof. by repeat split. Qed.

(** A run, record by record: the records in date order, each transformed
    under the one configuration that [buildPersonaMap] leaves. *)
Lemma TransformDataset_spec rt g emails :
  cache_ok g ->
  let sorted := sort.Slice byDate emails in
  let g1 := buildPersonaMap rt sorted g in
  let r := TransformDataset rt g emails in
  r.2 = map (message_of rt g1) sorted /\
  same_config g1 r.1 /\
  TransformStats.PersonaMap (GmailTransformer.stats r.1) = GmailTransformer.personaMap g1.
Proof.
  intros Hok sorted g1 r. subst r. unfold TransformDataset. fold sorted. fold g1.
  assert (Hok1 : cache_ok g1) by exact Hok.
  destruct (transformStep_fold rt sorted g1 [] Hok1) as (Hout & _ & Hc).
  destruct (fold_left (transformStep rt) sorted (g1, [])) as [g2 out]; cbn [fst snd] in *.
  subst out. split; [done|]. destruct Hc as (?&Hp&?&?). split; [by repeat split|done].
Qed.

Lemma NewGmailTransformer_cache_ok now user mail : cache_ok (NewGmailTransformer now user mail).
Proof. intros k v. simpl. by rewrite lookup_empty. Qed.

(** ** C8 *)
(** C8: in one run every record is shifted by the [timeShift] the
    transformer was created with.  The records come out in date order,
    each with the internal date, history id and Date header of its own
    date plus that one offset; hence the difference of two shifted dates
    is the difference of the original dates, and the earlier of two
    records stays the earlier. *)
Theorem one_offset_for_every_record rt now user testEmail emails :
  let g0 := NewGmailTransformer now user testEmail in
  let shift := GmailTransformer.timeShift g0 in
  Forall2
    (fun e m =>
       GmailMessage.InternalDate m
         = fmt.itoa (time.UnixMilli (time.Add (EnronEmail.Date e) shift)) /\
       GmailMessage.HistoryId m
         = fmt.itoa (time.Unix (time.Add (EnronEmail.Date e) shift)) /\
       Header.mk "Date" (time.FormatRFC1123Z (time.Add (EnronEmail.Date e) shift))
         ∈ MessagePart.Headers (GmailMessage.Payload m))
    (sort.Slice byDate emails) (TransformDataset rt g0 emails).2 /\
  forall a b : EnronEmail.t,
    time.Sub (shiftedDate g0 a) (shiftedDate g0 b)
      = time.Sub (EnronEmail.Date a) (EnronEmail.Date b) /\
    time.Before (shiftedDate g0 a) (shiftedDate g0 b)
      = time.Before (EnronEmail.Date a) (EnronEmail.Date b).
Proof.
  intros g0 shift.
  pose proof (NewGmailTransformer_cache_ok now user testEmail) as Hok.
  fold g0 in Hok. clearbody g0. subst shift. split.
  - destruct (TransformDataset_spec rt g0 emails Hok) as (-> & _ & _).
    destruct (buildPersonaMap_config rt (sort.Slice byDate emails) g0) as (Hs & _).
    revert Hs. generalize (buildPersonaMap rt (sort.Slice byDate emails) g0).
    intros g1 Hs. induction (sort.Slice byDate emails) as [|e es IH]; cbn [map];
      constructor; [|exact IH].
    unfold message_of, shiftedDate. cbn. rewrite Hs. split; [done|]. split; [done|].
    unfold transformHeaders, shiftedDate. rewrite Hs.
    apply elem_of_app. right. apply elem_of_cons. right. apply elem_of_cons. by left.
  - intros a b. unfold shiftedDate, time.Sub, time.Before, time.Add.
    cbn [time.unixNano].
    generalize (GmailTransformer.timeShift g0) (time.unixNano (EnronEmail.Date a))
      (time.unixNano (EnronEmail.Date b)).
    intros s x y. split.
    + by replace (x + s - (y + s)) with (x - y) by lia.
    + destruct (Z.ltb_spec (x + s) (y + s)), (Z.ltb_spec x y); try done; lia.
Qed.

(** ** C10 and C5 *)
Lemma transformHeaders_length g enron :
  length (transformHeaders g enron)
  = (4 + (if EnronEmail.To enron is [] then 0 else 1)
       + (if EnronEmail.CC enron is [] then 0 else 1))%nat.
Proof.
  unfold transformHeaders.
  destruct (EnronEmail.To enron), (EnronEmail.CC enron); cbn [length Nat.ltb Nat.leb]; rewrite ?length_app; cbn [length]; lia.
Qed.

Lemma header4_short messages i m :
  messages !! i = Some m -> short_headers m -> header4 messages i = None.
Proof.
  intros Hm Hs. unfold header4. rewrite Hm. simpl.
  rewrite (lookup_ge_None_2 _ 4%nat); [done|]. unfold short_headers in Hs. lia.
Qed.

(** C10: when the directory and the first two files can be written,
    [GenerateTestData] panics while building the metadata, after those
    two files and before returning anything, if the message list is
    empty or its first or its last message has fewer than five headers
    (a message transformed from a record without To and Cc has four, by
    [transformHeaders_length]). *)
Theorem GenerateTestData_panics fs messages outputDir :
  io_succeeds fs outputDir ->
  messages = []
  \/ (exists m, head messages = Some m /\ short_headers m)
  \/ (exists m, last messages = Some m /\ short_headers m) ->
  testMetadata messages = None /\
  GenerateTestData fs messages outputDir
  = Panicked [ ("gmail_messages.json", MessagesFile messages);
               ("list_messages_response.json", ListFile (listResponse messages)) ].
Proof.
  intros (Hd & Hw1 & Hw2) Hshort.
  assert (Hmeta : testMetadata messages = None).
  { unfold testMetadata. destruct Hshort as [->|[(m & Hm & Hs)|(m & Hm & Hs)]].
    - done.
    - rewrite (header4_short messages 0 m); [done| |done].
      by rewrite <- head_lookup.
    - destruct (header4 messages 0); simpl; [|done].
      rewrite (header4_short messages (length messages - 1) m); [done| |done].
      rewrite last_lookup in Hm. by replace (length messages - 1)%nat with (pred (length messages)) by lia. }
  split; [done|]. unfold GenerateTestData. by rewrite Hd, Hw1, Hw2, Hmeta.
Qed.


(** ** The indexed reads of the source stay in range *)

(** [parts[1]] in [transformEmailAddress] is read only when the address
    holds an [@]. *)
Lemma Split_at_second s :
  strings.Contains s "@" = true -> is_Some (strings.Split s "@" !! 1%nat).
Proof.
  unfold strings.Split.
  assert (H : strings.Contains s "@" = true -> (strings.Split_go "@" 0 s).2 <> []).
  { induction s as [|c s IH]; [done|].
    cbn [strings.Contains strings.Split_go String.prefix String.length Nat.sub].
    destruct (ascii_dec "@" c) as [_|_].
    - destruct s; cbn [String.prefix]; intros _;
        by destruct (strings.Split_go "@" 0 _).
    - intros Hc. specialize (IH Hc). by destruct (strings.Split_go "@" 0 s). }
  intros Hc. specialize (H Hc).
  destruct (strings.Split_go "@" 0 s) as [h [|x t]]; [done|]. by exists x.
Qed.

(** [extractServiceName] is applied to the four service literals only. *)
Example service_names :
  extractServiceName <$> serviceEmails
  = [Some "Github"; Some "Linkedin"; Some "United"; Some "Mint"].
Proof. vm_compute. reflexivity. Qed.

(** ** The embedded library on sample texts *)

Example transformBody_sample :
  transformBody runtime.forward (scenario_run runtime.forward).1
    "Ask Alice@Enron.com (cc: bob@enron.com, vince.kaminski@enron.com) about ENRON=20stock &amp; Enron."
  = "Ask sarah.chen@gmail.com (cc: alex.r@gmail.com, test@example.com) about TECHCORP stock & TechCorp.".
Proof. vm_compute. reflexivity. Qed.

Example emailRegex_backtracks :
  regexp.ReplaceAllStringFunc emailRegex "to a.b@c.co.uk. x@y z@w.q" (fun m => "<" +:+ m +:+ ">")
  = "to <a.b@c.co.uk>. x@y z@w.q".
Proof. vm_compute. reflexivity. Qed.

Example generateSnippet_quote :
  generateSnippet ("  See   attached." +:+ newline +:+ newline +:+ "> old text") = "See attached. > old text".
Proof. vm_compute. reflexivity. Qed.

Example FormatRFC1123Z_sample :
  time.FormatRFC1123Z (time.mkTime (978307200 * time.Second) (-21600))
  = "Sun, 31 Dec 2000 18:00:00 -0600".
Proof. vm_compute. reflexivity. Qed.

Example sort_Strings_sample :
  sort.Strings ["bob@enron.com"; "Alice@enron.com"; "alice@enron.com"; "bob"]
  = ["Alice@enron.com"; "alice@enron.com"; "bob"; "bob@enron.com"].
Proof. vm_compute. reflexivity. Qed.


(** ** The key set of the persona map *)

Lemma assignContacts_dom contacts : forall i pm,
  dom (assignContacts i contacts pm)
  = dom pm ∪ list_to_set (contact.email <$> contacts).
Proof.
  induction contacts as [|c cs IH]; intros i pm; simpl.
  - set_solver.
  - rewrite IH, dom_insert_L. set_solver.
Qed.

Lemma assignService_dom (emails : list string) : forall pm,
  dom (fold_left assignService emails pm) = dom pm ∪ list_to_set emails.
Proof.
  induction emails as [|e es IH]; intros pm; simpl.
  - set_solver.
  - rewrite IH. unfold assignService. rewrite dom_insert_L. set_solver.
Qed.

Lemma assignPersonas_dom contacts g :
  dom (GmailTransformer.personaMap (assignPersonas contacts g))
  = dom (GmailTransformer.personaMap g)
    ∪ list_to_set (contact.email <$> contacts) ∪ list_to_set serviceEmails.
Proof.
  unfold assignPersonas. cbn [GmailTransformer.personaMap GmailTransformer.set_personaMap].
  by rewrite assignService_dom, assignContacts_dom.
Qed.

Lemma buildPersonaMap_dom rt emails g :
  runtime.valid rt ->
  dom (GmailTransformer.personaMap (buildPersonaMap rt emails g))
  = dom (GmailTransformer.personaMap g) ∪ dom (contactFreq g emails)
    ∪ list_to_set serviceEmails.
Proof.
  intros [Hrt _]. unfold buildPersonaMap. rewrite assignPersonas_dom.
  f_equal. f_equal.
  apply set_eq. intros k.
  rewrite elem_of_list_to_set, list_elem_of_fmap, elem_of_dom.
  setoid_rewrite (Slice_Permutation byCountDesc).
  setoid_rewrite list_elem_of_In. setoid_rewrite in_map_iff.
  setoid_rewrite <- list_elem_of_In. setoid_rewrite (Hrt (contactFreq g emails)).
  split.
  - intros (c & -> & [k' n] & <- & Hin). apply elem_of_map_to_list in Hin. by exists n.
  - intros [n Hn]. exists (contact.mk k n). split; [done|].
    exists (k, n). split; [done|]. by apply elem_of_map_to_list.
Qed.

Lemma valid_forward : runtime.valid runtime.forward.
Proof. by split. Qed.

Lemma valid_backward : runtime.valid runtime.backward.
Proof.
  split; intros; unfold runtime.backward; simpl; symmetry; apply Permutation_rev.
Qed.

(** ** C1: the end-to-end scenario *)

Lemma getThreadCount_ids messages :
  getThreadCount messages
  = size (fold_left (fun (threads : gmap string bool) id => <[id := true]> threads)
            (GmailMessage.ThreadId <$> messages) ∅).
Proof.
  unfold getThreadCount. generalize (∅ : gmap string bool).
  induction messages as [|m ms IH]; intros acc; [done|].
  rewrite fmap_cons. cbn [fold_left]. apply IH.
Qed.

Lemma scenario_sorted : sort.Slice byDate scenario = scenario.
Proof. vm_compute. reflexivity. Qed.

Lemma scenario_contacts :
  dom (contactFreq (NewGmailTransformer clock "kaminski" "test@example.com") scenario)
  = ({[A; B; C]} : gset string).
Proof. vm_compute. reflexivity. Qed.

(** C1, as the specification states it, fails on the code: the three records land in
    three threads, and the persona map also holds the four service
    addresses. *)
Lemma scenario_as_specified_fails :
  ~ scenario_as_specified (scenario_run runtime.forward).
Proof.
  intros (Hthreads & _). vm_compute in Hthreads. discriminate.
Qed.

Lemma message_of_ids rt g emails :
  GmailMessage.Id <$> map (message_of rt g) emails
  = map (fun e => generateGmailID (EnronEmail.MessageID e)) emails /\
  GmailMessage.ThreadId <$> map (message_of rt g) emails
  = map (fun e => generateThreadID (threadKey e)) emails.
Proof.
  induction emails as [|e es [IH1 IH2]]; [done|].
  cbn [map]. rewrite !fmap_cons, IH1, IH2. done.
Qed.

(** C1, amended: whatever order the runtime ranges over maps in, the
    scenario yields three messages with three distinct ids, three distinct
    thread ids (the reply's participant list differs from the original's,
    so it opens a thread of its own), and a persona map whose keys are
    exactly A, B, C and the four service addresses. *)
Theorem scenario_three_threads_seven_personas (rt : runtime.t) :
  runtime.valid rt ->
  let r := scenario_run rt in
  GmailMessage.Id <$> r.2 = ["a92f3da3191c1022"; "870f55e6278ae38f"; "04b1ffcdc2145b32"] /\
  GmailMessage.ThreadId <$> r.2
    = ["cf8f64e19e1f57d5"; "5016d96c1afd8933"; "150e887d4d5a4474"] /\
  NoDup (GmailMessage.Id <$> r.2) /\ NoDup (GmailMessage.ThreadId <$> r.2) /\
  getThreadCount r.2 = 3%nat /\
  dom (TransformStats.PersonaMap (GmailTransformer.stats r.1))
    = ({[A; B; C]} ∪ list_to_set serviceEmails : gset string).
Proof.
  intros Hrt r. subst r. unfold scenario_run, main_transform.
  change (hd EmptyString (strings.Split "kaminski-v" "-")) with "kaminski".
  set (g0 := NewGmailTransformer clock "kaminski" "test@example.com").
  destruct (TransformDataset_spec rt g0 scenario (NewGmailTransformer_cache_ok _ _ _))
    as (Hmsgs & _ & Hpm).
  rewrite scenario_sorted in Hmsgs, Hpm.
  destruct (message_of_ids rt (buildPersonaMap rt scenario g0) scenario) as [Hid Hth].
  rewrite <- Hmsgs in Hid, Hth.
  assert (Hth' : GmailMessage.ThreadId <$> (TransformDataset rt g0 scenario).2
                 = ["cf8f64e19e1f57d5"; "5016d96c1afd8933"; "150e887d4d5a4474"]).
  { rewrite Hth. vm_compute. reflexivity. }
  assert (Hid' : GmailMessage.Id <$> (TransformDataset rt g0 scenario).2
                 = ["a92f3da3191c1022"; "870f55e6278ae38f"; "04b1ffcdc2145b32"]).
  { rewrite Hid. vm_compute. reflexivity. }
  split; [exact Hid'|]. split; [exact Hth'|].
  split; [rewrite Hid'; apply (bool_decide_unpack _); vm_compute; exact I|].
  split; [rewrite Hth'; apply (bool_decide_unpack _); vm_compute; exact I|].
  split.
  - rewrite getThreadCount_ids, Hth'. vm_compute. reflexivity.
  - rewrite Hpm, (buildPersonaMap_dom rt scenario g0 Hrt).
    subst g0. rewrite scenario_contacts.
    change (GmailTransformer.personaMap (NewGmailTransformer clock "kaminski" "test@example.com"))
      with (∅ : gmap string TestPersona.t).
    rewrite dom_empty_L. set_solver.
Qed.

(** C1, amended, on the forward runtime. *)
Lemma scenario_three_threads_seven_personas_witness :
  runtime.valid runtime.forward /\
  getThreadCount (scenario_run runtime.forward).2 = 3%nat.
Proof.
  split; [exact valid_forward|].
  exact (proj1 (proj2 (proj2 (proj2 (proj2
    (scenario_three_threads_seven_personas runtime.forward valid_forward)))))).
Defined.

(** ** C2: ties in the ranking *)

(** C2 fails on the code: [buildPersonaMap] collects the contacts by
    ranging over a map and sorts them by count alone.  The record [budget]
    gives [A] and [B] one occurrence each; one admissible iteration order
    hands the first roster entry to [A], another hands it to [B]. *)
Theorem tied_contacts_follow_map_order :
  runtime.valid runtime.forward /\ runtime.valid runtime.backward /\
  contactFreq (NewGmailTransformer clock "kaminski" "test@example.com") [budget] !! A = Some 1%nat /\
  contactFreq (NewGmailTransformer clock "kaminski" "test@example.com") [budget] !! B = Some 1%nat /\
  personaOf (run_of runtime.forward [budget]) A = Some "Sarah Chen" /\
  personaOf (run_of runtime.forward [budget]) B = Some "David Kumar" /\
  personaOf (run_of runtime.backward [budget]) A = Some "David Kumar" /\
  personaOf (run_of runtime.backward [budget]) B = Some "Sarah Chen".
Proof.
  split; [exact valid_forward|]. split; [exact valid_backward|].
  repeat split; vm_compute; reflexivity.
Qed.

(** ** C5 and C10: the date range of the metadata *)

Lemma transformHeaders_lookup_4 g enron :
  transformHeaders g enron !! 4%nat
  = match EnronEmail.To enron, EnronEmail.CC enron with
    | [], [] => None
    | _ :: _, _ :: _ =>
        Some (Header.mk "Date" (time.FormatRFC1123Z (shiftedDate g enron)))
    | _, _ =>
        Some (Header.mk "Message-ID"
                ("<" +:+ generateGmailID (EnronEmail.MessageID enron) +:+ "@mail.gmail.com>"))
    end.
Proof.
  unfold transformHeaders.
  destruct (EnronEmail.To enron), (EnronEmail.CC enron); reflexivity.
Qed.

(** C5 fails on the code: the record [budget] has recipients but no Cc,
    so its fifth header is Message-ID and both ends of the date range are
    the message id, not the Date header's value. *)
Theorem dateRange_holds_message_id :
  let messages := (run_of runtime.forward [budget]).2 in
  Metadata.dateRange_start <$> testMetadata messages
    = Some "<a92f3da3191c1022@mail.gmail.com>" /\
  Metadata.dateRange_end <$> testMetadata messages
    = Some "<a92f3da3191c1022@mail.gmail.com>" /\
  head messages ≫= headerValue "Date" = Some "Thu, 31 Oct 2024 00:00:00 +0000" /\
  last messages ≫= headerValue "Date" = Some "Thu, 31 Oct 2024 00:00:00 +0000".
Proof. repeat split; vm_compute; reflexivity. Qed.

(** C10 on the one message made from a record without recipients. *)
Lemma GenerateTestData_panics_witness :
  io_succeeds fs_ok "out" /\
  GenerateTestData fs_ok (run_of runtime.forward [note_to_self]).2 "out"
  = Panicked
      [ ("gmail_messages.json", MessagesFile (run_of runtime.forward [note_to_self]).2);
        ("list_messages_response.json",
         ListFile (listResponse (run_of runtime.forward [note_to_self]).2)) ].
Proof.
  assert (Hio : io_succeeds fs_ok "out") by (by repeat split).
  split; [exact Hio|].
  refine (proj2 (GenerateTestData_panics fs_ok _ "out" Hio _)).
  right. left.
  exists (default (GmailMessage.mk EmptyString EmptyString [] EmptyString EmptyString EmptyString 0
                     (MessagePart.mk EmptyString EmptyString EmptyString [] (MessageBody.mk 0 EmptyString)))
            (head (run_of runtime.forward [note_to_self]).2)).
  split; [vm_compute; reflexivity|].
  unfold short_headers. vm_compute. lia.
Defined.


(** ** C6: what the frequency table counts *)

Lemma countEmail_fold g emails : forall freq,
  fold_left (countEmail g) emails freq
  = fold_left (countAddress g) (emails ≫= counted) freq.
Proof.
  induction emails as [|e es IH]; intros freq; [done|].
  cbn [fold_left]. rewrite IH. unfold countEmail, counted.
  rewrite bind_cons, fold_left_app. done.
Qed.

Lemma countAddress_fold g addresses addr : forall freq,
  fold_left (countAddress g) addresses freq !! addr
  = if countable g addr
    then match occurrences addresses addr with
         | O => freq !! addr
         | S n => Some (default 0%nat (freq !! addr) + S n)%nat
         end
    else freq !! addr.
Proof.
  unfold occurrences.
  induction addresses as [|x xs IH]; intros freq.
  - cbn. by destruct (countable g addr).
  - cbn [fold_left]. rewrite IH. rewrite filter_cons.
    assert (Hx : countAddress g freq x !! addr
                 = if decide (extractEmail x = addr)
                   then if countable g addr
                        then Some (S (default 0%nat (freq !! addr)))
                        else freq !! addr
                   else freq !! addr).
    { unfold countAddress. fold (countable g (extractEmail x)).
      destruct (decide (extractEmail x = addr)) as [->|Hne].
      - destruct (countable g addr); [|done]. unfold incr. by rewrite lookup_insert_eq.
      - destruct (countable g (extractEmail x)); [|done].
        unfold incr. by rewrite lookup_insert_ne. }
    rewrite Hx. clear Hx.
    destruct (decide (extractEmail x = addr)) as [Heq|Hne];
      destruct (countable g addr); try done.
    cbn [length default]. unfold id. destruct (length (filter _ xs)); f_equal; lia.
Qed.

(** C6, as the specification states it, fails: [copied] has [C] in Cc,
    and the table has no entry for [C]. *)
Lemma counts_every_recipient_fails :
  ~ counts_every_recipient (NewGmailTransformer clock "kaminski" "test@example.com") [copied].
Proof.
  intros H. specialize (H C eq_refl). vm_compute in H. discriminate.
Qed.

(** C6, amended: an address's counter is the number of times it is the
    sender or a To entry of a record, one increment per occurrence, for
    every non-empty address that does not contain the owner fragment;
    such an address has no entry when it never occurs there, and Cc and
    Bcc entries are not read. *)
Theorem contactFreq_counts_sender_and_to g emails addr :
  contactFreq g emails !! addr
  = if countable g addr
    then match occurrences (emails ≫= counted) addr with
         | O => None
         | S n => Some (S n)
         end
    else None.
Proof.
  unfold contactFreq. rewrite countEmail_fold, countAddress_fold.
  rewrite lookup_empty. destruct (countable g addr); [|done].
  destruct (occurrences (emails ≫= counted) addr); [done|]. cbn [default]. f_equal; lia.
Qed.


(** ** C3: one persona per address *)

(** The Cc recipient of [copied] is not in the persona map: its header is
    rewritten to a generated name, its literal in the body stays. *)
Example copied_transformed :
  let m := default (GmailMessage.mk EmptyString EmptyString [] EmptyString EmptyString EmptyString 0
                      (MessagePart.mk EmptyString EmptyString EmptyString [] (MessageBody.mk 0 EmptyString)))
             (head (run_of runtime.forward [copied]).2) in
  headerValue "Cc" m = Some "Carol <carol@example.com>" /\
  headerValue "To" m = Some "You <test@example.com>" /\
  headerValue "From" m = Some "Sarah Chen <sarah.chen@gmail.com>" /\
  GmailMessage.Snippet m = "Carol (carol@enron.com) has the numbers.".
Proof. repeat split; vm_compute; reflexivity. Qed.

(** C3, as the specification states it, fails. *)
Lemma persona_stable_fails : ~ persona_stable (run_of runtime.forward [copied]).1.
Proof.
  intros H. specialize (H C C eq_refl). vm_compute in H. discriminate.
Qed.

(** *** What an address is written as *)

Lemma identity_lookups g addr p :
  identity_of g addr = Some p ->
  (forall header, extractEmail header = addr ->
     transformEmailAddress g header = rendered p) /\
  (forall literal, strings.ToLower literal = addr ->
     replaceAddress g literal = TestPersona.Email p).
Proof.
  unfold identity_of. intros Hp. split.
  - intros header <-. unfold transformEmailAddress.
    destruct (strings.Contains _ _); [by injection Hp as <-|by rewrite Hp].
  - intros literal <-. unfold replaceAddress.
    destruct (strings.Contains _ _); [by injection Hp as <-|by rewrite Hp].
Qed.

Lemma identity_of_config g g' addr :
  same_config g g' -> identity_of g' addr = identity_of g addr.
Proof. intros (_ & Hp & Hu & Hn). unfold identity_of. by rewrite Hp, Hu, Hn. Qed.

Lemma replace_go_ext r f f' s : forall skip fresh prev,
  (forall x, f x = f' x) ->
  regexp.replace_go r f skip fresh prev s = regexp.replace_go r f' skip fresh prev s.
Proof.
  intros skip fresh prev Hf. revert skip fresh prev.
  induction s as [|c s IH]; intros skip fresh prev; cbn [regexp.replace_go].
  - by rewrite Hf.
  - destruct skip as [|[|k]]; [|apply IH..].
    destruct (regexp.match_here r prev (String c s)) as [[|[|n]]|];
      rewrite ?Hf, ?IH; reflexivity.
Qed.

Lemma headerValue_From rt g e :
  headerValue "From" (message_of rt g e) = Some (transformEmailAddress g (EnronEmail.From e)).
Proof.
  unfold headerValue, message_of. cbn [GmailMessage.Payload MessagePart.Headers].
  unfold transformHeaders. destruct (EnronEmail.To e), (EnronEmail.CC e); reflexivity.
Qed.

Lemma headerValue_To rt g e :
  EnronEmail.To e <> [] ->
  headerValue "To" (message_of rt g e) = Some (transformEmailList g (EnronEmail.To e)).
Proof.
  intros Hto. unfold headerValue, message_of. cbn [GmailMessage.Payload MessagePart.Headers].
  unfold transformHeaders. destruct (EnronEmail.To e); [done|].
  destruct (EnronEmail.CC e); reflexivity.
Qed.

Lemma headerValue_Cc rt g e :
  EnronEmail.CC e <> [] ->
  headerValue "Cc" (message_of rt g e) = Some (transformEmailList g (EnronEmail.CC e)).
Proof.
  intros Hcc. unfold headerValue, message_of. cbn [GmailMessage.Payload MessagePart.Headers].
  unfold transformHeaders. destruct (EnronEmail.CC e); [done|].
  destruct (EnronEmail.To e); reflexivity.
Qed.

Lemma transformEmailAddress_config g g' h :
  same_config g g' -> transformEmailAddress g' h = transformEmailAddress g h.
Proof. intros (_ & Hp & Hu & Hn). unfold transformEmailAddress. by rewrite Hp, Hu, Hn. Qed.

Lemma replaceAddress_config g g' x :
  same_config g g' -> replaceAddress g' x = replaceAddress g x.
Proof. intros (_ & Hp & Hu & Hn). unfold replaceAddress. by rewrite Hp, Hu, Hn. Qed.

Lemma contactFreq_corresponds g emails addr :
  countable g addr = true -> corresponds emails addr ->
  is_Some (contactFreq g emails !! addr).
Proof.
  intros Hc (e & h & He & Hh & Hx).
  unfold contactFreq. rewrite countEmail_fold, countAddress_fold, Hc.
  assert (Hocc : h ∈ filter (fun x => extractEmail x = addr) (emails ≫= counted)).
  { apply list_elem_of_filter. split; [done|]. apply list_elem_of_bind. eauto. }
  unfold occurrences.
  destruct (filter (fun x => extractEmail x = addr) (emails ≫= counted)) as [|y ys];
    [by apply elem_of_nil in Hocc|].
  cbn [length]. eauto.
Qed.

Lemma corresponds_Permutation emails emails' addr :
  emails ≡ₚ emails' -> corresponds emails addr -> corresponds emails' addr.
Proof. intros Hp (e & h & He & Hh). exists e, h. by rewrite <- Hp. Qed.

Lemma message_written_as rt g1 g addr p e :
  same_config g1 g ->
  identity_of g1 addr = Some p ->
  written_as rt g addr p e (message_of rt g1 e).
Proof.
  intros Hcfg Hp.
  destruct (identity_lookups g1 addr p Hp) as [Hh Hb].
  assert (He : forall h, transformEmailAddress g1 h = entry_as g addr p h).
  { intros h. unfold entry_as. destruct (decide (extractEmail h = addr)) as [Hx|_].
    - by apply Hh.
    - symmetry. by apply transformEmailAddress_config. }
  assert (Hl : forall l, transformEmailList g1 l = strings.Join (map (entry_as g addr p) l) ", ").
  { intros l. unfold transformEmailList. f_equal. apply map_ext. intros h. apply He. }
  assert (Hbody : transformBody rt g1 (EnronEmail.Body e) = body_as rt g addr p (EnronEmail.Body e)).
  { unfold transformBody, body_as, regexp.ReplaceAllStringFunc. do 2 f_equal.
    apply replace_go_ext. intros x.
    destruct (decide (strings.ToLower x = addr)) as [Hx|_].
    - by apply Hb.
    - symmetry. by apply replaceAddress_config. }
  repeat split.
  - by rewrite headerValue_From, He.
  - intros Hto. by rewrite headerValue_To, Hl.
  - intros Hcc. by rewrite headerValue_Cc, Hl.
  - cbn [message_of GmailMessage.Payload MessagePart.Body MessageBody.Data]. by rewrite Hbody.
  - cbn [message_of GmailMessage.Snippet]. by rewrite Hbody.
Qed.

(** C3, amended.  In a run, (1) a header entry is rewritten as a function
    of its extracted address alone, so all header occurrences of one
    address read the same; (2) an address that holds the owner fragment,
    or is not empty and is the sender or a To entry of some record, or is
    a service address, stands for one identity [p] (the test user for
    the owner's, else its entry in the realised persona map), and every
    message of the run writes it as [p] at every place: sender, To and
    Cc entries become name and address of [p], and every literal of the
    body matched by the address pattern whose lower-casing is the address
    becomes the address of [p].  Addresses that occur only in Cc, Bcc or
    bodies are not in the map. *)
Theorem run_address_one_persona rt now user testEmail emails addr :
  let g0 := NewGmailTransformer now user testEmail in
  let r := TransformDataset rt g0 emails in
  runtime.valid rt ->
  strings.Contains addr user = true
  \/ (addr <> EmptyString /\ corresponds emails addr)
  \/ addr ∈ serviceEmails ->
  (forall h h', extractEmail h = extractEmail h' ->
     transformEmailAddress r.1 h = transformEmailAddress r.1 h') /\
  exists p,
    identity_of r.1 addr = Some p /\
    (strings.Contains addr user = false ->
     TransformStats.PersonaMap (GmailTransformer.stats r.1) !! addr = Some p) /\
    exists sorted, sorted ≡ₚ emails /\ Forall2 (written_as rt r.1 addr p) sorted r.2.
Proof.
  intros g0 r Hrt Hocc.
  split.
  { intros h h' Hh. unfold transformEmailAddress. by rewrite Hh. }
  pose proof (TransformDataset_spec rt g0 emails (NewGmailTransformer_cache_ok _ _ _))
    as (Hmsgs & Hcfg & Hstats).
  cbn zeta in Hmsgs, Hcfg, Hstats. fold r in Hmsgs, Hcfg, Hstats.
  set (sorted := sort.Slice byDate emails) in *.
  set (g1 := buildPersonaMap rt sorted g0) in *.
  assert (Hperm : sorted ≡ₚ emails) by apply Slice_Permutation.
  assert (Huser : GmailTransformer.enronUserName g1 = user).
  { unfold g1. by destruct (buildPersonaMap_config rt sorted g0) as (_ & _ & _ & ->). }
  assert (Hid : exists p, identity_of g1 addr = Some p /\
                  (strings.Contains addr user = false ->
                   GmailTransformer.personaMap g1 !! addr = Some p)).
  { unfold identity_of. rewrite Huser.
    destruct (strings.Contains addr user) eqn:Hown;
      [eexists; split; [reflexivity|done]|].
    assert (Hc : countable g0 addr = true -> corresponds emails addr \/ addr ∈ serviceEmails ->
                 addr ∈ dom (GmailTransformer.personaMap g1)).
    { intros Hc Hin. unfold g1. rewrite (buildPersonaMap_dom rt sorted g0 Hrt).
      destruct Hin as [Hin|Hs].
      - apply elem_of_union_l, elem_of_union_r, elem_of_dom.
        apply contactFreq_corresponds; [done|].
        by apply (corresponds_Permutation emails).
      - by apply elem_of_union_r, elem_of_list_to_set. }
    assert (Hin : addr ∈ dom (GmailTransformer.personaMap g1)).
    { destruct Hocc as [Hocc|[[Hne Hocc]|Hs]]; [done| |].
      - apply Hc; [|by left].
        unfold countable. change (GmailTransformer.enronUserName g0) with user.
        rewrite Hown. by destruct (String.eqb_spec addr EmptyString).
      - apply Hc; [|by right].
        unfold countable. change (GmailTransformer.enronUserName g0) with user.
        rewrite Hown. destruct (String.eqb_spec addr EmptyString) as [->|]; [|done].
        exfalso. revert Hs. clear. intros Hs.
        repeat (apply elem_of_cons in Hs as [Hs|Hs]; [discriminate|]).
        by apply elem_of_nil in Hs. }
    apply elem_of_dom in Hin as [p Hp]. eauto. }
  destruct Hid as (p & Hp & Hmap).
  exists p. split; [by rewrite (identity_of_config g1 r.1)|].
  split; [by rewrite Hstats|].
  exists sorted. split; [done|]. rewrite Hmsgs.
  apply Forall2_fmap_r, Forall_Forall2_diag, Forall_forall.
  intros e _. by apply message_written_as.
Qed.

(** The record [mention] after a run with [budget]: [A], counted as a To
    entry of [budget], is written as one persona in the Cc header and in
    the body. *)
Example mention_transformed :
  let m := default (GmailMessage.mk EmptyString EmptyString [] EmptyString EmptyString EmptyString 0
                      (MessagePart.mk EmptyString EmptyString EmptyString [] (MessageBody.mk 0 EmptyString)))
             (last (run_of runtime.forward [budget; mention]).2) in
  personaOf (run_of runtime.forward [budget; mention]) A = Some "David Kumar" /\
  headerValue "Cc" m = Some "David Kumar <david.kumar@techcorp.com>" /\
  GmailMessage.Snippet m = "Ask david.kumar@techcorp.com about the figures.".
Proof. repeat split; vm_compute; reflexivity. Qed.

(** C3, amended, for [A] in a run on [budget] and [mention]. *)
Lemma run_address_one_persona_witness :
  let r := TransformDataset runtime.forward
             (NewGmailTransformer clock "kaminski" "test@example.com") [budget; mention] in
  (forall h h', extractEmail h = extractEmail h' ->
     transformEmailAddress r.1 h = transformEmailAddress r.1 h') /\
  exists p,
    identity_of r.1 A = Some p /\
    (strings.Contains A "kaminski" = false ->
     TransformStats.PersonaMap (GmailTransformer.stats r.1) !! A = Some p) /\
    exists sorted, sorted ≡ₚ [budget; mention] /\
      Forall2 (written_as runtime.forward r.1 A p) sorted r.2.
Proof.
  apply (run_address_one_persona runtime.forward clock "kaminski" "test@example.com"
           [budget; mention] A).
  - exact valid_forward.
  - right. left. split; [discriminate|].
    exists budget, A. split; [apply list_elem_of_here|].
    split; [|vm_compute; reflexivity].
    apply list_elem_of_further, list_elem_of_here.
Defined.


(** ** Strings *)

Lemma append_nil_l (t : string) : EmptyString +:+ t = t.
Proof. reflexivity. Qed.

Lemma append_cons (c : ascii) (s t : string) : String c s +:+ t = String c (s +:+ t).
Proof. reflexivity. Qed.

Lemma length_append (s t : string) :
  String.length (s +:+ t) = (String.length s + String.length t)%nat.
Proof.
  induction s as [|c s IH]; [done|].
  rewrite append_cons. cbn [String.length]. by rewrite IH.
Qed.

Lemma append_assoc (s t u : string) : (s +:+ t) +:+ u = s +:+ (t +:+ u).
Proof.
  induction s as [|c s IH]; [done|]. rewrite !append_cons. by rewrite IH.
Qed.

Lemma append_nil_r (s : string) : s +:+ EmptyString = s.
Proof.
  induction s as [|c s IH]; [done|]. rewrite append_cons. by rewrite IH.
Qed.

Lemma take_skip_while f s : take_while f s +:+ skip_while f s = s.
Proof.
  induction s as [|c s IH]; [done|]. cbn [take_while skip_while].
  destruct (f c); [|done]. rewrite append_cons. by rewrite IH.
Qed.

Lemma is_s_space c : regexp.is_s c = true -> strings.is_space c = true.
Proof. destruct c as [[] [] [] [] [] [] [] []]; vm_compute; congruence. Qed.

Lemma TrimLeft_skip_s s : strings.TrimLeft (skip_while regexp.is_s s) = strings.TrimLeft s.
Proof.
  induction s as [|c s IH]; simpl; [done|].
  destruct (regexp.is_s c) eqn:Hc; [|done].
  by rewrite (is_s_space c Hc).
Qed.

(** ** The matcher on the patterns of the source *)

Lemma star_class_greedy f s : forall fuel prev o,
  (String.length s < fuel)%nat ->
  regexp.star (fun k p => regexp.step_if f k p) (fun p => Some (regexp.off p)) fuel
    (regexp.Pos prev s o)
  = Some (o + String.length (take_while f s))%nat.
Proof.
  induction s as [|c s IH]; intros fuel prev o Hfuel.
  - destruct fuel;
      cbn [regexp.star regexp.step_if regexp.rest regexp.off take_while String.length];
      f_equal; lia.
  - cbn [String.length] in Hfuel. destruct fuel as [|fuel]; [lia|].
    cbn [regexp.star regexp.step_if regexp.rest take_while].
    destruct (f c).
    + unfold regexp.advance. cbn [regexp.off].
      rewrite (proj2 (Nat.ltb_lt o (S o))) by lia.
      rewrite IH by lia. cbn [String.length]. f_equal. lia.
    + cbn [String.length regexp.off]. f_equal. lia.
Qed.

Lemma replace_go_skip r repl w : forall t c fresh prev,
  regexp.replace_go r repl (S (String.length w)) fresh prev (String c w +:+ t)
  = regexp.replace_go r repl 0 false (last_char (Some c) w) t.
Proof.
  induction w as [|a w IH]; intros t c fresh prev.
  - reflexivity.
  - rewrite append_cons. cbn [String.length regexp.replace_go].
    rewrite IH. reflexivity.
Qed.

Lemma prefixes_need_start c s : regexp.match_here prefixes (Some c) s = None.
Proof. reflexivity. Qed.

Lemma replace_go_anchored repl t : forall fresh c,
  regexp.replace_go prefixes repl 0 fresh (Some c) t = t.
Proof.
  induction t as [|a t IH]; intros fresh c.
  - cbn [regexp.replace_go]. by rewrite prefixes_need_start.
  - cbn [regexp.replace_go]. rewrite prefixes_need_start. by rewrite IH.
Qed.

Lemma prefixes_match p s :
  p ∈ listed_prefixes ->
  regexp.match_here prefixes None (p +:+ s)
  = Some (String.length p + String.length (take_while regexp.is_s s))%nat.
Proof.
  unfold listed_prefixes. rewrite !elem_of_cons, elem_of_nil.
  intros [->|[->|[->|[->|[->|[]]]]]];
    unfold regexp.match_here, prefixes;
    rewrite !append_cons, append_nil_l;
    cbn -[regexp.star String.length take_while];
    unfold regexp.advance; cbn [regexp.off];
    rewrite star_class_greedy by lia; cbn [String.length]; f_equal; lia.
Qed.

Lemma last_char_Some w : forall c, exists c', last_char (Some c) w = Some c'.
Proof.
  unfold last_char. induction w as [|a w IH]; intros c; cbn; eauto.
Qed.

Lemma replace_go_skip_run r repl f s c :
  match String.length (take_while f s) with
  | O => regexp.replace_go r repl 0 false (Some c) s
  | S k => regexp.replace_go r repl (S k) true (Some c) s
  end
  = regexp.replace_go r repl 0 false (last_char (Some c) (take_while f s)) (skip_while f s).
Proof.
  destruct s as [|a s]; [done|]. cbn [take_while skip_while].
  destruct (f a); [|done]. cbn [String.length].
  replace (String a s) with (String a (take_while f s) +:+ skip_while f s)
    by (by rewrite append_cons, take_skip_while).
  by rewrite replace_go_skip.
Qed.

Lemma ReplaceAllString_prefixes p s :
  p ∈ listed_prefixes ->
  regexp.ReplaceAllString prefixes (p +:+ s) EmptyString = skip_while regexp.is_s s.
Proof.
  intros Hp. unfold regexp.ReplaceAllString, regexp.ReplaceAllStringFunc.
  pose proof (prefixes_match p s Hp) as Hm. revert Hp Hm.
  unfold listed_prefixes. rewrite !elem_of_cons, elem_of_nil.
  intros [->|[->|[->|[->|[->|[]]]]]]; rewrite !append_cons, append_nil_l;
    intros Hm; cbn [regexp.replace_go]; rewrite Hm; cbn [String.length Nat.add];
    rewrite append_nil_l, (replace_go_skip_run _ _ regexp.is_s);
    destruct (last_char_Some (take_while regexp.is_s s) ":") as [c' ->];
    apply replace_go_anchored.
Qed.

(** ** C4: the subject used for threading *)

(** C4, as the specification states it, fails: a lower-case prefix is
    kept. *)
Lemma strips_any_casing_fails : ~ strips_any_casing.
Proof.
  intros H. specialize (H "re:" " Budget").
  assert (Hp : reply_prefix "re:") by (unfold reply_prefix; vm_compute; set_solver).
  specialize (H Hp). vm_compute in H. discriminate.
Qed.

(** C4, amended: the five spellings Re:, RE:, Fwd:, FW: and Fw:, and no
    other casing, are stripped from the start of a subject, once; what
    follows is trimmed and lower-cased. *)
Theorem cleanSubject_strips_listed_prefix p s :
  p ∈ listed_prefixes ->
  cleanSubjectForThreading (p +:+ s) = strings.ToLower (strings.TrimSpace s).
Proof.
  intros Hp. unfold cleanSubjectForThreading.
  rewrite (ReplaceAllString_prefixes p s Hp).
  unfold strings.TrimSpace. by rewrite TrimLeft_skip_s.
Qed.

(** C4, amended, on a forwarded subject. *)
Lemma cleanSubject_strips_listed_prefix_witness :
  ("FW:" : string) ∈ listed_prefixes /\
  cleanSubjectForThreading "FW:  Budget Review " = "budget review".
Proof.
  assert (Hp : ("FW:" : string) ∈ listed_prefixes) by (unfold listed_prefixes; set_solver).
  split; [exact Hp|].
  exact (cleanSubject_strips_listed_prefix "FW:" "  Budget Review " Hp).
Defined.


(** ** Slices and trimming *)

Lemma take_0 s : strings.take 0 s = EmptyString.
Proof. by destruct s. Qed.

Lemma take_S n c s : strings.take (S n) (String c s) = String c (strings.take n s).
Proof. reflexivity. Qed.

Lemma take_length n : forall s,
  (n <= String.length s)%nat -> String.length (strings.take n s) = n.
Proof.
  induction n as [|n IH]; intros s Hn; [by rewrite take_0|].
  destruct s as [|c s]; cbn [String.length] in Hn; [lia|].
  rewrite take_S. cbn [String.length]. rewrite IH; lia.
Qed.

Lemma take_append n : forall s t,
  (n <= String.length s)%nat -> strings.take n (s +:+ t) = strings.take n s.
Proof.
  induction n as [|n IH]; intros s t Hn; [by rewrite !take_0|].
  destruct s as [|c s]; cbn [String.length] in Hn; [lia|].
  rewrite append_cons, !take_S. rewrite IH; [done|lia].
Qed.

Lemma TrimLeft_head s c r :
  strings.TrimLeft s = String c r -> strings.is_space c = false.
Proof.
  induction s as [|a s IH]; cbn [strings.TrimLeft]; [done|].
  destruct (strings.is_space a) eqn:Ha; [done|]. congruence.
Qed.

Lemma TrimRight_head s c r :
  strings.TrimRight s = String c r -> exists r', s = String c r'.
Proof.
  destruct s as [|a s]; cbn [strings.TrimRight]; [done|].
  destruct (strings.TrimRight s); [destruct (strings.is_space a)|];
    intros H; inversion H; eauto.
Qed.

Lemma TrimSpace_head s c r :
  strings.TrimSpace s = String c r -> strings.is_space c = false.
Proof.
  unfold strings.TrimSpace. intros H.
  destruct (TrimRight_head _ _ _ H) as [r' Hr]. by eapply TrimLeft_head.
Qed.

Lemma TrimRight_ellipsis x : strings.TrimRight (x +:+ "...") = x +:+ "...".
Proof.
  induction x as [|c x IH]; [reflexivity|].
  rewrite append_cons. cbn [strings.TrimRight]. rewrite IH.
  destruct (x +:+ "...") eqn:Hx; [|done].
  apply (f_equal String.length) in Hx. rewrite length_append in Hx.
  cbn [String.length] in Hx. lia.
Qed.

Lemma TrimSpace_fixed c x :
  strings.is_space c = false ->
  strings.TrimSpace (String c x +:+ "...") = String c x +:+ "...".
Proof.
  intros Hc. unfold strings.TrimSpace. rewrite append_cons.
  cbn [strings.TrimLeft]. rewrite Hc. rewrite <- append_cons. apply TrimRight_ellipsis.
Qed.

(** ** The whitespace collapse *)

Lemma whitespace_match prev c s :
  regexp.match_here whitespace prev (String c s)
  = if regexp.is_s c then Some (S (String.length (take_while regexp.is_s s))) else None.
Proof.
  unfold regexp.match_here, whitespace, regexp.Plus.
  cbn -[regexp.star String.length take_while].
  destruct (regexp.is_s c); [|done].
  unfold regexp.advance. cbn [regexp.off]. by rewrite star_class_greedy by lia.
Qed.

Lemma all_chars_append f s t :
  all_chars f (s +:+ t) = all_chars f s && all_chars f t.
Proof.
  induction s as [|c s IH]; [done|].
  rewrite append_cons. cbn [all_chars]. by rewrite IH, andb_assoc.
Qed.

Lemma collapse_kept s : forall skip fresh prev,
  all_chars kept (regexp.replace_go whitespace (fun _ => " ") skip fresh prev s) = true.
Proof.
  induction s as [|c s IH]; intros skip fresh prev.
  - cbn [regexp.replace_go]. by destruct skip.
  - cbn [regexp.replace_go]. destruct skip as [|[|k]]; [|apply IH..].
    rewrite whitespace_match. destruct (regexp.is_s c) eqn:Hc.
    + destruct (String.length (take_while regexp.is_s s));
        rewrite all_chars_append, IH; reflexivity.
    + cbn [all_chars]. rewrite IH. unfold kept. by rewrite Hc.
Qed.

Lemma collapsed_kept body : all_chars kept (collapsed body) = true.
Proof. apply collapse_kept. Qed.

Lemma collapsed_head body :
  collapsed body <> EmptyString ->
  exists c r, collapsed body = String c r /\ strings.is_space c = false.
Proof.
  unfold collapsed, regexp.ReplaceAllString, regexp.ReplaceAllStringFunc.
  destruct (strings.TrimSpace body) as [|c t] eqn:Ht; [done|].
  intros _. pose proof (TrimSpace_head _ _ _ Ht) as Hc.
  cbn [regexp.replace_go]. rewrite whitespace_match.
  destruct (regexp.is_s c) eqn:Hs; [by rewrite (is_s_space c Hs) in Hc|].
  eauto.
Qed.

Lemma Split_kept s : all_chars kept s = true -> strings.Split s newline = [s].
Proof.
  intros Hs. unfold strings.Split.
  assert (H : strings.Split_go newline 0 s = (s, [])).
  { induction s as [|c s IH]; [done|].
    cbn [all_chars] in Hs. apply andb_true_iff in Hs as [Hc Hs].
    cbn [strings.Split_go]. unfold newline at 1. cbn [String.prefix].
    destruct (ascii_dec "010" c) as [<-|_]; [done|].
    by rewrite (IH Hs). }
  by rewrite H.
Qed.

(** ** C7: the snippet of a long body *)

(** C7, as the specification states it, fails: a 250-character body that
    is a short line followed by padding yields the short line. *)
Lemma truncates_to_100_fails : ~ truncates_to_100.
Proof.
  intros H. destruct (H padded_note) as [Hlen _].
  - vm_compute. reflexivity.
  - split; vm_compute; reflexivity.
  - vm_compute in Hlen. discriminate.
Qed.

(** C7, amended: when the trimmed, whitespace-collapsed body still has at
    least 100 characters and shows no quoted-reply marker, the snippet is
    its first 97 characters followed by "...", 100 characters in all. *)
Theorem snippet_of_long_text body :
  (100 <= String.length (collapsed body))%nat ->
  strings.HasPrefix (collapsed body) ">" = false ->
  strings.Contains (collapsed body) originalMessage = false ->
  generateSnippet body = strings.take 97 (collapsed body) +:+ "..." /\
  String.length (generateSnippet body) = 100%nat.
Proof.
  intros Hlen Hquote Hbanner.
  assert (Hsnip : generateSnippet body = strings.take 97 (collapsed body) +:+ "...").
  { unfold generateSnippet. fold (collapsed body).
    rewrite (Split_kept _ (collapsed_kept body)).
    cbn [snippetLoop]. rewrite Hquote, Hbanner. cbn [orb].
    rewrite append_nil_l.
    assert (Hl : String.length (collapsed body +:+ " ") = S (String.length (collapsed body))).
    { rewrite length_append. cbn [String.length]. lia. }
    assert (Hgt : (100 <? String.length (collapsed body +:+ " "))%nat = true).
    { apply Nat.ltb_lt. lia. }
    rewrite Hgt. rewrite Hgt.
    rewrite take_append by lia.
    destruct (collapsed_head body) as (c & r & Hc & Hsp).
    { intros He. rewrite He in Hlen. cbn [String.length] in Hlen. lia. }
    rewrite Hc. rewrite take_S. by apply TrimSpace_fixed. }
  split; [exact Hsnip|].
  rewrite Hsnip, length_append, take_length by lia. reflexivity.
Qed.

(** C7, amended, on 250 characters of running text. *)
Lemma snippet_of_long_text_witness :
  String.length long_note = 250%nat /\
  String.length (generateSnippet long_note) = 100%nat.
Proof.
  split; [vm_compute; reflexivity|].
  refine (proj2 (snippet_of_long_text long_note _ _ _)).
  - vm_compute. lia.
  - vm_compute. reflexivity.
  - vm_compute. reflexivity.
Defined.


(** * Further properties of the code *)

(** ** Trimming *)

Lemma TrimRight_idem s : strings.TrimRight (strings.TrimRight s) = strings.TrimRight s.
Proof.
  induction s as [|c s IH]; [done|]. cbn [strings.TrimRight].
  destruct (strings.TrimRight s) as [|a r] eqn:Hr.
  - destruct (strings.is_space c) eqn:Hc; [done|].
    cbn [strings.TrimRight]. by rewrite Hc.
  - cbn [strings.TrimRight]. cbn [strings.TrimRight] in IH.
    destruct (strings.TrimRight r) eqn:Hr'.
    + destruct (strings.is_space a); [done|]. by rewrite IH.
    + by rewrite IH.
Qed.

Lemma TrimLeft_TrimRight s :
  strings.TrimLeft s = s -> strings.TrimLeft (strings.TrimRight s) = strings.TrimRight s.
Proof.
  intros Hs. destruct (strings.TrimRight s) as [|c r] eqn:Hr; [done|].
  destruct (TrimRight_head _ _ _ Hr) as [r' ->].
  cbn [strings.TrimLeft] in *. destruct (strings.is_space c) eqn:Hc; [|done].
  exfalso. apply (f_equal String.length) in Hs. cbn [String.length] in Hs.
  assert (H : forall t, (String.length (strings.TrimLeft t) <= String.length t)%nat).
  { induction t as [|a t IH]; cbn [strings.TrimLeft String.length]; [lia|].
    destruct (strings.is_space a); cbn [String.length]; lia. }
  specialize (H r'). lia.
Qed.

Lemma TrimLeft_idem s : strings.TrimLeft (strings.TrimLeft s) = strings.TrimLeft s.
Proof.
  induction s as [|c s IH]; [done|]. cbn [strings.TrimLeft].
  destruct (strings.is_space c) eqn:Hc; [done|]. cbn [strings.TrimLeft]. by rewrite Hc.
Qed.

Lemma TrimSpace_idem s : strings.TrimSpace (strings.TrimSpace s) = strings.TrimSpace s.
Proof.
  unfold strings.TrimSpace.
  rewrite (TrimLeft_TrimRight (strings.TrimLeft s)) by apply TrimLeft_idem.
  apply TrimRight_idem.
Qed.

(** ** [parseRecipientList] *)

Lemma parseRecipientList_filter value :
  parseRecipientList value
  = filter (fun r => r <> EmptyString) (strings.TrimSpace <$> strings.Split value ",").
Proof.
  unfold parseRecipientList.
  assert (H : forall parts acc,
             fold_left
               (fun recipients part =>
                  let cleaned := strings.TrimSpace part in
                  if String.eqb cleaned EmptyString then recipients else recipients ++ [cleaned])
               parts acc
             = acc ++ filter (fun r => r <> EmptyString) (strings.TrimSpace <$> parts)).
  { induction parts as [|p ps IH]; intros acc; cbn [fold_left].
    - by rewrite app_nil_r.
    - rewrite IH, fmap_cons, filter_cons. cbn zeta.
      destruct (String.eqb_spec (strings.TrimSpace p) EmptyString) as [He|Hne].
      + rewrite decide_False by (intros Hc; by apply Hc). done.
      + rewrite decide_True by done. by rewrite <- app_assoc. }
  apply (H _ []).
Qed.

(** X1: every entry of a parsed recipient list is non-empty and carries
    no whitespace at either end; the entries are the trimmed,
    comma-separated pieces of the header value, in order, the empty ones
    left out. *)
Theorem parseRecipientList_entries value :
  parseRecipientList value
  = filter (fun r => r <> EmptyString) (strings.TrimSpace <$> strings.Split value ",") /\
  Forall (fun r => r <> EmptyString /\ strings.TrimSpace r = r) (parseRecipientList value).
Proof.
  split; [apply parseRecipientList_filter|].
  rewrite parseRecipientList_filter. apply Forall_forall. intros r Hr.
  apply list_elem_of_filter in Hr as [Hne Hr].
  apply list_elem_of_fmap in Hr as (p & -> & _).
  split; [done|apply TrimSpace_idem].
Qed.


(** ** Slices of a concatenation *)

Lemma take_all s : strings.take (String.length s) s = s.
Proof.
  induction s as [|c s IH]; [done|]. cbn [String.length]. by rewrite take_S, IH.
Qed.

Lemma take_app_length a b : strings.take (String.length a) (a +:+ b) = a.
Proof. rewrite take_append by lia. apply take_all. Qed.

Lemma substring_skip n m c s : String.substring (S n) m (String c s) = String.substring n m s.
Proof. reflexivity. Qed.

Lemma drop_app_length a b : strings.drop (String.length a) (a +:+ b) = b.
Proof.
  unfold strings.drop. rewrite length_append.
  replace (String.length a + String.length b - String.length a)%nat
    with (String.length b) by lia.
  induction a as [|c a IH]; [apply take_all|].
  rewrite append_cons. cbn [String.length]. by rewrite substring_skip.
Qed.

Lemma Index_first name sep rest_ :
  strings.Contains name (String sep EmptyString) = false ->
  strings.Index (name +:+ String sep rest_) (String sep EmptyString)
  = Some (String.length name).
Proof.
  induction name as [|c name IH]; intros Hc.
  - rewrite append_nil_l. cbn [strings.Index String.prefix].
    destruct (ascii_dec sep sep); [|done]. by destruct rest_.
  - rewrite append_cons. cbn [strings.Contains strings.Index String.prefix] in *.
    destruct (ascii_dec sep c).
    + destruct name; discriminate.
    + rewrite (IH Hc). reflexivity.
Qed.

Lemma SplitN2_colon name v :
  strings.Contains name ":" = false -> SplitN2 (name +:+ ":" +:+ v) ":" = [name; v].
Proof.
  intros Hc. unfold SplitN2. change (":" +:+ v) with (String ":" v).
  rewrite (Index_first name ":" v Hc). change (String ":" v) with (":" +:+ v).
  rewrite take_app_length. f_equal. f_equal.
  replace (name +:+ ":" +:+ v) with ((name +:+ ":") +:+ v) by (by rewrite append_assoc).
  replace (String.length name + String.length ":")%nat with (String.length (name +:+ ":"))
    by (by rewrite length_append).
  apply drop_app_length.
Qed.

(** ** [parseEnronFile] *)

Section ParserFacts.

Variable parse : string -> string -> option time.Time.
Variable now : time.Time.

Lemma scan_body bs : forall e b h v,
  fold_left (scanLine parse now) bs (Scan e false b h v)
  = Scan e false (b +:+ unlines bs) h v.
Proof.
  induction bs as [|l bs IH]; intros e b h v; cbn [fold_left unlines].
  - by rewrite append_nil_r.
  - unfold scanLine at 2. cbn [inHeaders email body currentHeader currentValue].
    rewrite IH. by rewrite !append_assoc.
Qed.

Lemma scan_headers hs : forall s,
  Forall (fun l => l <> EmptyString) hs ->
  inHeaders s = true ->
  inHeaders (fold_left (scanLine parse now) hs s) = true /\
  body (fold_left (scanLine parse now) hs s) = body s.
Proof.
  induction hs as [|l hs IH]; intros s Hhs Hin; [done|].
  apply Forall_cons in Hhs as [Hl Hhs]. cbn [fold_left].
  assert (Hstep : inHeaders (scanLine parse now s l) = true /\
                  body (scanLine parse now s l) = body s).
  { unfold scanLine. rewrite Hin. rewrite (proj2 (String.eqb_neq l EmptyString) Hl).
    destruct (strings.HasPrefix l " " || strings.HasPrefix l (String "009" EmptyString)); [done|].
    by destruct (SplitN2 l ":") as [|? [|? [|? ?]]]. }
  destruct Hstep as [Hin' Hb'].
  destruct (IH _ Hhs Hin') as [Hin'' Hb'']. split; [done|congruence].
Qed.

Lemma scanLine_blank s :
  inHeaders s = true ->
  scanLine parse now s EmptyString = Scan (commit parse now s) false (body s) (currentHeader s) (currentValue s).
Proof. intros Hin. unfold scanLine. by rewrite Hin. Qed.

Lemma scanLine_opens s l :
  inHeaders s = true -> opens_header l ->
  email (scanLine parse now s l) = commit parse now s /\ body (scanLine parse now s l) = body s.
Proof.
  intros Hin (Hl & Hsp & Htab). unfold scanLine.
  rewrite Hin, (proj2 (String.eqb_neq l EmptyString) Hl).
  unfold tab in Htab. rewrite Hsp, Htab. cbn [orb].
  by destruct (SplitN2 l ":") as [|? [|? [|? ?]]].
Qed.

Lemma parseLines_blank path hs :
  Forall (fun l => l <> EmptyString) hs ->
  parseLines parse now path (hs ++ [EmptyString])
  = set_Body EmptyString (commit parse now (fold_left (scanLine parse now) hs
                                     (Scan (emptyEmail path) true EmptyString EmptyString EmptyString))).
Proof.
  intros Hhs. unfold parseLines. rewrite fold_left_app. cbn [fold_left].
  destruct (scan_headers hs (Scan (emptyEmail path) true EmptyString EmptyString EmptyString) Hhs eq_refl) as [Hin Hb].
  cbn [body] in Hb.
  rewrite scanLine_blank by done. cbn [email body]. by rewrite Hb.
Qed.

(** X2: the body of a parsed file is what follows the first blank line,
    every line newline-terminated (blank lines of the body included), and
    those lines change no other field of the record. *)
Theorem parseLines_body path hs bs :
  Forall (fun l => l <> EmptyString) hs ->
  parseLines parse now path (hs ++ EmptyString :: bs)
  = set_Body (unlines bs) (parseLines parse now path (hs ++ [EmptyString])).
Proof.
  intros Hhs. rewrite parseLines_blank by done.
  unfold parseLines. rewrite fold_left_app. cbn [fold_left].
  destruct (scan_headers hs (Scan (emptyEmail path) true EmptyString EmptyString EmptyString) Hhs eq_refl) as [Hin Hb].
  cbn [body] in Hb.
  rewrite scanLine_blank by done.
  rewrite scan_body. cbn [email body]. rewrite Hb. by rewrite append_nil_l.
Qed.

(** X3: a header is committed only when the next header line or the
    blank line is read.  When a file ends in a line that opens a header,
    with no blank line anywhere, that last header is lost: the record is
    the one the file has with the header line replaced by a blank line. *)
Theorem parseLines_last_header_lost path hs l :
  Forall (fun l => l <> EmptyString) hs ->
  opens_header l ->
  parseLines parse now path (hs ++ [l]) = parseLines parse now path (hs ++ [EmptyString]).
Proof.
  intros Hhs Hl. rewrite parseLines_blank by done.
  unfold parseLines. rewrite fold_left_app. cbn [fold_left].
  destruct (scan_headers hs (Scan (emptyEmail path) true EmptyString EmptyString EmptyString) Hhs eq_refl) as [Hin Hb].
  cbn [body] in Hb.
  destruct (scanLine_opens _ l Hin Hl) as [-> ->]. by rewrite Hb.
Qed.

Lemma processHeader_set_Body e h v b :
  processHeader parse now (set_Body b e) h v = set_Body b (processHeader parse now e h v).
Proof. unfold processHeader. repeat case_match; reflexivity. Qed.

Lemma scan_continuations conts : forall e h v,
  Forall continues conts ->
  fold_left (scanLine parse now) conts (Scan e true EmptyString h v)
  = Scan e true EmptyString h (fold_left (fun acc c => acc +:+ " " +:+ strings.TrimSpace c) conts v).
Proof.
  induction conts as [|c conts IH]; intros e h v Hc; [done|].
  apply Forall_cons in Hc as [Hc Hcs]. cbn [fold_left].
  unfold scanLine at 2. cbn [inHeaders email body currentHeader currentValue].
  unfold continues, tab in Hc. rewrite Hc.
  assert (Hne : String.eqb c EmptyString = false).
  { apply String.eqb_neq. intros ->. discriminate Hc. }
  rewrite Hne. by rewrite IH.
Qed.

(** X4: header lines compose.  A header line [name:v] continued by
    lines that begin with a space or a tab, and closed by the blank
    line, is applied as one header on top of the record the earlier
    header lines give: its name trimmed, its value the trimmed pieces
    joined by single spaces. *)
Theorem parseLines_folded_header path hs name v conts :
  Forall (fun l => l <> EmptyString) hs ->
  opens_header (name +:+ ":" +:+ v) ->
  strings.Contains name ":" = false ->
  strings.TrimSpace name <> EmptyString ->
  Forall continues conts ->
  parseLines parse now path (hs ++ (name +:+ ":" +:+ v) :: conts ++ [EmptyString])
  = processHeader parse now (parseLines parse now path (hs ++ [EmptyString]))
      (strings.TrimSpace name) (folded v conts).
Proof.
  intros Hhs (Hl & Hsp & Htab) Hcolon Hname Hconts.
  rewrite parseLines_blank by done. rewrite processHeader_set_Body.
  unfold parseLines. rewrite fold_left_app. cbn [fold_left].
  destruct (scan_headers hs (Scan (emptyEmail path) true EmptyString EmptyString EmptyString) Hhs eq_refl) as [Hin Hb].
  cbn [body] in Hb.
  set (s := fold_left (scanLine parse now) hs (Scan (emptyEmail path) true EmptyString EmptyString EmptyString)) in *.
  assert (Hfirst : scanLine parse now s (name +:+ ":" +:+ v)
                   = Scan (commit parse now s) true EmptyString (strings.TrimSpace name)
                       (strings.TrimSpace v)).
  { unfold scanLine. rewrite Hin, (proj2 (String.eqb_neq _ EmptyString) Hl).
    unfold tab in Htab. rewrite Hsp, Htab. cbn [orb].
    rewrite (SplitN2_colon name v Hcolon). by rewrite Hb. }
  rewrite Hfirst, fold_left_app, scan_continuations by done. cbn [fold_left].
  rewrite scanLine_blank by done. cbn [email body]. unfold commit at 1.
  cbn [currentHeader currentValue email]. rewrite (proj2 (String.eqb_neq _ EmptyString) Hname).
  reflexivity.
Qed.

End ParserFacts.

Lemma parseLines_last_header_lost_witness :
  EnronEmail.Subject
    (parseLines (fun _ _ => None) clock "f" (["Message-ID: <1>"] ++ ["Subject: lost"])) = EmptyString.
Proof.
  rewrite (parseLines_last_header_lost (fun _ _ => None) clock "f" ["Message-ID: <1>"]
             "Subject: lost"); [reflexivity| |by repeat split].
  repeat constructor; discriminate.
Defined.

Lemma parseLines_body_witness :
  EnronEmail.Body
    (parseLines (fun _ _ => None) clock "f"
       (["Subject: hello"; " world"] ++ EmptyString :: ["line one"; EmptyString; "line two"]))
  = "line one" +:+ newline +:+ newline +:+ "line two" +:+ newline.
Proof.
  rewrite (parseLines_body (fun _ _ => None) clock "f" ["Subject: hello"; " world"]);
    [reflexivity|repeat constructor; discriminate].
Defined.

Lemma parseLines_folded_header_witness :
  EnronEmail.To
    (parseLines (fun _ _ => None) clock "f"
       (["Message-ID: <1>"] ++ ("To" +:+ ":" +:+ " a@enron.com,") :: [" b@enron.com"] ++ [EmptyString]))
  = ["a@enron.com"; "b@enron.com"].
Proof.
  rewrite (parseLines_folded_header (fun _ _ => None) clock "f" ["Message-ID: <1>"] "To"
             " a@enron.com," [" b@enron.com"]).
  - vm_compute. reflexivity.
  - repeat constructor; discriminate.
  - by repeat split.
  - reflexivity.
  - discriminate.
  - repeat constructor.
Defined.


(** ** [LoadEnronEmails] *)

Section LoaderFacts.

Variable parse : string -> string -> option time.Time.
Variable now : time.Time.
Variable d : disk.t.
Variable userPath : string.
Variable limit : Z.

Local Abbreviation ok := (loaded_ok parse now d userPath limit).

Lemma keep_ok l folder files file lines :
  ok l ->
  full limit l = false ->
  folder ∈ sourceFolders ->
  disk.ReadDir d (filepath_Join userPath folder) = Some files ->
  file ∈ files ->
  (if decide (folder = "all_documents")
   then Atoi_ok (TrimSuffix (DirEntry.Name file) ".") = true
   else DirEntry.IsDir file = false) ->
  disk.Open d (filepath_Join (filepath_Join userPath folder) (DirEntry.Name file)) = Some lines ->
  let email :=
    parseLines parse now (filepath_Join (filepath_Join userPath folder) (DirEntry.Name file))
      lines in
  seen l (EnronEmail.MessageID email) = false ->
  ok (keep l folder email).
Proof.
  intros (Hnd & Hseen & Hlen & Hdisk) Hfull Hfolder Hdir Hfile Hkind Hopen email Hnew.
  unfold keep, loaded_ok. cbn [emails]. repeat split.
  - rewrite fmap_app. apply NoDup_app. split; [done|]. split; [|apply NoDup_singleton].
    intros id Hid Hid'. apply list_elem_of_singleton in Hid'. subst id.
    apply list_elem_of_fmap in Hid as (e & He & Hin).
    specialize (Hseen e Hin).
    change (EnronEmail.MessageID email = EnronEmail.MessageID e) in He.
    rewrite <- He in Hseen. congruence.
  - intros e He. unfold seen. cbn [emailsSeen].
    apply elem_of_app in He as [He|He].
    + destruct (decide (EnronEmail.MessageID email = EnronEmail.MessageID e)) as [Heq|Hne].
      * by rewrite Heq, lookup_insert_eq.
      * rewrite lookup_insert_ne by done. by apply Hseen.
    + apply list_elem_of_singleton in He. subst e.
      change (EnronEmail.MessageID (set_UserFolder folder email)) with (EnronEmail.MessageID email).
      by rewrite lookup_insert_eq.
  - rewrite length_app. cbn [length]. unfold full in Hfull.
    apply Z.leb_gt in Hfull. lia.
  - apply Forall_app. split; [done|]. constructor; [|done].
    by exists folder, files, file, lines.
Qed.

Lemma loadFolder_ok folder files all l :
  folder ∈ priorityFolders ->
  disk.ReadDir d (filepath_Join userPath folder) = Some all ->
  files ⊆ all ->
  ok l ->
  ok (loadFolder parse now d limit folder (filepath_Join userPath folder) files l).1.
Proof.
  intros Hfolder Hdir. revert l.
  induction files as [|file rest IH]; intros l Hsub Hok; cbn [loadFolder]; [done|].
  assert (Hrest : rest ⊆ all) by set_solver.
  destruct (full limit l) eqn:Hfull; [done|].
  destruct (DirEntry.IsDir file) eqn:Hisdir; [by apply IH|].
  unfold parseEnronFile.
  destruct (disk.Open d _) as [lines|] eqn:Hopen; cbn [fmap option_fmap option_map];
    [|by apply IH].
  destruct (seen l _) eqn:Hseen; [by apply IH|].
  apply IH; [done|].
  apply (keep_ok l folder all file lines); try done.
  - unfold sourceFolders. set_solver.
  - set_solver.
  - rewrite decide_False; [done|]. intros ->. revert Hfolder. clear.
    unfold priorityFolders. rewrite !elem_of_cons, elem_of_nil. intros H.
    repeat destruct H as [H|H]; discriminate || done.
Qed.

Lemma loadPriority_ok folders l :
  folders ⊆ priorityFolders ->
  ok l ->
  ok (loadPriority parse now d limit userPath folders l).1.
Proof.
  revert l. induction folders as [|folder rest IH]; intros l Hsub Hok;
    cbn [loadPriority]; [done|].
  assert (Hrest : rest ⊆ priorityFolders) by set_solver.
  destruct (disk.ReadDir d (filepath_Join userPath folder)) as [files|] eqn:Hdir;
    [|by apply IH].
  pose proof (loadFolder_ok folder files files l) as Hf.
  destruct (loadFolder parse now d limit folder (filepath_Join userPath folder) files l)
    as [l' returned].
  cbn [fst] in Hf.
  assert (Hok' : ok l') by (apply Hf; [set_solver|done|done|done]).
  destruct returned; [done|by apply IH].
Qed.

Lemma loadAllDocuments_ok files all l :
  disk.ReadDir d (filepath_Join userPath "all_documents") = Some all ->
  files ⊆ all ->
  ok l ->
  ok (loadAllDocuments parse now d limit (filepath_Join userPath "all_documents") files l).
Proof.
  intros Hdir. revert l.
  induction files as [|file rest IH]; intros l Hsub Hok; cbn [loadAllDocuments]; [done|].
  assert (Hrest : rest ⊆ all) by set_solver.
  destruct (full limit l) eqn:Hfull; [done|].
  destruct (Atoi_ok _) eqn:Hnum; [|by apply IH].
  unfold parseEnronFile.
  destruct (disk.Open d _) as [lines|] eqn:Hopen; cbn [fmap option_fmap option_map];
    [|by apply IH].
  destruct (seen l _) eqn:Hseen; [by apply IH|].
  apply IH; [done|].
  apply (keep_ok l "all_documents" all file lines); try done.
  - unfold sourceFolders. set_solver.
  - set_solver.
Qed.

End LoaderFacts.

Lemma LoadEnronEmails_ok parse now d rootPath username limit :
  exists l,
    LoadEnronEmails parse now d rootPath username limit = emails l /\
    loaded_ok parse now d (filepath_Join rootPath username) limit l.
Proof.
  unfold LoadEnronEmails.
  set (userPath := filepath_Join rootPath username).
  assert (Hinit : loaded_ok parse now d userPath limit (Loaded [] ∅)).
  { repeat split; cbn; try constructor; [|lia]. intros e He. by apply elem_of_nil in He. }
  pose proof (loadPriority_ok parse now d userPath limit priorityFolders _
                (reflexivity _) Hinit) as Hp.
  destruct (loadPriority parse now d limit userPath priorityFolders (Loaded [] ∅))
    as [l returned]. cbn [fst] in Hp.
  destruct returned; [by exists l|].
  destruct (full limit l); [by exists l|].
  destruct (disk.ReadDir d (filepath_Join userPath "all_documents")) as [files|] eqn:Hdir;
    cbn [default].
  - eexists. split; [reflexivity|]. by eapply loadAllDocuments_ok.
  - by exists l.
Qed.

(** X5: the loader returns at most [limit] records, and none when the
    limit is zero or negative. *)
Theorem LoadEnronEmails_limit parse now d rootPath username limit :
  Z.of_nat (length (LoadEnronEmails parse now d rootPath username limit)) <= Z.max 0 limit.
Proof.
  destruct (LoadEnronEmails_ok parse now d rootPath username limit) as (l & -> & Hok).
  apply Hok.
Qed.

(** X6: no two loaded records carry the same Message-ID: a record whose
    id was already seen, in the same or in an earlier folder, is not
    loaded again. *)
Theorem LoadEnronEmails_NoDup parse now d rootPath username limit :
  NoDup (EnronEmail.MessageID <$> LoadEnronEmails parse now d rootPath username limit).
Proof.
  destruct (LoadEnronEmails_ok parse now d rootPath username limit) as (l & -> & Hok).
  apply Hok.
Qed.

(** X7: every loaded record is the parse of a file that is listed in one
    of the five folders the loader reads (sent_items, inbox,
    discussion_threads, personal, then all_documents) and could be opened; its
    [UserFolder] is that folder's name.  Directories of the priority
    folders are never opened, and of [all_documents] only entries whose
    name is a number (a trailing dot apart).  In particular a user none
    of whose folders can be read yields no record. *)
Theorem LoadEnronEmails_from_disk parse now d rootPath username limit :
  Forall (from_disk parse now d (filepath_Join rootPath username))
    (LoadEnronEmails parse now d rootPath username limit) /\
  ((forall folder, folder ∈ sourceFolders ->
      disk.ReadDir d (filepath_Join (filepath_Join rootPath username) folder) = None) ->
   LoadEnronEmails parse now d rootPath username limit = []).
Proof.
  destruct (LoadEnronEmails_ok parse now d rootPath username limit) as (l & Hl & Hok).
  assert (Hall : Forall (from_disk parse now d (filepath_Join rootPath username))
                   (LoadEnronEmails parse now d rootPath username limit)).
  { rewrite Hl. apply Hok. }
  split; [exact Hall|].
  intros Hnone. destruct (LoadEnronEmails _ _ _ _ _ _) as [|e es]; [done|].
  apply Forall_cons in Hall as [(folder & files & ? & ? & Hf & Hdir & _) _].
  rewrite (Hnone folder Hf) in Hdir. discriminate.
Qed.

Lemma LoadEnronEmails_from_disk_witness :
  (Forall (from_disk (fun _ _ => None) clock archive_disk "maildir/kaminski-v")
     (LoadEnronEmails (fun _ _ => None) clock archive_disk "maildir" "kaminski-v" 5000) /\
   map (fun e => (EnronEmail.MessageID e, EnronEmail.UserFolder e))
     (LoadEnronEmails (fun _ _ => None) clock archive_disk "maildir" "kaminski-v" 5000)
   = [("<1>", "inbox"); ("<2>", "all_documents")]) /\
  LoadEnronEmails (fun _ _ => None) clock unlisted_disk "maildir" "kaminski-v" 5000 = [].
Proof.
  split; [split|].
  - exact (proj1 (LoadEnronEmails_from_disk (fun _ _ => None) clock archive_disk
                    "maildir" "kaminski-v" 5000)).
  - vm_compute. reflexivity.
  - apply (proj2 (LoadEnronEmails_from_disk (fun _ _ => None) clock unlisted_disk
                    "maildir" "kaminski-v" 5000)).
    intros folder Hf. unfold sourceFolders, priorityFolders in Hf. cbn [app] in Hf.
    repeat (apply elem_of_cons in Hf as [->|Hf]; [vm_compute; reflexivity|]).
    by apply elem_of_nil in Hf.
Defined.


(** ** The insertion sort of package [sort] *)

Section InsertionSorted.

Context {A : Type} (less : A -> A -> bool) (key : A -> Z).
Hypothesis less_key : forall a b, less a b = (key a <? key b).

Lemma insert_descending x acc :
  StronglySorted (fun a b => key b <= key a) acc ->
  StronglySorted (fun a b => key b <= key a) (sort.insert less x acc).
Proof.
  induction 1 as [|y r Hr IH Hy]; cbn [sort.insert].
  - repeat constructor.
  - rewrite less_key. destruct (Z.ltb_spec (key x) (key y)) as [Hlt|Hge].
    + constructor; [exact IH|].
      apply Forall_forall. intros z Hz.
      rewrite (insert_Permutation less x r) in Hz.
      apply elem_of_cons in Hz as [->|Hz]; [lia|].
      by apply (proj1 (Forall_forall _ _) Hy).
    + constructor; [by constructor|].
      constructor; [exact Hge|].
      eapply Forall_impl; [exact Hy|]. cbn. intros z Hz. lia.
Qed.

Lemma Slice_sorted l :
  StronglySorted (fun a b => key a <= key b) (sort.Slice less l).
Proof.
  unfold sort.Slice.
  assert (H : forall acc,
             StronglySorted (fun a b => key b <= key a) acc ->
             StronglySorted (fun a b => key b <= key a)
               (fold_left (fun sorted x => sort.insert less x sorted) l acc)).
  { induction l as [|x r IH]; intros acc Hacc; cbn [fold_left]; [done|].
    apply IH. by apply insert_descending. }
  specialize (H [] (SSorted_nil _)).
  revert H. generalize (fold_left (fun sorted x => sort.insert less x sorted) l []).
  induction 1 as [|y r Hr IH Hy]; cbn [rev]; [constructor|].
  apply StronglySorted_app. split; [|split; [exact IH|repeat constructor]].
  intros a b Ha Hb. apply list_elem_of_singleton in Hb. subst b.
  apply list_elem_of_In, in_rev, list_elem_of_In in Ha.
  by apply (proj1 (Forall_forall _ _) Hy).
Qed.

End InsertionSorted.

Lemma byDate_key a b :
  byDate a b = (time.unixNano (EnronEmail.Date a) <? time.unixNano (EnronEmail.Date b)).
Proof. reflexivity. Qed.

Lemma byCountDesc_key a b :
  byCountDesc a b = (- Z.of_nat (contact.count a) <? - Z.of_nat (contact.count b)).
Proof.
  unfold byCountDesc.
  destruct (Nat.ltb_spec (contact.count b) (contact.count a)),
    (Z.ltb_spec (- Z.of_nat (contact.count a)) (- Z.of_nat (contact.count b))); try done; lia.
Qed.

(** ** A run, end to end *)

(** X8: a run of the transformer on a fresh instance returns one message
    per input record, in non-decreasing order of the records' dates:
    the output is the record-by-record image of the input sorted by
    date. *)
Theorem TransformDataset_in_date_order rt now user testEmail emails :
  let g0 := NewGmailTransformer now user testEmail in
  exists sorted,
    sorted ≡ₚ emails /\
    StronglySorted
      (fun a b => time.unixNano (EnronEmail.Date a) <= time.unixNano (EnronEmail.Date b))
      sorted /\
    (TransformDataset rt g0 emails).2 = map (message_of rt (buildPersonaMap rt sorted g0)) sorted.
Proof.
  intros g0. exists (sort.Slice byDate emails).
  split; [apply Slice_Permutation|].
  split; [apply (Slice_sorted byDate _ byDate_key)|].
  apply TransformDataset_spec, NewGmailTransformer_cache_ok.
Qed.

Lemma transformEmail_effects rt g enron :
  let r := transformEmail rt g enron in
  GmailTransformer.stats r.1 = GmailTransformer.stats g /\
  dom (GmailTransformer.threadCache r.1)
  = dom (GmailTransformer.threadCache g) ∪ {[threadKey enron]}.
Proof.
  unfold transformEmail.
  set (g1 := GmailTransformer.set_messageIDMap _ g).
  unfold getOrCreateThreadID.
  destruct (GmailTransformer.threadCache g1 !! threadKey enron) as [v|] eqn:Hc;
    cbn [fst snd GmailTransformer.stats GmailTransformer.threadCache
         GmailTransformer.set_threadCache]; (split; [done|]).
  - assert (threadKey enron ∈ dom (GmailTransformer.threadCache g1))
      by (apply elem_of_dom; eauto).
    change (GmailTransformer.threadCache g1) with (GmailTransformer.threadCache g) in *.
    set_solver.
  - rewrite dom_insert_L.
    change (GmailTransformer.threadCache g1) with (GmailTransformer.threadCache g).
    set_solver.
Qed.

Lemma transformStep_fold_effects rt emails : forall g out,
  let r := fold_left (transformStep rt) emails (g, out) in
  let s := GmailTransformer.stats g in
  let s' := GmailTransformer.stats r.1 in
  TransformStats.TotalProcessed s' = (TransformStats.TotalProcessed s + length emails)%nat /\
  TransformStats.TotalTransformed s' = (TransformStats.TotalTransformed s + length emails)%nat /\
  TransformStats.Errors s' = TransformStats.Errors s /\
  dom (GmailTransformer.threadCache r.1)
  = dom (GmailTransformer.threadCache g) ∪ list_to_set (threadKey <$> emails).
Proof.
  induction emails as [|e es IH]; intros g out; cbn [fold_left].
  - cbn. repeat split; try lia. set_solver.
  - pose proof (transformEmail_effects rt (count_processed g) e) as He.
    destruct (transformEmail rt (count_processed g) e) as [g1 m] eqn:Hte.
    cbn [fst] in He. destruct He as [Hs Hd].
    assert (Hstep : transformStep rt (g, out) e = (count_transformed g1, out ++ [m])).
    { unfold transformStep; cbn [fst snd]. by rewrite Hte. }
    rewrite Hstep.
    destruct (IH (count_transformed g1) (out ++ [m])) as (Hp & Ht & Her & Hdom).
    cbn zeta. rewrite Hp, Ht, Her, Hdom.
    cbn [count_transformed GmailTransformer.stats GmailTransformer.set_stats
         GmailTransformer.threadCache TransformStats.TotalProcessed
         TransformStats.TotalTransformed TransformStats.Errors].
    rewrite Hs.
    change (GmailTransformer.threadCache (count_transformed g1))
      with (GmailTransformer.threadCache g1).
    rewrite Hd.
    cbn [count_processed GmailTransformer.stats GmailTransformer.set_stats
         GmailTransformer.threadCache TransformStats.TotalProcessed
         TransformStats.TotalTransformed TransformStats.Errors length].
    rewrite fmap_cons.
    repeat split; try lia. set_solver.
Qed.

(** X9: after a run on a fresh instance the statistics say that every
    record was processed and transformed, the error list is empty (no
    path of [transformEmail] fails), and [ThreadCount] is the number of
    distinct thread keys among the records. *)
Theorem TransformDataset_stats rt now user testEmail emails :
  let r := TransformDataset rt (NewGmailTransformer now user testEmail) emails in
  let s := GmailTransformer.stats r.1 in
  length r.2 = length emails /\
  TransformStats.TotalProcessed s = length emails /\
  TransformStats.TotalTransformed s = length emails /\
  TransformStats.Errors s = [] /\
  TransformStats.ThreadCount s = size (list_to_set (threadKey <$> emails) : gset string).
Proof.
  intros r s. subst s r.
  set (g0 := NewGmailTransformer now user testEmail).
  pose proof (TransformDataset_spec rt g0 emails (NewGmailTransformer_cache_ok _ _ _))
    as (Hmsgs & _ & _).
  cbn zeta in Hmsgs.
  assert (Hlen : length (sort.Slice byDate emails) = length emails)
    by (by rewrite (Slice_Permutation byDate emails)).
  split; [by rewrite Hmsgs, length_map|].
  unfold TransformDataset.
  set (sorted := sort.Slice byDate emails) in *.
  set (g1 := buildPersonaMap rt sorted g0).
  pose proof (transformStep_fold_effects rt sorted g1 []) as He.
  destruct (fold_left (transformStep rt) sorted (g1, [])) as [g2 out].
  cbn [fst snd] in *. cbn zeta in He. destruct He as (Hp & Ht & Her & Hdom).
  cbn [finish_stats GmailTransformer.stats GmailTransformer.set_stats
       TransformStats.TotalProcessed TransformStats.TotalTransformed
       TransformStats.Errors TransformStats.ThreadCount].
  rewrite Hp, Ht, Her, Hlen.
  repeat split.
  rewrite <- size_dom, Hdom.
  change (GmailTransformer.threadCache g1) with (∅ : gmap string string).
  rewrite dom_empty_L, (left_id_L ∅ (∪)).
  f_equal. apply set_eq. intros k.
  rewrite !elem_of_list_to_set. unfold sorted.
  by rewrite (Slice_Permutation byDate emails).
Qed.


(** ** The thread cache *)

(** X10: thread ids are memoized.  After a record was given its thread
    id, any record with the same thread key gets that same id from the
    cache, and the call leaves the transformer as it was. *)
Theorem getOrCreateThreadID_memo g e e' :
  threadKey e' = threadKey e ->
  let first := getOrCreateThreadID g e in
  getOrCreateThreadID first.1 e' = (first.1, first.2).
Proof.
  intros Hk first. subst first. unfold getOrCreateThreadID. rewrite Hk.
  destruct (GmailTransformer.threadCache g !! threadKey e) as [v|] eqn:Hc; cbn [fst snd].
  - by rewrite Hc.
  - cbn [GmailTransformer.threadCache GmailTransformer.set_threadCache].
    by rewrite lookup_insert_eq.
Qed.

Lemma getOrCreateThreadID_memo_witness :
  getOrCreateThreadID (getOrCreateThreadID (scenario_run runtime.forward).1 budget).1 budget
  = ((getOrCreateThreadID (scenario_run runtime.forward).1 budget).1,
     (getOrCreateThreadID (scenario_run runtime.forward).1 budget).2).
Proof. exact (getOrCreateThreadID_memo _ budget budget eq_refl). Defined.

(** ** Ranks and personas *)

Lemma assignContacts_lookup_other contacts : forall i pm k,
  k ∉ contact.email <$> contacts ->
  assignContacts i contacts pm !! k = pm !! k.
Proof.
  induction contacts as [|c cs IH]; intros i pm k Hk; cbn [assignContacts]; [done|].
  rewrite fmap_cons in Hk. apply not_elem_of_cons in Hk as [Hne Hk].
  rewrite IH by done. by rewrite lookup_insert_ne.
Qed.

Lemma assignContacts_lookup contacts : forall i0 pm i c,
  NoDup (contact.email <$> contacts) ->
  contacts !! i = Some c ->
  assignContacts i0 contacts pm !! contact.email c
  = Some (personaAt (i0 + i) (contact.email c)).
Proof.
  induction contacts as [|c0 cs IH]; intros i0 pm i c Hnd Hi; [done|].
  rewrite fmap_cons in Hnd. apply NoDup_cons in Hnd as [Hc0 Hnd].
  cbn [assignContacts]. destruct i as [|i].
  - injection Hi as ->. rewrite assignContacts_lookup_other by done.
    rewrite lookup_insert_eq, Nat.add_0_r. reflexivity.
  - cbn in Hi. rewrite (IH (S i0) _ i c Hnd Hi). do 2 f_equal. lia.
Qed.


Lemma assignService_fold_lookup emails : forall pm k,
  fold_left assignService emails pm !! k
  = if decide (k ∈ emails) then Some (servicePersona k) else pm !! k.
Proof.
  induction emails as [|e es IH]; intros pm k; cbn [fold_left].
  - rewrite decide_False; [done|]. apply not_elem_of_nil.
  - rewrite IH. unfold assignService. fold (servicePersona e).
    destruct (decide (k ∈ es)) as [Hin|Hnin].
    + rewrite decide_True; [done|]. rewrite elem_of_cons. tauto.
    + destruct (decide (k = e)) as [->|Hne].
      * rewrite decide_True by (rewrite elem_of_cons; tauto). by rewrite lookup_insert_eq.
      * rewrite decide_False by (rewrite elem_of_cons; tauto).
        by rewrite lookup_insert_ne.
Qed.

Lemma assignPersonas_lookup contacts g :
  NoDup (contact.email <$> contacts) ->
  (forall i c, contacts !! i = Some c -> contact.email c ∉ serviceEmails ->
     GmailTransformer.personaMap (assignPersonas contacts g) !! contact.email c
     = Some (personaAt i (contact.email c))) /\
  (forall s, s ∈ serviceEmails ->
     GmailTransformer.personaMap (assignPersonas contacts g) !! s = Some (servicePersona s)).
Proof.
  intros Hnd. unfold assignPersonas.
  cbn [GmailTransformer.personaMap GmailTransformer.set_personaMap]. split.
  - intros i c Hi Hs. rewrite assignService_fold_lookup, decide_False by done.
    by rewrite (assignContacts_lookup contacts 0 _ i c Hnd Hi).
  - intros s Hs. by rewrite assignService_fold_lookup, decide_True.
Qed.

(** X11: personas follow rank.  For contacts with distinct addresses,
    the contact at index [i] that is not a service address gets the
    roster entry [i], or past the ten roster entries a generated persona
    named after its local part with the address contact<i>@example.com;
    every service address gets its service persona, whatever the
    contacts are. *)
Theorem assignPersonas_by_rank contacts g :
  NoDup (contact.email <$> contacts) ->
  (forall i c, contacts !! i = Some c -> contact.email c ∉ serviceEmails ->
     GmailTransformer.personaMap (assignPersonas contacts g) !! contact.email c
     = Some (personaAt i (contact.email c))) /\
  (forall s, s ∈ serviceEmails ->
     GmailTransformer.personaMap (assignPersonas contacts g) !! s = Some (servicePersona s)).
Proof. apply assignPersonas_lookup. Qed.

Lemma assignPersonas_by_rank_witness :
  GmailTransformer.personaMap
    (assignPersonas [contact.mk A 2; contact.mk "united@united.com" 1; contact.mk B 1]
       (NewGmailTransformer clock "kaminski" "test@example.com")) !! B
  = Some (TestPersona.mk "Alex Rivera" "alex.r@gmail.com" "best friend" EmptyString).
Proof.
  refine (proj1 (assignPersonas_by_rank
                   [contact.mk A 2; contact.mk "united@united.com" 1; contact.mk B 1]
                   _ _) 2%nat (contact.mk B 1) eq_refl _).
  - apply (bool_decide_unpack _). vm_compute. exact I.
  - apply (bool_decide_unpack _). vm_compute. exact I.
Defined.

Lemma StronglySorted_weaken {A} (R1 R2 : A -> A -> Prop) l :
  (forall a b, R1 a b -> R2 a b) -> StronglySorted R1 l -> StronglySorted R2 l.
Proof.
  intros HR. induction 1 as [|x l Hl IH Hx]; constructor; [done|].
  eapply Forall_impl; eauto.
Qed.

(** X12: whatever order the runtime ranges over the frequency table in,
    [buildPersonaMap] ranks the counted addresses by descending count and
    hands out personas by rank: there is a ranking of the table's
    entries, in non-increasing order of count, whose entry [i] (service
    addresses apart) has the persona of rank [i]. *)
Theorem buildPersonaMap_ranks_by_count rt emails g :
  runtime.valid rt ->
  exists ranking : list contact.t,
    ranking ≡ₚ map (fun kv => contact.mk kv.1 kv.2) (map_to_list (contactFreq g emails)) /\
    StronglySorted (fun a b => (contact.count b <= contact.count a)%nat) ranking /\
    forall i c, ranking !! i = Some c -> contact.email c ∉ serviceEmails ->
      GmailTransformer.personaMap (buildPersonaMap rt emails g) !! contact.email c
      = Some (personaAt i (contact.email c)).
Proof.
  intros [Hrt _]. unfold buildPersonaMap.
  set (freq := contactFreq g emails).
  set (contacts := map (fun kv => contact.mk kv.1 kv.2) (runtime.range_contactFreq rt freq)).
  assert (Hperm : sort.Slice byCountDesc contacts
                  ≡ₚ map (fun kv => contact.mk kv.1 kv.2) (map_to_list freq)).
  { rewrite Slice_Permutation. unfold contacts.
    apply Permutation_map. apply Hrt. }
  exists (sort.Slice byCountDesc contacts). split; [exact Hperm|]. split.
  - eapply StronglySorted_weaken; [|apply (Slice_sorted byCountDesc _ byCountDesc_key)].
    cbn. intros a b. lia.
  - apply assignPersonas_lookup.
    rewrite Hperm. clear.
    assert (H : contact.email <$> map (fun kv => contact.mk kv.1 kv.2) (map_to_list freq)
                = (map_to_list freq).*1).
    { induction (map_to_list freq) as [|kv l IH]; [done|].
      cbn [map]. rewrite !fmap_cons. by rewrite IH. }
    rewrite H. apply NoDup_fst_map_to_list.
Qed.

Lemma buildPersonaMap_ranks_by_count_witness :
  exists ranking : list contact.t,
    ranking ≡ₚ map (fun kv => contact.mk kv.1 kv.2)
                 (map_to_list (contactFreq (NewGmailTransformer clock "kaminski" "t@x.org")
                                 scenario)) /\
    StronglySorted (fun a b => (contact.count b <= contact.count a)%nat) ranking.
Proof.
  destruct (buildPersonaMap_ranks_by_count runtime.forward scenario
              (NewGmailTransformer clock "kaminski" "t@x.org") valid_forward)
    as (ranking & Hp & Hs & _).
  by exists ranking.
Defined.

(** ** Labels *)

(** X13: every label list starts with UNREAD, then SENT when the sender
    holds the owner fragment and INBOX otherwise; it never repeats a
    label, holds at most one folder label and at most one category
    label, and has between two and five entries. *)
Theorem inferLabels_shape g enron :
  let labels := inferLabels g enron in
  firstn 2 labels
  = ["UNREAD"; if strings.Contains (EnronEmail.From enron) (GmailTransformer.enronUserName g)
               then "SENT" else "INBOX"] /\
  NoDup labels /\
  (count_in folderLabels labels <= 1)%nat /\
  (count_in categoryLabels labels <= 1)%nat /\
  (2 <= length labels <= 5)%nat.
Proof.
  unfold inferLabels.
  generalize (strings.ToLower (EnronEmail.UserFolder enron)). intros folder.
  destruct (strings.Contains (EnronEmail.From enron) (GmailTransformer.enronUserName g)),
    (strings.Contains folder "trash" || strings.Contains folder "deleted"),
    (strings.Contains folder "personal"), (strings.Contains folder "travel"),
    (strings.Contains folder "conferences" || strings.Contains folder "meetings"),
    (isImportant enron), (isPromotional enron), (isAutomated enron);
    cbv zeta; (split; [reflexivity|]);
    (split; [apply (bool_decide_unpack _); vm_compute; exact I|]);
    vm_compute; lia.
Qed.


(** ** Letter case *)

Lemma to_lower_byte_idem c : strings.to_lower_byte (strings.to_lower_byte c) = strings.to_lower_byte c.
Proof. destruct c as [[] [] [] [] [] [] [] []]; vm_compute; reflexivity. Qed.

Lemma is_space_lower c : strings.is_space (strings.to_lower_byte c) = strings.is_space c.
Proof. destruct c as [[] [] [] [] [] [] [] []]; vm_compute; reflexivity. Qed.

Lemma caseless_lt : caseless "<".
Proof. intros [[] [] [] [] [] [] [] []]; vm_compute; split; congruence. Qed.

Lemma caseless_gt : caseless ">".
Proof. intros [[] [] [] [] [] [] [] []]; vm_compute; split; congruence. Qed.

Lemma caseless_at : caseless "@".
Proof. intros [[] [] [] [] [] [] [] []]; vm_compute; split; congruence. Qed.

Lemma ToLower_idem s : strings.ToLower (strings.ToLower s) = strings.ToLower s.
Proof.
  induction s as [|c s IH]; [done|]. cbn [strings.ToLower].
  by rewrite to_lower_byte_idem, IH.
Qed.

Lemma prefix_char_ToLower c s :
  caseless c ->
  String.prefix (String c EmptyString) (strings.ToLower s) = String.prefix (String c EmptyString) s.
Proof.
  intros Hc. destruct s as [|a s]; [done|]. cbn [strings.ToLower String.prefix].
  destruct (ascii_dec c (strings.to_lower_byte a)) as [He|Hne], (ascii_dec c a) as [He'|Hne'].
  - by destruct s.
  - exfalso. apply Hne'. symmetry. by apply Hc.
  - exfalso. apply Hne. symmetry. by apply Hc.
  - done.
Qed.

Lemma Index_ToLower c s :
  caseless c -> strings.Index (strings.ToLower s) (String c EmptyString) = strings.Index s (String c EmptyString).
Proof.
  intros Hc. induction s as [|a s IH]; [done|].
  change (strings.ToLower (String a s))
    with (String (strings.to_lower_byte a) (strings.ToLower s)).
  cbn [strings.Index].
  change (String (strings.to_lower_byte a) (strings.ToLower s))
    with (strings.ToLower (String a s)).
  rewrite prefix_char_ToLower by done. by rewrite IH.
Qed.

Lemma Contains_ToLower c s :
  caseless c ->
  strings.Contains (strings.ToLower s) (String c EmptyString) = strings.Contains s (String c EmptyString).
Proof.
  intros Hc. induction s as [|a s IH]; [done|].
  change (strings.ToLower (String a s))
    with (String (strings.to_lower_byte a) (strings.ToLower s)).
  cbn [strings.Contains].
  change (String (strings.to_lower_byte a) (strings.ToLower s))
    with (strings.ToLower (String a s)).
  rewrite prefix_char_ToLower by done. by rewrite IH.
Qed.

Lemma length_ToLower s : String.length (strings.ToLower s) = String.length s.
Proof. induction s as [|c s IH]; [done|]. cbn [strings.ToLower String.length]. by rewrite IH. Qed.

Lemma substring_ToLower s : forall n m,
  String.substring n m (strings.ToLower s) = strings.ToLower (String.substring n m s).
Proof.
  induction s as [|c s IH]; intros n m.
  - by destruct n, m.
  - destruct n as [|n]; [destruct m as [|m]|]; cbn [strings.ToLower String.substring];
      [done| |apply IH].
    by rewrite IH.
Qed.

Lemma TrimLeft_ToLower s :
  strings.TrimLeft (strings.ToLower s) = strings.ToLower (strings.TrimLeft s).
Proof.
  induction s as [|c s IH]; [done|]. cbn [strings.ToLower strings.TrimLeft].
  rewrite is_space_lower. by destruct (strings.is_space c).
Qed.

Lemma TrimRight_ToLower s :
  strings.TrimRight (strings.ToLower s) = strings.ToLower (strings.TrimRight s).
Proof.
  induction s as [|c s IH]; [done|]. cbn [strings.ToLower strings.TrimRight].
  rewrite IH, is_space_lower.
  destruct (strings.TrimRight s); cbn [strings.ToLower]; [|done].
  by destruct (strings.is_space c).
Qed.

Lemma TrimSpace_ToLower s :
  strings.TrimSpace (strings.ToLower s) = strings.ToLower (strings.TrimSpace s).
Proof. unfold strings.TrimSpace. by rewrite TrimLeft_ToLower, TrimRight_ToLower. Qed.

Lemma extractEmail_ToLower a : extractEmail (strings.ToLower a) = extractEmail a.
Proof.
  unfold extractEmail. rewrite (Index_ToLower "<" a caseless_lt).
  rewrite (Contains_ToLower "@" a caseless_at), TrimSpace_ToLower, ToLower_idem.
  destruct (strings.Index a "<") as [idx|]; [|done].
  unfold strings.drop. rewrite length_ToLower, substring_ToLower.
  rewrite (Index_ToLower ">" _ caseless_gt).
  destruct (strings.Index _ ">") as [[|e]|]; [done| |done].
  by rewrite substring_ToLower, ToLower_idem.
Qed.

(** X14: addresses are matched without regard to letter case: two
    address strings that differ only in the case of their letters have
    the same extracted address, hence the same counter in the frequency
    table and the same rewritten header. *)
Theorem extractEmail_case_insensitive g freq a b :
  strings.ToLower a = strings.ToLower b ->
  extractEmail a = extractEmail b /\
  countAddress g freq a = countAddress g freq b /\
  transformEmailAddress g a = transformEmailAddress g b.
Proof.
  intros Hab.
  assert (He : extractEmail a = extractEmail b).
  { by rewrite <- (extractEmail_ToLower a), <- (extractEmail_ToLower b), Hab. }
  split; [exact He|]. unfold countAddress, transformEmailAddress. by rewrite He.
Qed.

Lemma extractEmail_case_insensitive_witness :
  extractEmail "Alice Doe <ALICE@Enron.COM>" = extractEmail "alice doe <alice@enron.com>".
Proof.
  exact (proj1 (extractEmail_case_insensitive
                  (NewGmailTransformer clock "kaminski" "t@x.org") ∅
                  "Alice Doe <ALICE@Enron.COM>" "alice doe <alice@enron.com>" eq_refl)).
Defined.

(** ** Reading a rewritten header back *)

Lemma Contains_snoc s c sep :
  strings.Contains s (String sep EmptyString) = false -> c <> sep ->
  strings.Contains (s +:+ String c EmptyString) (String sep EmptyString) = false.
Proof.
  intros Hs Hc. induction s as [|a s IH].
  - rewrite append_nil_l. cbn [strings.Contains String.prefix].
    destruct (ascii_dec sep c); [congruence|done].
  - rewrite append_cons. cbn [strings.Contains String.prefix] in *.
    destruct (ascii_dec sep a); [by destruct s|]. by apply IH.
Qed.

Lemma substring_app_length a : forall m b,
  String.substring (String.length a) m (a +:+ b) = strings.take m b.
Proof.
  induction a as [|c a IH]; intros m b; [done|].
  rewrite append_cons. cbn [String.length]. by rewrite substring_skip.
Qed.

Lemma extractEmail_bracketed name addr :
  strings.Contains name "<" = false ->
  strings.Contains addr ">" = false ->
  extractEmail (name +:+ " <" +:+ addr +:+ ">") = strings.ToLower addr.
Proof.
  intros Hname Haddr. unfold extractEmail.
  assert (Hshape : name +:+ " <" +:+ addr +:+ ">"
                   = (name +:+ " ") +:+ String "<" (addr +:+ ">")).
  { by rewrite append_assoc. }
  rewrite Hshape.
  rewrite (Index_first (name +:+ " ") "<" (addr +:+ ">"))
    by (apply Contains_snoc; [done|discriminate]).
  rewrite drop_app_length.
  cbn [strings.Index String.prefix].
  destruct (ascii_dec ">" "<") as [Hc|_]; [discriminate Hc|].
  change (addr +:+ ">") with (addr +:+ String ">" EmptyString).
  rewrite (Index_first addr ">" EmptyString Haddr). cbn [fmap option_fmap option_map].
  change (String "<" (addr +:+ String ">" EmptyString)) with ("<" +:+ addr +:+ ">").
  replace ((name +:+ " ") +:+ "<" +:+ addr +:+ ">")
    with (((name +:+ " ") +:+ "<") +:+ addr +:+ ">") by (by rewrite !append_assoc).
  replace (S (String.length (name +:+ " "))) with (String.length ((name +:+ " ") +:+ "<"))
    by (rewrite (length_append _ "<"); cbn [String.length]; lia).
  by rewrite substring_app_length, take_app_length.
Qed.

(** X15: a persona written into a header is read back by
    [extractEmail] as the persona's address, lower-cased, whenever its
    name holds no [<] and its address no [>] (true of the roster, the
    generated and the service personas). *)
Theorem extractEmail_rendered p :
  strings.Contains (TestPersona.Name p) "<" = false ->
  strings.Contains (TestPersona.Email p) ">" = false ->
  extractEmail (rendered p) = strings.ToLower (TestPersona.Email p).
Proof. intros Hn He. unfold rendered. by apply extractEmail_bracketed. Qed.

Lemma extractEmail_rendered_witness :
  Forall (fun p => extractEmail (rendered p) = TestPersona.Email p) personas.
Proof.
  apply Forall_forall. intros p Hp.
  rewrite (extractEmail_rendered p).
  - revert p Hp. apply Forall_forall. repeat constructor.
  - revert p Hp. apply Forall_forall. repeat constructor.
  - revert p Hp. apply Forall_forall. repeat constructor.
Defined.


(** ** Subjects without a listed prefix *)

Lemma run_Lit_mismatch p : forall k prev s o,
  p <> EmptyString ->
  String.prefix p s = false ->
  regexp.run (regexp.Lit p) k (regexp.Pos prev s o) = None.
Proof.
  induction p as [|c p IH]; intros k prev s o Hp Hs; [done|].
  destruct s as [|a s].
  { destruct p; cbn [regexp.Lit regexp.run]; reflexivity. }
  cbn [String.prefix] in Hs.
  destruct p as [|c' p'].
  - destruct (ascii_dec c a) as [->|Hne]; [by destruct s|].
    cbn [regexp.Lit regexp.run]. unfold regexp.step_if. cbn [regexp.rest].
    by rewrite (proj2 (Ascii.eqb_neq c a) Hne).
  - change (regexp.Lit (String c (String c' p')))
      with (regexp.Cat (regexp.Chr c) (regexp.Lit (String c' p'))).
    cbn [regexp.run]. unfold regexp.step_if at 1. cbn [regexp.rest].
    destruct (ascii_dec c a) as [->|Hne].
    + rewrite Ascii.eqb_refl. unfold regexp.advance. by apply IH.
    + by rewrite (proj2 (Ascii.eqb_neq c a) Hne).
Qed.

Lemma prefixes_no_match s :
  Forall (fun p => strings.HasPrefix s p = false) listed_prefixes ->
  regexp.match_here prefixes None s = None.
Proof.
  unfold listed_prefixes, strings.HasPrefix. intros H.
  repeat (apply Forall_cons in H as [? H]).
  unfold regexp.match_here, prefixes.
  cbn [regexp.run regexp.before].
  by rewrite !run_Lit_mismatch.
Qed.

Lemma cleanSubject_unlisted s :
  Forall (fun p => strings.HasPrefix s p = false) listed_prefixes ->
  cleanSubjectForThreading s = strings.ToLower (strings.TrimSpace s).
Proof.
  intros H. unfold cleanSubjectForThreading.
  assert (Hr : regexp.ReplaceAllString prefixes s EmptyString = s).
  { unfold regexp.ReplaceAllString, regexp.ReplaceAllStringFunc.
    destruct s as [|c s]; cbn [regexp.replace_go]; rewrite (prefixes_no_match _ H); [done|].
    by rewrite replace_go_anchored. }
  by rewrite Hr.
Qed.

Lemma lower_not_R_F a : strings.to_lower_byte a <> "R"%char /\ strings.to_lower_byte a <> "F"%char.
Proof. destruct a as [[] [] [] [] [] [] [] []]; vm_compute; split; congruence. Qed.

Lemma ToLower_unlisted s :
  Forall (fun p => strings.HasPrefix (strings.ToLower s) p = false) listed_prefixes.
Proof.
  unfold listed_prefixes, strings.HasPrefix.
  destruct s as [|a s]; [by repeat constructor|].
  cbn [strings.ToLower]. destruct (lower_not_R_F a) as [HR HF].
  repeat constructor; cbn [String.prefix];
    match goal with |- context [ascii_dec ?c ?x] => destruct (ascii_dec c x) end;
    congruence.
Qed.

(** X16: a subject that starts with none of the five listed spellings
    is only trimmed and lower-cased. *)
Theorem cleanSubject_without_prefix s :
  Forall (fun p => strings.HasPrefix s p = false) listed_prefixes ->
  cleanSubjectForThreading s = strings.ToLower (strings.TrimSpace s).
Proof. apply cleanSubject_unlisted. Qed.

Lemma cleanSubject_without_prefix_witness :
  cleanSubjectForThreading "  AW: Budget " = "aw: budget".
Proof.
  rewrite (cleanSubject_without_prefix "  AW: Budget "); [reflexivity|].
  repeat constructor.
Defined.

Lemma cleanSubject_lower s :
  exists x, cleanSubjectForThreading s = strings.ToLower (strings.TrimSpace x).
Proof. unfold cleanSubjectForThreading. eauto. Qed.

(** X17: the threading subject is a fixed point of the normalization:
    normalizing a normalized subject changes nothing, so a thread key's
    subject part is stable under re-processing. *)
Theorem cleanSubject_idempotent s :
  cleanSubjectForThreading (cleanSubjectForThreading s) = cleanSubjectForThreading s.
Proof.
  destruct (cleanSubject_lower s) as [x ->].
  rewrite cleanSubject_unlisted by apply ToLower_unlisted.
  by rewrite TrimSpace_ToLower, TrimSpace_idem, ToLower_idem.
Qed.


(** ** The snippet in full *)

Local Abbreviation collapse := (regexp.replace_go whitespace (fun _ => " ")).

Lemma TrimRight_fixed_tail c r :
  strings.TrimRight (String c r) = String c r ->
  strings.TrimRight r = r /\ (r = EmptyString -> strings.is_space c = false).
Proof.
  cbn [strings.TrimRight]. destruct (strings.TrimRight r) eqn:Hr.
  - destruct (strings.is_space c); [done|]. intros H. injection H as H1. subst r. done.
  - intros H. injection H as H1. split; [congruence|]. intros ->. discriminate.
Qed.

Lemma TrimRight_cons_fixed c x :
  strings.TrimRight x = x -> x <> EmptyString ->
  strings.TrimRight (String c x) = String c x.
Proof. intros Hx Hne. cbn [strings.TrimRight]. rewrite Hx. by destruct x. Qed.

Lemma take_while_bound c s k :
  (S k <= String.length (take_while regexp.is_s (String c s)))%nat ->
  regexp.is_s c = true /\ (k <= String.length (take_while regexp.is_s s))%nat.
Proof.
  cbn [take_while]. destruct (regexp.is_s c); cbn [String.length]; [|lia].
  split; [done|lia].
Qed.

Lemma collapse_right_trimmed s : forall skip fresh prev,
  (skip <= String.length (take_while regexp.is_s s))%nat ->
  strings.TrimRight s = s ->
  strings.TrimRight (collapse skip fresh prev s) = collapse skip fresh prev s /\
  (s <> EmptyString -> collapse skip fresh prev s <> EmptyString).
Proof.
  induction s as [|c s IH]; intros skip fresh prev Hskip Hs.
  - cbn [take_while String.length] in Hskip. assert (skip = 0%nat) as -> by lia.
    split; [|done]. by destruct fresh.
  - destruct (TrimRight_fixed_tail _ _ Hs) as [Hs' Hlast].
    cbn [regexp.replace_go]. destruct skip as [|[|k]].
    + rewrite whitespace_match. destruct (regexp.is_s c) eqn:Hc.
      * assert (Hne : s <> EmptyString).
        { intros He. rewrite (is_s_space c Hc) in Hlast. by specialize (Hlast He). }
        destruct (String.length (take_while regexp.is_s s)) as [|n] eqn:Hn.
        -- destruct (IH 0%nat false (Some c)) as [H1 H2]; [lia|done|].
           change (" " +:+ ?x) with (String " " x).
           split; [|done]. apply TrimRight_cons_fixed; auto.
        -- destruct (IH (S n) true (Some c)) as [H1 H2]; [lia|done|].
           change (" " +:+ ?x) with (String " " x).
           split; [|done]. apply TrimRight_cons_fixed; auto.
      * destruct (IH 0%nat true (Some c)) as [H1 H2]; [lia|done|].
        split; [|done].
        destruct s as [|a s].
        -- cbn. cbn [strings.TrimRight]. by rewrite Hlast.
        -- apply TrimRight_cons_fixed; auto.
    + destruct (take_while_bound _ _ _ Hskip) as [Hc Hk].
      destruct (IH 0%nat false (Some c)) as [H1 H2]; [lia|done|].
      split; [done|]. intros _. apply H2. intros He.
      rewrite (is_s_space c Hc) in Hlast. by specialize (Hlast He).
    + destruct (take_while_bound _ _ _ Hskip) as [Hc Hk].
      destruct (IH (S k) true (Some c)) as [H1 H2]; [lia|done|].
      split; [done|]. intros _. apply H2. intros He.
      rewrite (is_s_space c Hc) in Hlast. by specialize (Hlast He).
Qed.

Lemma collapsed_right_trimmed body :
  strings.TrimRight (collapsed body) = collapsed body.
Proof.
  apply collapse_right_trimmed; [lia|]. unfold strings.TrimSpace. apply TrimRight_idem.
Qed.

Lemma TrimRight_snoc_space s : strings.TrimRight (s +:+ " ") = strings.TrimRight s.
Proof.
  induction s as [|c s IH]; [reflexivity|].
  rewrite append_cons. cbn [strings.TrimRight]. by rewrite IH.
Qed.

Lemma TrimSpace_snoc_space c :
  strings.TrimRight c = c ->
  (forall a r, c = String a r -> strings.is_space a = false) ->
  strings.TrimSpace (c +:+ " ") = c.
Proof.
  intros Hr Hl. unfold strings.TrimSpace. destruct c as [|a r]; [reflexivity|].
  rewrite append_cons. cbn [strings.TrimLeft]. rewrite (Hl a r eq_refl).
  rewrite <- append_cons. by rewrite TrimRight_snoc_space.
Qed.

(** The snippet by cases on the collapsed body. *)
Lemma generateSnippet_cases body :
  generateSnippet body =
    if strings.HasPrefix (collapsed body) ">" || strings.Contains (collapsed body) originalMessage
    then EmptyString
    else if (100 <=? String.length (collapsed body))%nat
         then strings.take 97 (collapsed body) +:+ "..."
         else collapsed body.
Proof.
  unfold generateSnippet. fold (collapsed body).
  rewrite (Split_kept _ (collapsed_kept body)).
  cbn [snippetLoop].
  destruct (strings.HasPrefix (collapsed body) ">" || strings.Contains (collapsed body) originalMessage);
    [reflexivity|].
  rewrite append_nil_l.
  assert (Hl : String.length (collapsed body +:+ " ") = S (String.length (collapsed body))).
  { rewrite length_append. cbn [String.length]. lia. }
  destruct (Nat.leb_spec 100 (String.length (collapsed body))) as [Hlen|Hlen].
  - assert (Hgt : (100 <? String.length (collapsed body +:+ " "))%nat = true).
    { apply Nat.ltb_lt. lia. }
    rewrite Hgt. rewrite Hgt.
    rewrite take_append by lia.
    destruct (collapsed_head body) as (c & r & Hc & Hsp).
    { intros He. rewrite He in Hlen. cbn [String.length] in Hlen. lia. }
    rewrite Hc. rewrite take_S. by apply TrimSpace_fixed.
  - assert (Hgt : (100 <? String.length (collapsed body +:+ " "))%nat = false).
    { apply Nat.ltb_ge. lia. }
    rewrite Hgt. rewrite Hgt.
    apply TrimSpace_snoc_space; [apply collapsed_right_trimmed|].
    intros a r Ha. destruct (collapsed_head body) as (c' & r' & Hc & Hsp).
    { by rewrite Ha. }
    rewrite Ha in Hc. by inversion Hc; subst.
Qed.

(** Solid text survives trimming and collapsing. *)

Lemma not_space_not_s c : strings.is_space c = false -> regexp.is_s c = false.
Proof. destruct (regexp.is_s c) eqn:H; [|done]. by rewrite (is_s_space c H). Qed.

Lemma is_space_blank : strings.is_space " " = true.
Proof. reflexivity. Qed.

Lemma solid_inv sub :
  solid sub -> exists a r, sub = String a r /\ strings.is_space a = false /\ tight sub = true.
Proof.
  unfold solid. cbn [tight]. rewrite Ascii.eqb_refl.
  destruct sub as [|a r]; [done|].
  intros [Ha Ht]%andb_true_iff. apply negb_true_iff in Ha. eauto.
Qed.

Lemma tight_inv a r :
  tight (String a r) = true ->
  tight r = true /\
  (strings.is_space a = false \/
   a = " "%char /\ exists d r', r = String d r' /\ strings.is_space d = false).
Proof.
  cbn [tight]. intros [Ha Ht]%andb_true_iff. split; [done|].
  destruct (Ascii.eqb_spec a " ") as [->|Hne].
  - right. split; [done|]. destruct r as [|d r']; [done|].
    apply negb_true_iff in Ha. eauto.
  - left. by apply negb_true_iff.
Qed.

Lemma prefix_nil s : String.prefix EmptyString s = true.
Proof. by destruct s. Qed.

Lemma prefix_cons a sub c s :
  String.prefix (String a sub) (String c s) = true -> a = c /\ String.prefix sub s = true.
Proof. cbn [String.prefix]. by destruct (ascii_dec a c). Qed.

Lemma prefix_same a sub s :
  String.prefix sub s = true -> String.prefix (String a sub) (String a s) = true.
Proof. intros H. cbn [String.prefix]. by destruct (ascii_dec a a). Qed.

Lemma prefix_solid_head sub c s :
  solid sub -> String.prefix sub (String c s) = true -> strings.is_space c = false.
Proof.
  intros (a & r & -> & Ha & _)%solid_inv [<- _]%prefix_cons. done.
Qed.

Lemma Contains_cons c s sub :
  strings.Contains s sub = true -> strings.Contains (String c s) sub = true.
Proof.
  intros H. cbn [strings.Contains].
  by destruct (String.prefix sub (String c s)).
Qed.

Lemma Contains_prefix s sub : String.prefix sub s = true -> strings.Contains s sub = true.
Proof. intros H. destruct s; cbn [strings.Contains]; by rewrite H. Qed.

Lemma Contains_tail c s sub :
  solid sub -> strings.is_space c = true ->
  strings.Contains (String c s) sub = true ->
  strings.Contains s sub = true.
Proof.
  intros Hsub Hc. cbn [strings.Contains].
  destruct (String.prefix sub (String c s)) eqn:Hp; [|done].
  by rewrite (prefix_solid_head _ _ _ Hsub Hp) in Hc.
Qed.

Lemma TrimLeft_Contains sub s :
  solid sub ->
  strings.Contains s sub = true ->
  strings.Contains (strings.TrimLeft s) sub = true.
Proof.
  intros Hsub. induction s as [|c s IH]; [done|].
  intros H. cbn [strings.TrimLeft]. destruct (strings.is_space c) eqn:Hc; [|done].
  apply IH. by eapply Contains_tail.
Qed.

Lemma TrimRight_prefix sub : forall s,
  tight sub = true -> String.prefix sub s = true ->
  String.prefix sub (strings.TrimRight s) = true.
Proof.
  induction sub as [|a sub IH]; intros s Hsub Hp; [apply prefix_nil|].
  destruct s as [|c s]; [done|].
  apply prefix_cons in Hp as [<- Hp].
  destruct (tight_inv _ _ Hsub) as [Hsub' Ha].
  specialize (IH s Hsub' Hp).
  cbn [strings.TrimRight]. destruct (strings.TrimRight s) eqn:Hr.
  - destruct sub as [|d sub]; [|done].
    destruct Ha as [Ha|[_ (? & ? & ? & _)]]; [|done].
    rewrite Ha. by apply prefix_same.
  - by apply prefix_same.
Qed.

Lemma TrimRight_Contains sub s :
  solid sub ->
  strings.Contains s sub = true ->
  strings.Contains (strings.TrimRight s) sub = true.
Proof.
  intros Hsub. destruct (solid_inv _ Hsub) as (a & r & Heq & Ha & Ht).
  induction s as [|c s IH]; [by rewrite Heq|].
  intros H. cbn [strings.Contains] in H.
  destruct (String.prefix sub (String c s)) eqn:Hp.
  - apply Contains_prefix. by apply TrimRight_prefix.
  - specialize (IH H). cbn [strings.TrimRight].
    destruct (strings.TrimRight s) eqn:Hr; [by rewrite Heq in IH|]. by apply Contains_cons.
Qed.

Lemma collapse_prefix sub : forall s fresh prev,
  tight sub = true -> String.prefix sub s = true ->
  String.prefix sub (collapse 0%nat fresh prev s) = true.
Proof.
  induction sub as [|a sub IH]; intros s fresh prev Hsub Hp; [apply prefix_nil|].
  destruct s as [|c s]; [done|].
  apply prefix_cons in Hp as [<- Hp].
  destruct (tight_inv _ _ Hsub) as [Hsub' Ha].
  cbn [regexp.replace_go]. rewrite whitespace_match.
  destruct Ha as [Ha|[-> (d & r' & -> & Hd)]].
  - rewrite (not_space_not_s _ Ha). by apply prefix_same, IH.
  - destruct s as [|d' s']; [done|]. pose proof Hp as [<- _]%prefix_cons.
    change (regexp.is_s " ") with true. cbn [take_while].
    rewrite (not_space_not_s _ Hd). cbn [String.length].
    change (" " +:+ ?x) with (String " " x). by apply prefix_same, IH.
Qed.

Lemma collapse_Contains sub s : forall skip fresh prev,
  solid sub ->
  (skip <= String.length (take_while regexp.is_s s))%nat ->
  strings.Contains s sub = true ->
  strings.Contains (collapse skip fresh prev s) sub = true.
Proof.
  intros skip fresh prev Hsub. revert skip fresh prev.
  destruct (solid_inv _ Hsub) as (a & r & Heq & Ha & Ht).
  induction s as [|c s IH]; intros skip fresh prev Hskip H; [by rewrite Heq in H|].
  destruct skip as [|k].
  - destruct (String.prefix sub (String c s)) eqn:Hp.
    { apply Contains_prefix. by apply collapse_prefix. }
    cbn [strings.Contains] in H. rewrite Hp in H.
    cbn [regexp.replace_go]. rewrite whitespace_match.
    destruct (regexp.is_s c) eqn:Hc.
    + destruct (String.length (take_while regexp.is_s s)) as [|n] eqn:Hn;
        change (" " +:+ ?x) with (String " " x); apply Contains_cons, IH; auto; lia.
    + apply Contains_cons, IH; auto; lia.
  - destruct (take_while_bound _ _ _ Hskip) as [Hc Hk].
    pose proof (Contains_tail _ _ _ Hsub (is_s_space c Hc) H) as H'.
    cbn [regexp.replace_go]. destruct k as [|k]; apply IH; auto; lia.
Qed.

Lemma collapsed_Contains sub body :
  solid sub ->
  strings.Contains body sub = true ->
  strings.Contains (collapsed body) sub = true.
Proof.
  intros Hsub H. apply collapse_Contains; [done|lia|].
  unfold strings.TrimSpace. by apply TrimRight_Contains, TrimLeft_Contains.
Qed.

Lemma collapsed_HasPrefix sub body :
  solid sub ->
  strings.HasPrefix (strings.TrimLeft body) sub = true ->
  strings.HasPrefix (collapsed body) sub = true.
Proof.
  unfold strings.HasPrefix. intros (a & r & _ & _ & Ht)%solid_inv H.
  apply collapse_prefix; [done|].
  unfold strings.TrimSpace. by apply TrimRight_prefix.
Qed.

(** X18: a body whose first character after leading white space is [>],
    or that holds the original-message banner anywhere, has an empty
    snippet: white space, line breaks included, is collapsed before the
    text is split into lines, so the loop sees one line and stops at it. *)
Theorem snippet_of_quoted_body body :
  strings.HasPrefix (strings.TrimLeft body) ">" = true \/
  strings.Contains body originalMessage = true ->
  generateSnippet body = EmptyString.
Proof.
  intros H. rewrite generateSnippet_cases.
  assert (Hq : strings.HasPrefix (collapsed body) ">" || strings.Contains (collapsed body) originalMessage = true).
  { apply orb_true_iff. destruct H as [H|H]; [left|right].
    - apply collapsed_HasPrefix; [by vm_compute|exact H].
    - apply collapsed_Contains; [by vm_compute|exact H]. }
  by rewrite Hq.
Qed.

(** X19: when the collapsed body has fewer than 100 characters and shows
    no quoted-reply marker, the snippet is the collapsed body itself. *)
Theorem snippet_of_short_text body :
  (String.length (collapsed body) < 100)%nat ->
  strings.HasPrefix (collapsed body) ">" = false ->
  strings.Contains (collapsed body) originalMessage = false ->
  generateSnippet body = collapsed body.
Proof.
  intros Hlen Hq Hb. rewrite generateSnippet_cases, Hq, Hb. cbn [orb].
  destruct (Nat.leb_spec 100 (String.length (collapsed body))); [lia|done].
Qed.

(** X20: no snippet is longer than 100 characters. *)
Theorem snippet_at_most_100 body :
  (String.length (generateSnippet body) <= 100)%nat.
Proof.
  rewrite generateSnippet_cases.
  destruct (strings.HasPrefix (collapsed body) ">" || strings.Contains (collapsed body) originalMessage);
    [cbn [String.length]; lia|].
  destruct (Nat.leb_spec 100 (String.length (collapsed body))) as [Hlen|Hlen]; [|lia].
  rewrite length_append, take_length by lia. cbn [String.length]. lia.
Qed.

Lemma snippet_of_quoted_body_witness :
  generateSnippet ("See below." +:+ newline +:+ originalMessage +:+ newline +:+ "Hi") = EmptyString.
Proof.
  apply snippet_of_quoted_body. right. vm_compute. reflexivity.
Defined.

Lemma snippet_of_short_text_witness :
  generateSnippet ("  Thanks," +:+ newline +:+ newline +:+ "  see you   then. ") = "Thanks, see you then.".
Proof.
  rewrite snippet_of_short_text; [vm_compute; reflexivity| | |].
  - vm_compute. lia.
  - vm_compute. reflexivity.
  - vm_compute. reflexivity.
Defined.


(** ** Identifiers *)

Lemma hex_digit_lower x : 0 <= x < 16 -> lower_hex (md5.hex_digit x) = true.
Proof.
  intros H.
  assert (x = 0 \/ x = 1 \/ x = 2 \/ x = 3 \/ x = 4 \/ x = 5 \/ x = 6 \/ x = 7 \/
          x = 8 \/ x = 9 \/ x = 10 \/ x = 11 \/ x = 12 \/ x = 13 \/ x = 14 \/ x = 15)
    as Hx by lia.
  repeat (destruct Hx as [->|Hx]; [by vm_compute|]). subst. by vm_compute.
Qed.

Lemma hex_shape bs :
  Forall (fun b => 0 <= b < 256) bs ->
  String.length (md5.hex bs) = (2 * length bs)%nat /\ all_chars lower_hex (md5.hex bs) = true.
Proof.
  induction 1 as [|b bs Hb _ [IHl IHc]]; [done|].
  cbn [md5.hex String.length all_chars length]. split; [lia|].
  rewrite IHc, !hex_digit_lower; [done| |].
  - change 0xF with (Z.ones 4). rewrite Z.land_ones by lia.
    apply Z.mod_pos_bound. lia.
  - rewrite Z.shiftr_div_pow2 by lia. change (2 ^ 4) with 16.
    split; [apply Z.div_pos; lia|apply Z.div_lt_upper_bound; lia].
Qed.

Lemma le_bytes_range n : forall x, Forall (fun b => 0 <= b < 256) (md5.le_bytes n x).
Proof.
  induction n as [|n IH]; intros x; cbn [md5.le_bytes]; constructor; [|apply IH].
  change 0xFF with (Z.ones 8). rewrite Z.land_ones by lia.
  apply Z.mod_pos_bound. lia.
Qed.

Lemma le_bytes_length n : forall x, length (md5.le_bytes n x) = n.
Proof. induction n as [|n IH]; intros x; cbn [md5.le_bytes length]; [done|]. by rewrite IH. Qed.

Lemma Sum_shape msg :
  length (md5.Sum msg) = 16%nat /\ Forall (fun b => 0 <= b < 256) (md5.Sum msg).
Proof.
  unfold md5.Sum.
  destruct (fold_left md5.block _ md5.init) as [[[a b] c] d].
  split.
  - by rewrite !length_app, !le_bytes_length.
  - repeat (apply Forall_app; split); apply le_bytes_range.
Qed.

Lemma all_chars_take f n : forall s, all_chars f s = true -> all_chars f (strings.take n s) = true.
Proof.
  induction n as [|n IH]; intros s Hs; [by rewrite take_0|].
  destruct s as [|c s]; [done|]. rewrite take_S.
  cbn [all_chars] in *. apply andb_true_iff in Hs as [-> Hs]. by apply IH.
Qed.

Lemma SumHex_prefix_shape s :
  String.length (strings.take 16 (md5.SumHex s)) = 16%nat /\
  all_chars lower_hex (strings.take 16 (md5.SumHex s)) = true.
Proof.
  unfold md5.SumHex.
  destruct (Sum_shape (md5.bytes_of_string s)) as [Hl Hr].
  destruct (hex_shape _ Hr) as [Hhl Hhc]. rewrite Hl in Hhl.
  split; [apply take_length; lia|by apply all_chars_take].
Qed.

(** X21: message ids and thread ids are always 16 lower-case hexadecimal
    digits, whatever the original message id or thread key is (the empty
    one included). *)
Theorem generated_ids_are_16_hex_digits s :
  (String.length (generateGmailID s) = 16%nat /\ all_chars lower_hex (generateGmailID s) = true) /\
  (String.length (generateThreadID s) = 16%nat /\ all_chars lower_hex (generateThreadID s) = true).
Proof. split; apply SumHex_prefix_shape. Qed.

(** ** The aggregates of the metadata file *)

Lemma getThreadCount_set messages :
  getThreadCount messages
  = size (list_to_set (GmailMessage.ThreadId <$> messages) : gset string).
Proof.
  unfold getThreadCount.
  assert (H : forall (m : gmap string bool),
    dom (fold_left (fun (threads : gmap string bool) msg =>
                      <[GmailMessage.ThreadId msg := true]> threads) messages m)
    = dom m ∪ list_to_set (GmailMessage.ThreadId <$> messages)).
  { induction messages as [|msg ms IH]; intros m; cbn [fold_left fmap list_fmap list_to_set].
    - set_solver.
    - rewrite IH, dom_insert_L. set_solver. }
  rewrite <- size_dom, H, dom_empty_L. f_equal. set_solver.
Qed.

(** X22: the metadata's thread count is the number of distinct thread ids
    among the messages; it never exceeds the number of messages. *)
Theorem getThreadCount_distinct messages :
  getThreadCount messages = length (remove_dups (GmailMessage.ThreadId <$> messages)) /\
  (getThreadCount messages <= length messages)%nat.
Proof.
  rewrite getThreadCount_set.
  assert (H : size (list_to_set (GmailMessage.ThreadId <$> messages) : gset string)
              = length (remove_dups (GmailMessage.ThreadId <$> messages))).
  { rewrite <- (size_list_to_set (C := gset string) (remove_dups _))
      by apply NoDup_remove_dups.
    f_equal. apply set_eq. intros x.
    by rewrite !elem_of_list_to_set, elem_of_remove_dups. }
  split; [exact H|]. rewrite H.
  rewrite <- (length_fmap GmailMessage.ThreadId messages).
  clear. induction (GmailMessage.ThreadId <$> messages) as [|x l IH]; [done|].
  cbn [remove_dups length]. destruct (decide_rel elem_of x l); cbn [length]; lia.
Qed.

Lemma incr_fold_lookup labels label : forall dist,
  fold_left incr labels dist !! label
  = match length (filter (fun l => l = label) labels) with
    | O => dist !! label
    | S n => Some (default 0%nat (dist !! label) + S n)%nat
    end.
Proof.
  induction labels as [|l ls IH]; intros dist; [done|].
  cbn [fold_left]. rewrite IH. unfold incr.
  rewrite filter_cons. destruct (decide (l = label)) as [->|Hne].
  - rewrite lookup_insert_eq. cbn [length].
    destruct (dist !! label), (length (filter (fun l => l = label) ls));
      cbn; f_equal; lia.
  - by rewrite lookup_insert_ne.
Qed.

Lemma getLabelDistribution_fold messages : forall dist,
  fold_left (fun dist msg => fold_left incr (GmailMessage.LabelIds msg) dist) messages dist
  = fold_left incr (messages ≫= GmailMessage.LabelIds) dist.
Proof.
  induction messages as [|m ms IH]; intros dist; [done|].
  cbn [fold_left]. by rewrite IH, bind_cons, fold_left_app.
Qed.

(** X23: the label distribution counts label entries: a label is a key
    exactly when some message carries it, and its value is the number
    of entries equal to it over all messages; no key has the value 0. *)
Theorem getLabelDistribution_counts messages label :
  getLabelDistribution messages !! label
  = match carried messages label with
    | O => None
    | S n => Some (S n)
    end.
Proof.
  unfold getLabelDistribution, carried.
  rewrite getLabelDistribution_fold, incr_fold_lookup, lookup_empty. done.
Qed.

(** ** The serializer on records with both recipient headers *)

Lemma header4_dated rt g messages i e :
  messages !! i = Some (message_of rt g e) -> has_To_and_Cc e ->
  header4 messages i = Some (time.FormatRFC1123Z (shiftedDate g e)).
Proof.
  intros Hi [Hto Hcc]. unfold header4. rewrite Hi. cbn [mbind option_bind].
  cbn [message_of GmailMessage.Payload MessagePart.Headers].
  rewrite transformHeaders_lookup_4.
  destruct (EnronEmail.To e), (EnronEmail.CC e); done.
Qed.

Lemma sorted_last_latest (sorted : list EnronEmail.t) : forall x,
  StronglySorted
    (fun a b => time.unixNano (EnronEmail.Date a) <= time.unixNano (EnronEmail.Date b))
    sorted ->
  last sorted = Some x ->
  Forall (fun y => time.unixNano (EnronEmail.Date y) <= time.unixNano (EnronEmail.Date x))
    sorted.
Proof.
  intros x Hs. induction Hs as [|a r Hr IH Ha]; intros Hl; [done|].
  destruct r as [|b r'].
  - injection Hl as <-. by repeat constructor.
  - change (last (a :: b :: r')) with (last (b :: r')) in Hl.
    constructor; [|by apply IH].
    apply (proj1 (Forall_forall _ _) Ha). apply last_Some_elem_of in Hl. exact Hl.
Qed.

Lemma date_sorted_ends sorted emails :
  date_sorted sorted emails -> emails <> [] ->
  exists first last_,
    head sorted = Some first /\ last sorted = Some last_ /\
    earliest emails first /\ latest emails last_.
Proof.
  intros [Hperm Hs] Hne.
  destruct sorted as [|f rest].
  { apply Permutation_nil_l in Hperm. by subst. }
  destruct (last (f :: rest)) as [l|] eqn:Hl;
    [|by apply last_None in Hl].
  exists f, l. split; [done|]. split; [done|]. split.
  - split; [rewrite <- Hperm; apply list_elem_of_here|].
    intros e' He'. rewrite <- Hperm in He'.
    apply elem_of_cons in He' as [->|He']; [lia|].
    apply StronglySorted_inv in Hs as [_ Hf].
    by apply (proj1 (Forall_forall _ _) Hf).
  - split; [rewrite <- Hperm; by apply last_Some_elem_of|].
    intros e' He'. rewrite <- Hperm in He'.
    by apply (proj1 (Forall_forall _ _) (sorted_last_latest _ _ Hs Hl)).
Qed.

Lemma serialize_date_sorted rt g sorted emails fs outputDir :
  io_all_succeed fs outputDir ->
  emails <> [] ->
  (forall e, earliest emails e -> has_To_and_Cc e) ->
  (forall e, latest emails e -> has_To_and_Cc e) ->
  date_sorted sorted emails ->
  exists first last_,
    earliest emails first /\ latest emails last_ /\
    GenerateTestData fs (map (message_of rt g) sorted) outputDir
    = Returned None
        [ ("gmail_messages.json", MessagesFile (map (message_of rt g) sorted));
          ("list_messages_response.json",
           ListFile (listResponse (map (message_of rt g) sorted)));
          ("test_metadata.json",
           MetadataFile
             (Metadata.mk (length emails)
                (time.FormatRFC1123Z (shiftedDate g first))
                (time.FormatRFC1123Z (shiftedDate g last_))
                (getLabelDistribution (map (message_of rt g) sorted))
                (getThreadCount (map (message_of rt g) sorted)))) ].
Proof.
  intros [Hd Hw] Hne H1 H2 Hsorted.
  destruct (date_sorted_ends sorted emails Hsorted Hne) as (f & l & Hf & Hl & Hef & Hll).
  exists f, l. split; [done|]. split; [done|].
  set (messages := map (message_of rt g) sorted).
  assert (Hlen : length messages = length emails).
  { unfold messages. rewrite length_map. by rewrite (proj1 Hsorted). }
  assert (H0 : header4 messages 0 = Some (time.FormatRFC1123Z (shiftedDate g f))).
  { apply (header4_dated rt); [|by apply H1].
    unfold messages. change (map ?h ?x) with (h <$> x). rewrite list_lookup_fmap.
    rewrite head_lookup in Hf. by rewrite Hf. }
  assert (Hn : header4 messages (length messages - 1)
               = Some (time.FormatRFC1123Z (shiftedDate g l))).
  { apply (header4_dated rt); [|by apply H2].
    unfold messages. change (map ?h ?x) with (h <$> x).
    rewrite list_lookup_fmap, length_fmap. rewrite last_lookup in Hl.
    replace (length sorted - 1)%nat with (pred (length sorted)) by lia. by rewrite Hl. }
  clearbody messages.
  unfold GenerateTestData, testMetadata. rewrite Hd, !Hw, H0, Hn, Hlen. reflexivity.
Qed.

(** X24: when every call of the file system succeeds, the corpus is not
    empty, and every record of earliest date and every record of latest
    date has To and Cc entries, serializing the messages of a run, or of
    any arrangement of the records in date order (records of equal date
    in any order), returns without error after writing the three files,
    and the metadata's date range runs from the shifted date of a record
    of earliest date to that of a record of latest date, in RFC 1123
    form with numeric zone. *)
Theorem GenerateTestData_date_range rt now user testEmail emails fs outputDir messages :
  let g0 := NewGmailTransformer now user testEmail in
  io_all_succeed fs outputDir ->
  emails <> [] ->
  (forall e, earliest emails e -> has_To_and_Cc e) ->
  (forall e, latest emails e -> has_To_and_Cc e) ->
  messages = (TransformDataset rt g0 emails).2
  \/ (exists g sorted,
        GmailTransformer.timeShift g = GmailTransformer.timeShift g0 /\
        date_sorted sorted emails /\ messages = map (message_of rt g) sorted) ->
  exists first last_,
    earliest emails first /\ latest emails last_ /\
    GenerateTestData fs messages outputDir
    = Returned None
        [ ("gmail_messages.json", MessagesFile messages);
          ("list_messages_response.json", ListFile (listResponse messages));
          ("test_metadata.json",
           MetadataFile
             (Metadata.mk (length emails)
                (time.FormatRFC1123Z
                   (time.Add (EnronEmail.Date first) (GmailTransformer.timeShift g0)))
                (time.FormatRFC1123Z
                   (time.Add (EnronEmail.Date last_) (GmailTransformer.timeShift g0)))
                (getLabelDistribution messages) (getThreadCount messages))) ].
Proof.
  intros g0 Hio Hne H1 H2 Hmsgs.
  assert (Hform : exists g sorted,
            GmailTransformer.timeShift g = GmailTransformer.timeShift g0 /\
            date_sorted sorted emails /\ messages = map (message_of rt g) sorted).
  { destruct Hmsgs as [->|H]; [|exact H].
    pose proof (TransformDataset_spec rt g0 emails (NewGmailTransformer_cache_ok _ _ _))
      as (Hrun & _ & _).
    cbn zeta in Hrun.
    exists (buildPersonaMap rt (sort.Slice byDate emails) g0), (sort.Slice byDate emails).
    split; [by destruct (buildPersonaMap_config rt (sort.Slice byDate emails) g0) as [-> _]|].
    split; [|exact Hrun].
    split; [apply Slice_Permutation|apply (Slice_sorted byDate _ byDate_key)]. }
  destruct Hform as (g & sorted & Hshift & Hsorted & ->).
  destruct (serialize_date_sorted rt g sorted emails fs outputDir Hio Hne H1 H2 Hsorted)
    as (f & l & Hf & Hl & Hout).
  exists f, l. split; [done|]. split; [done|].
  unfold shiftedDate in Hout. rewrite Hshift in Hout. exact Hout.
Qed.

Lemma GenerateTestData_date_range_witness :
  exists first last_,
    earliest [mention; copied; copied_twin] first /\
    latest [mention; copied; copied_twin] last_ /\
    GenerateTestData fs_ok
      (TransformDataset runtime.forward
         (NewGmailTransformer clock "kaminski" "test@example.com")
         [mention; copied; copied_twin]).2 "out"
    = Returned None
        [ ("gmail_messages.json",
           MessagesFile (TransformDataset runtime.forward
                           (NewGmailTransformer clock "kaminski" "test@example.com")
                           [mention; copied; copied_twin]).2);
          ("list_messages_response.json",
           ListFile (listResponse (TransformDataset runtime.forward
                           (NewGmailTransformer clock "kaminski" "test@example.com")
                           [mention; copied; copied_twin]).2));
          ("test_metadata.json",
           MetadataFile
             (Metadata.mk 3
                (time.FormatRFC1123Z
                   (time.Add (EnronEmail.Date first)
                      (GmailTransformer.timeShift
                         (NewGmailTransformer clock "kaminski" "test@example.com"))))
                (time.FormatRFC1123Z
                   (time.Add (EnronEmail.Date last_)
                      (GmailTransformer.timeShift
                         (NewGmailTransformer clock "kaminski" "test@example.com"))))
                (getLabelDistribution (TransformDataset runtime.forward
                           (NewGmailTransformer clock "kaminski" "test@example.com")
                           [mention; copied; copied_twin]).2)
                (getThreadCount (TransformDataset runtime.forward
                           (NewGmailTransformer clock "kaminski" "test@example.com")
                           [mention; copied; copied_twin]).2))) ].
Proof.
  apply (GenerateTestData_date_range runtime.forward clock "kaminski" "test@example.com"
           [mention; copied; copied_twin] fs_ok "out").
  - split; reflexivity.
  - discriminate.
  - intros e [He _].
    repeat (apply elem_of_cons in He as [->|He]; [split; discriminate|]).
    by apply elem_of_nil in He.
  - intros e [He _].
    repeat (apply elem_of_cons in He as [->|He]; [split; discriminate|]).
    by apply elem_of_nil in He.
  - left. reflexivity.
Defined.

(** The run of the witness: the two records of earliest date both carry
    To and Cc, and the range starts at their shifted date. *)
Example date_range_of_tied_records :
  Metadata.dateRange_start
    <$> testMetadata (run_of runtime.forward [mention; copied; copied_twin]).2
    = Some "Thu, 31 Oct 2024 04:00:00 +0000" /\
  Metadata.dateRange_end
    <$> testMetadata (run_of runtime.forward [mention; copied; copied_twin]).2
    = Some "Thu, 31 Oct 2024 05:00:00 +0000".
Proof. split; vm_compute; reflexivity. Qed.


(** ** [fixEncoding] *)

Lemma ReplaceAll_go_absent f a old new s :
  f a = false -> all_chars f s = true ->
  strings.ReplaceAll_go (String a old) new 0 s = s.
Proof.
  intros Ha. induction s as [|c s IH]; [done|].
  cbn [all_chars]. intros [Hc Hs]%andb_true_iff.
  cbn [strings.ReplaceAll_go String.prefix].
  destruct (ascii_dec a c) as [->|_]; [congruence|]. by rewrite IH.
Qed.

Lemma ReplaceAll_go_skip_plain f a old new u w :
  f a = false -> all_chars f u = true ->
  strings.ReplaceAll_go (String a old) new 0 (u +:+ w)
  = u +:+ strings.ReplaceAll_go (String a old) new 0 w.
Proof.
  intros Ha. induction u as [|c u IH]; [done|].
  cbn [all_chars]. intros [Hc Hs]%andb_true_iff.
  rewrite !append_cons. cbn [strings.ReplaceAll_go String.prefix].
  destruct (ascii_dec a c) as [->|_]; [congruence|]. by rewrite IH.
Qed.

Lemma replacements_encoded : Forall encoded runtime.replacements.
Proof. repeat constructor; eexists _, _; split; reflexivity. Qed.

Lemma fold_ReplaceAll_plain l : forall text,
  Forall encoded l -> all_chars plain text = true ->
  fold_left (fun text kv => strings.ReplaceAll text kv.1 kv.2) l text = text.
Proof.
  induction l as [|kv l IH]; intros text Hl Ht; [done|].
  apply Forall_cons in Hl as [(a & r & Hk & Ha) Hl].
  cbn [fold_left]. rewrite Hk. unfold strings.ReplaceAll at 2.
  rewrite (ReplaceAll_go_absent plain) by done. by apply IH.
Qed.

(** X25: a text without [=] and without [&] holds nothing to decode:
    [fixEncoding] returns it unchanged, in whatever order the replacement
    table is ranged over. *)
Theorem fixEncoding_plain_text rt text :
  runtime.valid rt -> all_chars plain text = true -> fixEncoding rt text = text.
Proof.
  intros [_ Hrt] Ht. unfold fixEncoding. apply fold_ReplaceAll_plain; [|done].
  rewrite (Hrt text). apply replacements_encoded.
Qed.

Lemma fixEncoding_plain_text_witness :
  fixEncoding runtime.backward "Please review the budget." = "Please review the budget.".
Proof.
  apply fixEncoding_plain_text; [exact valid_backward|reflexivity].
Defined.

Lemma plain_no_eq s : all_chars plain s = true -> all_chars (fun c => negb (Ascii.eqb c "=")) s = true.
Proof.
  induction s as [|c s IH]; [done|]. cbn [all_chars]. unfold plain at 1.
  intros [[-> _]%andb_true_iff Hs]%andb_true_iff. by rewrite IH.
Qed.

Lemma plain_no_amp s : all_chars plain s = true -> all_chars (fun c => negb (Ascii.eqb c "&")) s = true.
Proof.
  induction s as [|c s IH]; [done|]. cbn [all_chars]. unfold plain at 1.
  intros [[_ ->]%andb_true_iff Hs]%andb_true_iff. by rewrite IH.
Qed.

(** An entity between plain texts, one replacement at a time. *)
Lemma ReplaceAll_no_eq r new u m v :
  all_chars plain u = true -> all_chars plain v = true ->
  all_chars (fun c => negb (Ascii.eqb c "=")) m = true ->
  strings.ReplaceAll (u +:+ m +:+ v) (String "=" r) new = u +:+ m +:+ v.
Proof.
  intros Hu Hv Hm. unfold strings.ReplaceAll.
  apply (ReplaceAll_go_absent (fun c => negb (Ascii.eqb c "="))); [done|].
  by rewrite !all_chars_append, Hm, !plain_no_eq.
Qed.

Lemma ReplaceAll_amp r new u w w' v :
  all_chars plain u = true -> all_chars plain v = true ->
  (forall t, strings.ReplaceAll_go (String "&" r) new 0 (w +:+ t)
             = w' +:+ strings.ReplaceAll_go (String "&" r) new 0 t) ->
  strings.ReplaceAll (u +:+ w +:+ v) (String "&" r) new = u +:+ w' +:+ v.
Proof.
  intros Hu Hv Hw. unfold strings.ReplaceAll.
  rewrite (ReplaceAll_go_skip_plain (fun c => negb (Ascii.eqb c "&"))), Hw;
    [|done|by apply plain_no_amp].
  by rewrite (ReplaceAll_go_absent (fun c => negb (Ascii.eqb c "&"))) by (done || by apply plain_no_amp).
Qed.

Ltac replace_step :=
  intros; rewrite ?append_cons, ?append_nil_l;
  cbn [strings.ReplaceAll_go String.prefix]; cbn;
  rewrite ?prefix_nil; reflexivity.

(** X26: what a doubly encoded entity decodes to depends on the order in
    which the replacement table is ranged over: between texts without [=]
    and [&], ["&amp;lt;"] becomes ["<"] when ["&amp;"] is replaced before
    ["&lt;"] and ["&lt;"] when it is replaced after; both orders are
    admissible for Go's map iteration. *)
Theorem fixEncoding_follows_map_order u v :
  all_chars plain u = true -> all_chars plain v = true ->
  runtime.valid runtime.forward /\ runtime.valid runtime.backward /\
  fixEncoding runtime.forward (u +:+ "&amp;lt;" +:+ v) = u +:+ "<" +:+ v /\
  fixEncoding runtime.backward (u +:+ "&amp;lt;" +:+ v) = u +:+ "&lt;" +:+ v.
Proof.
  intros Hu Hv. split; [exact valid_forward|]. split; [exact valid_backward|].
  unfold fixEncoding. split.
  - cbn [runtime.forward runtime.range_replacements runtime.replacements fold_left fst snd].
    rewrite !(ReplaceAll_no_eq _ _ u "&amp;lt;" v) by done.
    rewrite (ReplaceAll_amp _ _ u "&amp;lt;" "&lt;" v) by (done || replace_step).
    rewrite (ReplaceAll_amp _ _ u "&lt;" "<" v) by (done || replace_step).
    by rewrite (ReplaceAll_amp _ _ u "<" "<" v) by (done || replace_step).
  - cbn [runtime.backward runtime.range_replacements runtime.replacements rev app fold_left fst snd].
    rewrite (ReplaceAll_amp _ _ u "&amp;lt;" "&amp;lt;" v) by (done || replace_step).
    rewrite (ReplaceAll_amp _ _ u "&amp;lt;" "&amp;lt;" v) by (done || replace_step).
    rewrite (ReplaceAll_amp _ _ u "&amp;lt;" "&lt;" v) by (done || replace_step).
    by rewrite !(ReplaceAll_no_eq _ _ u "&lt;" v) by done.
Qed.

Lemma fixEncoding_follows_map_order_witness :
  fixEncoding runtime.forward "a &amp;lt; b" = "a < b" /\
  fixEncoding runtime.backward "a &amp;lt; b" = "a &lt; b".
Proof.
  exact (proj2 (proj2 (fixEncoding_follows_map_order "a " " b" eq_refl eq_refl))).
Defined.


(** ** The company name in bodies *)

Section Renaming.

Variables (old new q : string) (e t : ascii) (q' new' : string).
Hypothesis Hq : q = String e q'.
Hypothesis Hnew : new = String t new'.
(** The replacement's first byte does not occur in [q] past its head. *)
Hypothesis Hfresh : all_chars (fun c => negb (Ascii.eqb c t)) q' = true.
(** No occurrence of [q] starts inside the replacement. *)
Hypothesis Hborder : forall x, strings.Contains (new +:+ x) q = strings.Contains x q.

Lemma prefix_copied p : forall s,
  all_chars (fun c => negb (Ascii.eqb c t)) p = true ->
  String.prefix p (strings.ReplaceAll_go old new 0 s) = true -> String.prefix p s = true.
Proof using Hnew.
  induction p as [|a p IH]; intros s Hp H; [apply prefix_nil|].
  cbn [all_chars] in Hp. apply andb_true_iff in Hp as [Ha Hp].
  destruct s as [|c s]; [done|].
  cbn [strings.ReplaceAll_go] in H. destruct (String.prefix old (String c s)).
  - rewrite Hnew, append_cons in H. apply prefix_cons in H as [-> _].
    by rewrite Ascii.eqb_refl in Ha.
  - apply prefix_cons in H as [-> H]. by apply prefix_same, IH.
Qed.

Lemma Contains_false_cons c s :
  strings.Contains (String c s) q = false ->
  String.prefix q (String c s) = false /\ strings.Contains s q = false.
Proof. cbn [strings.Contains]. by destruct (String.prefix q (String c s)). Qed.

Lemma ReplaceAll_go_clear s : forall k,
  copies_clear old q s -> strings.Contains (strings.ReplaceAll_go old new k s) q = false.
Proof using Hq Hnew Hfresh Hborder.
  induction s as [|c s IH]; intros k Hs.
  - cbn [strings.ReplaceAll_go strings.Contains]. by rewrite Hq.
  - destruct Hs as [Hc Hs]. cbn [strings.ReplaceAll_go]. destruct k as [|k]; [|by apply IH].
    destruct (String.prefix old (String c s)) eqn:Hp.
    + rewrite Hborder. by apply IH.
    + specialize (Hc eq_refl). cbn [strings.Contains]. rewrite (IH 0%nat Hs).
      destruct (String.prefix q (String c (strings.ReplaceAll_go old new 0 s))) eqn:Hpq; [|done].
      rewrite Hq in Hpq, Hc. apply prefix_cons in Hpq as [-> Hpq].
      apply (prefix_copied q' s Hfresh) in Hpq.
      by rewrite (prefix_same c _ _ Hpq) in Hc.
Qed.

Lemma copies_clear_absent s : strings.Contains s q = false -> copies_clear old q s.
Proof.
  induction s as [|c s IH]; [done|].
  intros [Hp Hs]%Contains_false_cons. split; [done|by apply IH].
Qed.

End Renaming.

Lemma copies_clear_self old s : copies_clear old old s.
Proof. induction s as [|c s IH]; [done|]. split; [done|exact IH]. Qed.

Lemma Enron_removed s :
  strings.Contains (strings.ReplaceAll s "Enron" "TechCorp") "Enron" = false.
Proof.
  unfold strings.ReplaceAll.
  apply (ReplaceAll_go_clear "Enron" "TechCorp" "Enron" "E" "T" "nron" "echCorp");
    [reflexivity..| |apply copies_clear_self].
  intros x. rewrite !append_cons, append_nil_l. cbn [strings.Contains String.prefix]. by cbn.
Qed.

Lemma ENRON_removed s :
  strings.Contains (strings.ReplaceAll s "ENRON" "TECHCORP") "ENRON" = false.
Proof.
  unfold strings.ReplaceAll.
  apply (ReplaceAll_go_clear "ENRON" "TECHCORP" "ENRON" "E" "T" "NRON" "ECHCORP");
    [reflexivity..| |apply copies_clear_self].
  intros x. rewrite !append_cons, append_nil_l. cbn [strings.Contains String.prefix]. by cbn.
Qed.

Lemma Enron_not_made s :
  strings.Contains s "Enron" = false ->
  strings.Contains (strings.ReplaceAll s "ENRON" "TECHCORP") "Enron" = false.
Proof.
  intros Hs. unfold strings.ReplaceAll.
  apply (ReplaceAll_go_clear "ENRON" "TECHCORP" "Enron" "E" "T" "nron" "ECHCORP");
    [reflexivity..| |by apply copies_clear_absent].
  intros x. rewrite !append_cons, append_nil_l. cbn [strings.Contains String.prefix]. by cbn.
Qed.

(** X27: no transformed body holds the company name spelled [Enron] or
    [ENRON], whatever the original body, the personas and the order of
    the decoding table are. *)
Theorem transformBody_renames_company rt g body :
  strings.Contains (transformBody rt g body) "Enron" = false /\
  strings.Contains (transformBody rt g body) "ENRON" = false.
Proof.
  unfold transformBody. split.
  - apply Enron_not_made, Enron_removed.
  - apply ENRON_removed.
Qed.


(** ** Importance looks at the head of the body *)

Lemma take_min n : forall s,
  strings.take (Nat.min n (String.length s)) s = strings.take n s.
Proof.
  induction n as [|n IH]; intros s; [done|].
  destruct s as [|c s]; [done|].
  cbn [String.length Nat.min]. by rewrite !take_S, IH.
Qed.

Lemma isImportant_head e :
  isImportant e
  = existsb (fun pattern =>
               strings.Contains (strings.ToLower (EnronEmail.Subject e)) pattern
               || strings.Contains (strings.ToLower (strings.take 200 (EnronEmail.Body e))) pattern)
      importantPatterns
    || strings.Contains (EnronEmail.From e) "gibner"
    || strings.Contains (EnronEmail.From e) "buy"
    || strings.Contains (EnronEmail.From e) "lay".
Proof.
  unfold isImportant. cbv zeta. rewrite take_min.
  unfold strings.take. by rewrite substring_ToLower.
Qed.

(** X28: on bodies of ASCII bytes only, importance never depends on the
    body past its first 200 bytes: two records with the same subject,
    the same sender and ASCII bodies that agree on their first 200 bytes
    are both important or both not. *)
Theorem isImportant_reads_200_bytes e e' :
  EnronEmail.Subject e = EnronEmail.Subject e' ->
  EnronEmail.From e = EnronEmail.From e' ->
  ascii_only (EnronEmail.Body e) = true ->
  ascii_only (EnronEmail.Body e') = true ->
  strings.take 200 (EnronEmail.Body e) = strings.take 200 (EnronEmail.Body e') ->
  isImportant e = isImportant e'.
Proof. intros Hs Hf _ _ Hb. by rewrite !isImportant_head, Hs, Hf, Hb. Qed.

Lemma isImportant_reads_200_bytes_witness :
  isImportant (record "<6>" 0 A [B] [] "Budget" (long_note +:+ "This is urgent."))
  = isImportant (record "<7>" 0 A [B] [] "Budget" long_note).
Proof.
  apply isImportant_reads_200_bytes; [reflexivity|reflexivity| | |];
    vm_compute; reflexivity.
Defined.

(** ** The directory form of [X-From] *)

Lemma Index_after name sep rest_ c :
  strings.Contains name (String c EmptyString) = false ->
  strings.Index (name +:+ String c sep +:+ rest_) (String c sep)
  = Some (String.length name).
Proof.
  induction name as [|a name IH]; intros Hc.
  - rewrite append_nil_l. change (String c sep +:+ rest_) with (String c (sep +:+ rest_)).
    cbn [strings.Index]. rewrite prefix_same; [done|].
    clear. induction sep as [|b sep IH]; [rewrite append_nil_l; apply prefix_nil|].
    rewrite append_cons. by apply prefix_same.
  - rewrite append_cons. cbn [strings.Contains strings.Index String.prefix] in *.
    destruct (ascii_dec c a).
    + destruct name; discriminate.
    + rewrite (IH Hc). reflexivity.
Qed.

(** X29: an [X-From] value in directory form, a display name free of [<]
    followed by [</O=...], is cut down to the trimmed display name. *)
Theorem cleanEnronAddress_directory_form name rest_ :
  name <> EmptyString ->
  strings.Contains name "<" = false ->
  cleanEnronAddress (name +:+ "</O=" +:+ rest_) = strings.TrimSpace name.
Proof.
  intros Hne Hc. unfold cleanEnronAddress.
  rewrite (Index_after name "/O=" rest_ "<" Hc).
  destruct name as [|a name]; [done|]. cbn [String.length].
  change (S (String.length name)) with (String.length (String a name)).
  by rewrite take_app_length.
Qed.

Lemma cleanEnronAddress_directory_form_witness :
  cleanEnronAddress "Kaminski, Vince </O=ENRON/OU=NA/CN=RECIPIENTS/CN=VKAMINS>"
  = "Kaminski, Vince".
Proof.
  exact (cleanEnronAddress_directory_form "Kaminski, Vince "
           "ENRON/OU=NA/CN=RECIPIENTS/CN=VKAMINS>" ltac:(discriminate) eq_refl).
Defined.

(** ** An empty owner fragment *)

Lemma Contains_nil s : strings.Contains s EmptyString = true.
Proof. destruct s; reflexivity. Qed.

Lemma countAddress_fold_owner g addresses : forall freq,
  GmailTransformer.enronUserName g = EmptyString ->
  fold_left (countAddress g) addresses freq = freq.
Proof.
  intros freq Hu. induction addresses as [|a l IH]; [done|].
  cbn [fold_left]. unfold countAddress at 2. rewrite Hu, Contains_nil.
  rewrite andb_false_r. exact IH.
Qed.

(** X30: with an empty owner fragment everybody is the owner: every
    header address and every address literal of a body is rewritten to
    the test user's, every message is labelled SENT, and no contact is
    counted. *)
Theorem empty_owner_fragment g :
  GmailTransformer.enronUserName g = EmptyString ->
  (forall address,
     transformEmailAddress g address = "You <" +:+ GmailTransformer.userEmail g +:+ ">") /\
  (forall literal, replaceAddress g literal = GmailTransformer.userEmail g) /\
  (forall e, inferLabels g e !! 1%nat = Some "SENT") /\
  (forall emails, contactFreq g emails = ∅).
Proof.
  intros Hu. repeat split.
  - intros address. unfold transformEmailAddress. by rewrite Hu, Contains_nil.
  - intros literal. unfold replaceAddress. by rewrite Hu, Contains_nil.
  - intros e. unfold inferLabels. rewrite Hu, Contains_nil.
    repeat match goal with |- context [if ?b then _ else _] => destruct b end; reflexivity.
  - intros emails. unfold contactFreq. generalize (∅ : gmap string nat).
    induction emails as [|e es IH]; intros freq; [done|].
    cbn [fold_left]. rewrite IH. unfold countEmail.
    rewrite countAddress_fold_owner by done.
    apply (countAddress_fold_owner g [EnronEmail.From e] freq Hu).
Qed.

Lemma empty_owner_fragment_witness :
  transformEmailAddress (NewGmailTransformer clock EmptyString "test@example.com") A
  = "You <test@example.com>".
Proof.
  exact (proj1 (empty_owner_fragment
                  (NewGmailTransformer clock EmptyString "test@example.com") eq_refl) A).
Defined.
